(** * indi-rolloffino: the roll-off roof driver and its serial protocol

    A shallow embedding of [src/indi-rolloffino/rolloffino.cpp]: the framed
    text protocol spoken with the Arduino roof controller ([readIno],
    [writeIno], [evaluateResponse], [initialContact]) and the roof motion
    logic built on it ([updateRoofStatus], [Move], [Abort], [TimerHit]).

    Conventions.
    - C [int] counters are [Z]; [unsigned int communicationErrors] is a [Z]
      with its 32-bit wrap-around written out in [incr_errors].
    - A [char] buffer is a [list ascii] of the declared size; [cstr] reads
      the NUL-terminated string it holds.  A store outside the buffer, a
      [strcpy] that does not fit and a [strcpy] from the null pointer that
      [strtok] returns are undefined behaviour: the model answers [None].
    - The serial line is explicit state: the results the successive
      [tty_read] and [tty_write_string] calls will have, and the log of the
      frames handed to the line.
    - Logging, [msSleep] and [tcflush] have no effect on the modelled state. *)

From Stdlib Require Import Ascii String DecimalString DecimalNat.
From Stdlib Require Import ZArith List Bool Lia.
Import ListNotations.

Local Open Scope Z_scope.
Local Open Scope list_scope.

(** ** Text and character buffers *)

Definition text := list ascii.

Definition str (s : string) : text := list_ascii_of_string s.

Definition NUL : ascii := Ascii.zero.

Definition text_eqb (a b : text) : bool :=
  if list_eq_dec ascii_dec a b then true else false.

(** [strcmp(a, b) == 0] on NUL-free strings. *)
Definition strcmp0 (a b : text) : bool := text_eqb a b.

Definition strlen (s : text) : Z := Z.of_nat (length s).

Fixpoint cstr (buf : list ascii) : text :=
  match buf with
  | [] => []
  | c :: tl => if Ascii.eqb c NUL then [] else c :: cstr tl
  end.

(** [memset(buf, 0, n)]. *)
Definition zeroed (n : nat) : list ascii := repeat NUL n.

(** [buf[i] = c]; [None] when [i] is outside the buffer. *)
Fixpoint store (i : nat) (c : ascii) (buf : list ascii) : option (list ascii) :=
  match buf, i with
  | [], _ => None
  | _ :: tl, O => Some (c :: tl)
  | b :: tl, S j =>
      match store j c tl with
      | Some tl' => Some (b :: tl')
      | None => None
      end
  end.

(** [strcpy(dest, src)] into [char dest[size]]: the string that [dest] holds
    afterwards; [None] for a null [src] or one that does not fit. *)
Definition strcpy (size : Z) (src : option text) : option text :=
  match src with
  | Some s => if strlen s <? size then Some s else None
  | None => None
  end.

(** [strcpy(buf, s)] seen on the whole array: the bytes behind the copied
    string and its terminator keep their old value. *)
Definition strcpy_over (buf : list ascii) (s : text) : option (list ascii) :=
  if (length s <? length buf)%nat
  then Some (s ++ NUL :: skipn (S (length s)) buf)
  else None.

(** ** [strtok] *)

Definition is_delim (delims : text) (c : ascii) : bool :=
  existsb (Ascii.eqb c) delims.

Fixpoint skip_delims (delims : text) (s : text) : text :=
  match s with
  | [] => []
  | c :: tl => if is_delim delims c then skip_delims delims tl else s
  end.

Fixpoint split_token (delims : text) (s : text) : text * text :=
  match s with
  | [] => ([], [])
  | c :: tl =>
      if is_delim delims c then ([], tl)
      else let (tok, rest) := split_token delims tl in (c :: tok, rest)
  end.

(** One [strtok] call on the string starting at [s] (the argument of the
    first call, the saved position of a later one): the token and the new
    saved position, or [None] for the null pointer. *)
Definition strtok (s : text) (delims : text) : option (text * text) :=
  match skip_delims delims s with
  | [] => None
  | s' => Some (split_token delims s')
  end.

(** ** [strtol(s, &end, 10)] assigned to an [int] *)

Definition LONG_MAX : Z := 2 ^ 63 - 1.
Definition LONG_MIN : Z := - 2 ^ 63.

Definition isspace (c : ascii) : bool :=
  let n := nat_of_ascii c in ((n =? 32) || ((9 <=? n) && (n <=? 13)))%nat.

Definition digit_val (c : ascii) : option Z :=
  let n := Z.of_nat (nat_of_ascii c) in
  if (48 <=? n) && (n <=? 57) then Some (n - 48) else None.

Fixpoint skip_space (s : text) : text :=
  match s with
  | c :: tl => if isspace c then skip_space tl else s
  | [] => []
  end.

(** The digits of the subject sequence, most significant first. *)
Fixpoint strtol_digits (s : text) (acc : Z) : Z :=
  match s with
  | c :: tl =>
      match digit_val c with
      | Some d => strtol_digits tl (10 * acc + d)
      | None => acc
      end
  | [] => acc
  end.

Definition clamp_long (z : Z) : Z := Z.max LONG_MIN (Z.min LONG_MAX z).

Definition strtol (s : text) : Z :=
  match skip_space s with
  | "-"%char :: tl => clamp_long (- strtol_digits tl 0)
  | "+"%char :: tl => clamp_long (strtol_digits tl 0)
  | s' => clamp_long (strtol_digits s' 0)
  end.

(** Conversion of a [long] to [int]: the low 32 bits, two's complement. *)
Definition int_of_long (z : Z) : Z := (z + 2 ^ 31) mod 2 ^ 32 - 2 ^ 31.

(** ** Interface limits (the [#define]s at the head of the file) *)

Definition INACTIVE_STATUS : Z := 4.
Definition MAX_CNTRL_COM_ERR : Z := 10.
Definition MAXINOCMD : Z := 15.
Definition MAXINOTARGET : Z := 15.
Definition MAXINOVAL : Z := 127.
Definition MAXINOLINE : Z := 63.
Definition MAXINOBUF : Z := 255.

(** Modelled from the spec: [MAX_ACTIONS] is declared in [rolloffino.h]; the
    registry holds "up to a fixed number (8)" of action slots, and the source
    fills the action status vector with the literal 8. *)
Definition MAX_ACTIONS : Z := 8.

(** ** The serial line *)

(** The failing [TTY_ERROR] codes of [indicom.h]. *)
Inductive TtyError : Type :=
| TTY_READ_ERROR | TTY_WRITE_ERROR | TTY_SELECT_ERROR | TTY_TIME_OUT
| TTY_PORT_FAILURE | TTY_PARAM_ERROR | TTY_ERRNO | TTY_OVERFLOW
| TTY_PORT_BUSY.

(** What one [tty_read(PortFD, bufPtr, 1, MAXINOWAIT, &retCount)] does. *)
Inductive ReadEvent : Type :=
| RxByte (c : ascii)      (* TTY_OK, the byte is stored, retCount = 1 *)
| RxNone                  (* TTY_OK, nothing stored, retCount = 0 *)
| RxFail (e : TtyError).  (* status <> TTY_OK *)

Record Serial : Type := mkSerial {
  rx : list ReadEvent;          (* results of the reads to come *)
  wr : list (option TtyError);  (* results of the writes to come *)
  tx : list text                (* frames handed to tty_write_string *)
}.

(** A write succeeds unless the line says otherwise. *)
Definition tty_write_string (msg : text) (line : Serial)
  : option TtyError * Serial :=
  match wr line with
  | [] => (None, mkSerial (rx line) [] (tx line ++ [msg]))
  | r :: rest => (r, mkSerial (rx line) rest (tx line ++ [msg]))
  end.

Definition bytes (s : text) : list ReadEvent := map RxByte s.

(** ** [readIno] *)

Record ReadLoop : Type := mkReadLoop {
  startFound : bool;
  endFound : bool;
  retCount : Z;
  totalCount : Z;
  delimCount : Z;
  bufPtr : nat;            (* offset of bufPtr in retBuf *)
  retBuf : list ascii
}.

Definition cmdLen : Z := MAXINOCMD - 5.
Definition targetLen : Z := MAXINOTARGET + cmdLen - 5.
Definition canned : text := str "(NAK:NONE:OFF)".

Definition readIno_start (retBuf0 : list ascii) : ReadLoop :=
  mkReadLoop false false 0 0 0 0%nat retBuf0.

(** The test headed "Protect against input probes". *)
Definition probe (startFound endFound : bool) (totalCount delimCount : Z)
  : bool :=
  (totalCount >=? MAXINOVAL)
  || ((totalCount >=? 2) && negb startFound)
  || ((totalCount >=? cmdLen) && (delimCount =? 0))
  || ((totalCount >=? targetLen) && (delimCount <? 2))
  || (endFound && negb (delimCount =? 2)).

(** The result of [readIno]: its return value, the buffer, the line and the
    error counter afterwards. *)
Definition ReadResult : Type := bool * list ascii * Serial * Z.

Definition incr_errors (n : Z) : Z := (n + 1) mod 2 ^ 32.

(** The [while (!stop)] loop, by recursion on the reads to come.  When
    nothing more arrives the read waits [MAXINOWAIT] seconds and fails with
    [TTY_TIME_OUT]. *)
Fixpoint readIno_loop (events : list ReadEvent) (line : Serial)
  (st : ReadLoop) (communicationErrors : Z) : option ReadResult :=
  let at_ := if startFound st
             then (bufPtr st + Z.to_nat (retCount st))%nat
             else bufPtr st in
  match events with
  | [] =>
      Some (false, retBuf st, mkSerial [] (wr line) (tx line),
            incr_errors communicationErrors)
  | RxFail _ :: rest =>
      Some (false, retBuf st, mkSerial rest (wr line) (tx line),
            incr_errors communicationErrors)
  | RxNone :: rest =>
      readIno_loop rest line
        (mkReadLoop (startFound st) (endFound st) 0 (totalCount st)
           (delimCount st) at_ (retBuf st))
        communicationErrors
  | RxByte c :: rest =>
      match store at_ c (retBuf st) with
      | None => None
      | Some buf =>
          let opens := Ascii.eqb c "("%char in
          let colon := negb opens && Ascii.eqb c ":"%char in
          let closes := negb opens && negb colon
                        && Ascii.eqb c ")"%char in
          let start := startFound st || opens in
          let delims := if colon then delimCount st + 1
                        else delimCount st in
          let end_ := endFound st || closes in
          let total := if start then totalCount st + 1 else totalCount st in
          if probe start end_ total delims then
            match store (S at_) NUL buf with
            | None => None
            | Some buf' =>
                match strcpy_over buf' canned with
                | None => None
                | Some buf'' =>
                    Some (false, buf'', mkSerial rest (wr line) (tx line),
                          incr_errors communicationErrors)
                end
            end
          else if end_ then
            match store (S at_) NUL buf with
            | None => None
            | Some buf' =>
                Some (true, buf', mkSerial rest (wr line) (tx line),
                      communicationErrors)
            end
          else
            readIno_loop rest line
              (mkReadLoop start end_ 1 total delims at_ buf)
              communicationErrors
      end
  end.

Definition readIno (retBuf0 : list ascii) (line : Serial)
  (communicationErrors : Z) : option ReadResult :=
  readIno_loop (rx line) line (readIno_start retBuf0) communicationErrors.

(** ** [writeIno] *)

Definition writeIno (msg : text) (line : Serial) : bool * Serial :=
  if strlen msg >=? MAXINOLINE then (false, line)
  else
    match tty_write_string msg line with
    | (None, line') => (true, line')
    | (Some _, line') => (false, line')
    end.

(** ** [evaluateResponse] *)

(** The three [strtok] calls that cut a frame into its fields, each copied
    into its buffer. *)
Definition frame_fields (inp : text) : option (text * text * text) :=
  match strcpy MAXINOBUF (Some inp) with
  | None => None
  | Some workBuffer =>
      match strtok workBuffer (str "(:") with
      | None => None
      | Some (tok1, save1) =>
          match strcpy (MAXINOCMD + 1) (Some tok1) with
          | None => None
          | Some inoCmd =>
              match strtok save1 (str ":") with
              | None => None
              | Some (tok2, save2) =>
                  match strcpy (MAXINOTARGET + 1) (Some tok2) with
                  | None => None
                  | Some inoTarget =>
                      match strtok save2 (str ")") with
                      | None => None
                      | Some (tok3, _) =>
                          match strcpy (MAXINOVAL + 1) (Some tok3) with
                          | None => None
                          | Some inoVal => Some (inoCmd, inoTarget, inoVal)
                          end
                      end
                  end
              end
          end
      end
  end.

(** The return value and [*result]. *)
Definition evaluateFields (inoCmd inoTarget inoVal : text) : bool * bool :=
  if strcmp0 inoCmd (str "NAK") then (false, false)
  else if strcmp0 inoTarget (str "0") then (true, true)
  else if negb (strcmp0 inoCmd (str "ACK")) then (false, false)
  else (true, strcmp0 inoVal (str "ON")).

Definition evaluateResponse (inpBuffer : text) : option (bool * bool) :=
  match frame_fields inpBuffer with
  | None => None
  | Some (inoCmd, inoTarget, inoVal) =>
      Some (evaluateFields inoCmd inoTarget inoVal)
  end.

(** ** Threading an object through the functions that use it *)

(** A function returning [A] that works on an object of type [St]: from the
    object before the call to the value returned and the object afterwards,
    or [None] when the call runs into undefined behaviour. *)
Definition Run (St A : Type) : Type := St -> option (A * St).

Definition ret {St A : Type} (a : A) : Run St A := fun s => Some (a, s).

Definition bind {St A B : Type} (m : Run St A) (k : A -> Run St B)
  : Run St B :=
  fun s => match m s with
           | Some (a, s') => k a s'
           | None => None
           end.

Definition undefined {St A : Type} : Run St A := fun _ => None.

Definition get {St A : Type} (f : St -> A) : Run St A :=
  fun s => Some (f s, s).

Definition modify {St : Type} (f : St -> St) : Run St unit :=
  fun s => Some (tt, f s).

Definition of_option {St A : Type} (o : option A) : Run St A :=
  match o with
  | Some a => ret a
  | None => undefined
  end.

Notation "x <- m ;; k" := (bind m (fun x => k))
  (at level 61, m at next level, right associativity).
Notation "m ;;; k" := (bind m (fun _ => k))
  (at level 61, right associativity).

(** ** INDI vocabulary *)

Inductive ISState : Type := ISS_OFF | ISS_ON.

Inductive IPState : Type := IPS_IDLE | IPS_OK | IPS_BUSY | IPS_ALERT.

Inductive DomeDirection : Type := DOME_CW | DOME_CCW.

Inductive DomeMotionCommand : Type := MOTION_START | MOTION_STOP.

Inductive DomeState : Type :=
| DOME_IDLE | DOME_MOVING | DOME_SYNCED | DOME_PARKING | DOME_UNPARKING
| DOME_PARKED | DOME_UNPARKED | DOME_UNKNOWN | DOME_ERROR.

Definition ISState_eqb (a b : ISState) : bool :=
  match a, b with
  | ISS_OFF, ISS_OFF | ISS_ON, ISS_ON => true
  | _, _ => false
  end.

Definition IPState_eqb (a b : IPState) : bool :=
  match a, b with
  | IPS_IDLE, IPS_IDLE | IPS_OK, IPS_OK | IPS_BUSY, IPS_BUSY
  | IPS_ALERT, IPS_ALERT => true
  | _, _ => false
  end.

Definition DomeState_eqb (a b : DomeState) : bool :=
  match a, b with
  | DOME_IDLE, DOME_IDLE | DOME_MOVING, DOME_MOVING
  | DOME_SYNCED, DOME_SYNCED | DOME_PARKING, DOME_PARKING
  | DOME_UNPARKING, DOME_UNPARKING | DOME_PARKED, DOME_PARKED
  | DOME_UNPARKED, DOME_UNPARKED | DOME_UNKNOWN, DOME_UNKNOWN
  | DOME_ERROR, DOME_ERROR => true
  | _, _ => false
  end.

Definition ISS_of_bool (b : bool) : ISState := if b then ISS_ON else ISS_OFF.

(** The base class [INDI::Dome] belongs to the INDI core library, not to
    this driver: its state is a type [Dome] with the observers the driver
    reads and the mutators it calls.  Nothing is assumed about them. *)
Class DomeBase : Type := {
  Dome : Type;
  isConnected : Dome -> bool;
  isSimulation : Dome -> bool;
  isParked : Dome -> bool;
  isLocked : Dome -> bool;
  getDomeState : Dome -> DomeState;
  PortFD : Dome -> Z;
  DomeMotionSP_getState : Dome -> IPState;
  DomeMotionSP_at : DomeDirection -> Dome -> ISState;
  RoofTimeoutN_value : Dome -> Z;      (* (int)RoofTimeoutN[0].value *)
  SetParked : bool -> Dome -> Dome;
  setDomeState : DomeState -> Dome -> Dome;
  ParkSP_idle : Dome -> Dome;          (* reset, setState(IPS_IDLE), apply *)
  SetTimer : Z -> Dome -> Dome;
  Disconnect : Dome -> Dome;
  initProperties_base : Dome -> Dome   (* the property fills and loadConfig *)
}.

(** The controller identifiers of [rolloffino.h], which is not part of the
    sources at hand: parameters of the development. *)
Class Header : Type := {
  ROOF_OPENED_SWITCH : text;
  ROOF_CLOSED_SWITCH : text;
  ROOF_LOCKED_SWITCH : text;
  ROOF_AUX_SWITCH : text;
  ROOF_OPEN_CMD : text;
  ROOF_CLOSE_CMD : text;
  ROOF_ABORT_CMD : text;
  ROOF_LOCK_CMD : text;
  ROOF_AUX_CMD : text;
  action_state_used : nat -> text;
  act_cmd_used : nat -> text
}.

(** Modelled from the spec: the values of [roofTimedOut], declared in
    [rolloffino.h]: the timed-out reason tag [none], [expired-while-opening],
    [expired-while-closing]. *)
Inductive RoofTimedOut : Type := EXPIRED_CLEAR | EXPIRED_OPEN | EXPIRED_CLOSE.

(** [RoofStatusL], indexed by [ROOF_STATUS_OPENED] .. [ROOF_STATUS_AUXSTATE]. *)
Record RoofLights : Type := mkRoofLights {
  ROOF_STATUS_OPENED : IPState;
  ROOF_STATUS_CLOSED : IPState;
  ROOF_STATUS_MOVING : IPState;
  ROOF_STATUS_LOCKED : IPState;
  ROOF_STATUS_AUXSTATE : IPState
}.

Definition lights_idle : RoofLights :=
  mkRoofLights IPS_IDLE IPS_IDLE IPS_IDLE IPS_IDLE IPS_IDLE.

Section Driver.

Context {dome_base : DomeBase} {header : Header}.

(** ** The driver object *)

Record RollOffIno : Type := mkRollOffIno {
  base : Dome;   (* the INDI::Dome part of the object *)
  line : Serial;   (* the serial line behind PortFD *)
  communicationErrors : Z;
  contactEstablished : bool;
  actionCount : Z;
  roofOpening : bool;
  roofClosing : bool;
  roofTimedOut : RoofTimedOut;
  MotionRequest : Z;   (* seconds; -1 after an abort *)
  MotionStart : Z;   (* milliseconds *)
  fullyOpenedLimitSwitch : ISState;
  fullyClosedLimitSwitch : ISState;
  roofLockedSwitch : ISState;
  roofAuxiliarySwitch : ISState;
  simRoofOpen : bool;
  simRoofClosed : bool;
  RoofStatusL : RoofLights;
  RoofStatusLP : IPState;
  actionState : list bool;
  actionStatusState : list ISState;
  ActionStatusL : list IPState;
  ActionStatusLP : IPState
}.

Definition set_base (v : Dome) (s : RollOffIno) : RollOffIno :=
  mkRollOffIno (v) (line s) (communicationErrors s) (contactEstablished s)
    (actionCount s) (roofOpening s) (roofClosing s) (roofTimedOut s)
    (MotionRequest s) (MotionStart s) (fullyOpenedLimitSwitch s)
    (fullyClosedLimitSwitch s) (roofLockedSwitch s) (roofAuxiliarySwitch s)
    (simRoofOpen s) (simRoofClosed s) (RoofStatusL s) (RoofStatusLP s)
    (actionState s) (actionStatusState s) (ActionStatusL s)
    (ActionStatusLP s).

Definition set_line (v : Serial) (s : RollOffIno) : RollOffIno :=
  mkRollOffIno (base s) (v) (communicationErrors s) (contactEstablished s)
    (actionCount s) (roofOpening s) (roofClosing s) (roofTimedOut s)
    (MotionRequest s) (MotionStart s) (fullyOpenedLimitSwitch s)
    (fullyClosedLimitSwitch s) (roofLockedSwitch s) (roofAuxiliarySwitch s)
    (simRoofOpen s) (simRoofClosed s) (RoofStatusL s) (RoofStatusLP s)
    (actionState s) (actionStatusState s) (ActionStatusL s)
    (ActionStatusLP s).

Definition set_communicationErrors (v : Z) (s : RollOffIno) : RollOffIno :=
  mkRollOffIno (base s) (line s) (v) (contactEstablished s) (actionCount s)
    (roofOpening s) (roofClosing s) (roofTimedOut s) (MotionRequest s)
    (MotionStart s) (fullyOpenedLimitSwitch s) (fullyClosedLimitSwitch s)
    (roofLockedSwitch s) (roofAuxiliarySwitch s) (simRoofOpen s)
    (simRoofClosed s) (RoofStatusL s) (RoofStatusLP s) (actionState s)
    (actionStatusState s) (ActionStatusL s) (ActionStatusLP s).

Definition set_contactEstablished (v : bool) (s : RollOffIno) : RollOffIno :=
  mkRollOffIno (base s) (line s) (communicationErrors s) (v) (actionCount s)
    (roofOpening s) (roofClosing s) (roofTimedOut s) (MotionRequest s)
    (MotionStart s) (fullyOpenedLimitSwitch s) (fullyClosedLimitSwitch s)
    (roofLockedSwitch s) (roofAuxiliarySwitch s) (simRoofOpen s)
    (simRoofClosed s) (RoofStatusL s) (RoofStatusLP s) (actionState s)
    (actionStatusState s) (ActionStatusL s) (ActionStatusLP s).

Definition set_actionCount (v : Z) (s : RollOffIno) : RollOffIno :=
  mkRollOffIno (base s) (line s) (communicationErrors s)
    (contactEstablished s) (v) (roofOpening s) (roofClosing s)
    (roofTimedOut s) (MotionRequest s) (MotionStart s)
    (fullyOpenedLimitSwitch s) (fullyClosedLimitSwitch s)
    (roofLockedSwitch s) (roofAuxiliarySwitch s) (simRoofOpen s)
    (simRoofClosed s) (RoofStatusL s) (RoofStatusLP s) (actionState s)
    (actionStatusState s) (ActionStatusL s) (ActionStatusLP s).

Definition set_roofOpening (v : bool) (s : RollOffIno) : RollOffIno :=
  mkRollOffIno (base s) (line s) (communicationErrors s)
    (contactEstablished s) (actionCount s) (v) (roofClosing s)
    (roofTimedOut s) (MotionRequest s) (MotionStart s)
    (fullyOpenedLimitSwitch s) (fullyClosedLimitSwitch s)
    (roofLockedSwitch s) (roofAuxiliarySwitch s) (simRoofOpen s)
    (simRoofClosed s) (RoofStatusL s) (RoofStatusLP s) (actionState s)
    (actionStatusState s) (ActionStatusL s) (ActionStatusLP s).

Definition set_roofClosing (v : bool) (s : RollOffIno) : RollOffIno :=
  mkRollOffIno (base s) (line s) (communicationErrors s)
    (contactEstablished s) (actionCount s) (roofOpening s) (v)
    (roofTimedOut s) (MotionRequest s) (MotionStart s)
    (fullyOpenedLimitSwitch s) (fullyClosedLimitSwitch s)
    (roofLockedSwitch s) (roofAuxiliarySwitch s) (simRoofOpen s)
    (simRoofClosed s) (RoofStatusL s) (RoofStatusLP s) (actionState s)
    (actionStatusState s) (ActionStatusL s) (ActionStatusLP s).

Definition set_roofTimedOut (v : RoofTimedOut) (s : RollOffIno) : RollOffIno :=
  mkRollOffIno (base s) (line s) (communicationErrors s)
    (contactEstablished s) (actionCount s) (roofOpening s) (roofClosing s)
    (v) (MotionRequest s) (MotionStart s) (fullyOpenedLimitSwitch s)
    (fullyClosedLimitSwitch s) (roofLockedSwitch s) (roofAuxiliarySwitch s)
    (simRoofOpen s) (simRoofClosed s) (RoofStatusL s) (RoofStatusLP s)
    (actionState s) (actionStatusState s) (ActionStatusL s)
    (ActionStatusLP s).

Definition set_MotionRequest (v : Z) (s : RollOffIno) : RollOffIno :=
  mkRollOffIno (base s) (line s) (communicationErrors s)
    (contactEstablished s) (actionCount s) (roofOpening s) (roofClosing s)
    (roofTimedOut s) (v) (MotionStart s) (fullyOpenedLimitSwitch s)
    (fullyClosedLimitSwitch s) (roofLockedSwitch s) (roofAuxiliarySwitch s)
    (simRoofOpen s) (simRoofClosed s) (RoofStatusL s) (RoofStatusLP s)
    (actionState s) (actionStatusState s) (ActionStatusL s)
    (ActionStatusLP s).

Definition set_MotionStart (v : Z) (s : RollOffIno) : RollOffIno :=
  mkRollOffIno (base s) (line s) (communicationErrors s)
    (contactEstablished s) (actionCount s) (roofOpening s) (roofClosing s)
    (roofTimedOut s) (MotionRequest s) (v) (fullyOpenedLimitSwitch s)
    (fullyClosedLimitSwitch s) (roofLockedSwitch s) (roofAuxiliarySwitch s)
    (simRoofOpen s) (simRoofClosed s) (RoofStatusL s) (RoofStatusLP s)
    (actionState s) (actionStatusState s) (ActionStatusL s)
    (ActionStatusLP s).

Definition set_fullyOpenedLimitSwitch (v : ISState) (s : RollOffIno) : RollOffIno :=
  mkRollOffIno (base s) (line s) (communicationErrors s)
    (contactEstablished s) (actionCount s) (roofOpening s) (roofClosing s)
    (roofTimedOut s) (MotionRequest s) (MotionStart s) (v)
    (fullyClosedLimitSwitch s) (roofLockedSwitch s) (roofAuxiliarySwitch s)
    (simRoofOpen s) (simRoofClosed s) (RoofStatusL s) (RoofStatusLP s)
    (actionState s) (actionStatusState s) (ActionStatusL s)
    (ActionStatusLP s).

Definition set_fullyClosedLimitSwitch (v : ISState) (s : RollOffIno) : RollOffIno :=
  mkRollOffIno (base s) (line s) (communicationErrors s)
    (contactEstablished s) (actionCount s) (roofOpening s) (roofClosing s)
    (roofTimedOut s) (MotionRequest s) (MotionStart s)
    (fullyOpenedLimitSwitch s) (v) (roofLockedSwitch s)
    (roofAuxiliarySwitch s) (simRoofOpen s) (simRoofClosed s)
    (RoofStatusL s) (RoofStatusLP s) (actionState s) (actionStatusState s)
    (ActionStatusL s) (ActionStatusLP s).

Definition set_roofLockedSwitch (v : ISState) (s : RollOffIno) : RollOffIno :=
  mkRollOffIno (base s) (line s) (communicationErrors s)
    (contactEstablished s) (actionCount s) (roofOpening s) (roofClosing s)
    (roofTimedOut s) (MotionRequest s) (MotionStart s)
    (fullyOpenedLimitSwitch s) (fullyClosedLimitSwitch s) (v)
    (roofAuxiliarySwitch s) (simRoofOpen s) (simRoofClosed s)
    (RoofStatusL s) (RoofStatusLP s) (actionState s) (actionStatusState s)
    (ActionStatusL s) (ActionStatusLP s).

Definition set_roofAuxiliarySwitch (v : ISState) (s : RollOffIno) : RollOffIno :=
  mkRollOffIno (base s) (line s) (communicationErrors s)
    (contactEstablished s) (actionCount s) (roofOpening s) (roofClosing s)
    (roofTimedOut s) (MotionRequest s) (MotionStart s)
    (fullyOpenedLimitSwitch s) (fullyClosedLimitSwitch s)
    (roofLockedSwitch s) (v) (simRoofOpen s) (simRoofClosed s)
    (RoofStatusL s) (RoofStatusLP s) (actionState s) (actionStatusState s)
    (ActionStatusL s) (ActionStatusLP s).

Definition set_simRoofOpen (v : bool) (s : RollOffIno) : RollOffIno :=
  mkRollOffIno (base s) (line s) (communicationErrors s)
    (contactEstablished s) (actionCount s) (roofOpening s) (roofClosing s)
    (roofTimedOut s) (MotionRequest s) (MotionStart s)
    (fullyOpenedLimitSwitch s) (fullyClosedLimitSwitch s)
    (roofLockedSwitch s) (roofAuxiliarySwitch s) (v) (simRoofClosed s)
    (RoofStatusL s) (RoofStatusLP s) (actionState s) (actionStatusState s)
    (ActionStatusL s) (ActionStatusLP s).

Definition set_simRoofClosed (v : bool) (s : RollOffIno) : RollOffIno :=
  mkRollOffIno (base s) (line s) (communicationErrors s)
    (contactEstablished s) (actionCount s) (roofOpening s) (roofClosing s)
    (roofTimedOut s) (MotionRequest s) (MotionStart s)
    (fullyOpenedLimitSwitch s) (fullyClosedLimitSwitch s)
    (roofLockedSwitch s) (roofAuxiliarySwitch s) (simRoofOpen s) (v)
    (RoofStatusL s) (RoofStatusLP s) (actionState s) (actionStatusState s)
    (ActionStatusL s) (ActionStatusLP s).

Definition set_RoofStatusL (v : RoofLights) (s : RollOffIno) : RollOffIno :=
  mkRollOffIno (base s) (line s) (communicationErrors s)
    (contactEstablished s) (actionCount s) (roofOpening s) (roofClosing s)
    (roofTimedOut s) (MotionRequest s) (MotionStart s)
    (fullyOpenedLimitSwitch s) (fullyClosedLimitSwitch s)
    (roofLockedSwitch s) (roofAuxiliarySwitch s) (simRoofOpen s)
    (simRoofClosed s) (v) (RoofStatusLP s) (actionState s)
    (actionStatusState s) (ActionStatusL s) (ActionStatusLP s).

Definition set_RoofStatusLP (v : IPState) (s : RollOffIno) : RollOffIno :=
  mkRollOffIno (base s) (line s) (communicationErrors s)
    (contactEstablished s) (actionCount s) (roofOpening s) (roofClosing s)
    (roofTimedOut s) (MotionRequest s) (MotionStart s)
    (fullyOpenedLimitSwitch s) (fullyClosedLimitSwitch s)
    (roofLockedSwitch s) (roofAuxiliarySwitch s) (simRoofOpen s)
    (simRoofClosed s) (RoofStatusL s) (v) (actionState s)
    (actionStatusState s) (ActionStatusL s) (ActionStatusLP s).

Definition set_actionState (v : list bool) (s : RollOffIno) : RollOffIno :=
  mkRollOffIno (base s) (line s) (communicationErrors s)
    (contactEstablished s) (actionCount s) (roofOpening s) (roofClosing s)
    (roofTimedOut s) (MotionRequest s) (MotionStart s)
    (fullyOpenedLimitSwitch s) (fullyClosedLimitSwitch s)
    (roofLockedSwitch s) (roofAuxiliarySwitch s) (simRoofOpen s)
    (simRoofClosed s) (RoofStatusL s) (RoofStatusLP s) (v)
    (actionStatusState s) (ActionStatusL s) (ActionStatusLP s).

Definition set_actionStatusState (v : list ISState) (s : RollOffIno) : RollOffIno :=
  mkRollOffIno (base s) (line s) (communicationErrors s)
    (contactEstablished s) (actionCount s) (roofOpening s) (roofClosing s)
    (roofTimedOut s) (MotionRequest s) (MotionStart s)
    (fullyOpenedLimitSwitch s) (fullyClosedLimitSwitch s)
    (roofLockedSwitch s) (roofAuxiliarySwitch s) (simRoofOpen s)
    (simRoofClosed s) (RoofStatusL s) (RoofStatusLP s) (actionState s) (v)
    (ActionStatusL s) (ActionStatusLP s).

Definition set_ActionStatusL (v : list IPState) (s : RollOffIno) : RollOffIno :=
  mkRollOffIno (base s) (line s) (communicationErrors s)
    (contactEstablished s) (actionCount s) (roofOpening s) (roofClosing s)
    (roofTimedOut s) (MotionRequest s) (MotionStart s)
    (fullyOpenedLimitSwitch s) (fullyClosedLimitSwitch s)
    (roofLockedSwitch s) (roofAuxiliarySwitch s) (simRoofOpen s)
    (simRoofClosed s) (RoofStatusL s) (RoofStatusLP s) (actionState s)
    (actionStatusState s) (v) (ActionStatusLP s).

Definition set_ActionStatusLP (v : IPState) (s : RollOffIno) : RollOffIno :=
  mkRollOffIno (base s) (line s) (communicationErrors s)
    (contactEstablished s) (actionCount s) (roofOpening s) (roofClosing s)
    (roofTimedOut s) (MotionRequest s) (MotionStart s)
    (fullyOpenedLimitSwitch s) (fullyClosedLimitSwitch s)
    (roofLockedSwitch s) (roofAuxiliarySwitch s) (simRoofOpen s)
    (simRoofClosed s) (RoofStatusL s) (RoofStatusLP s) (actionState s)
    (actionStatusState s) (ActionStatusL s) (v).

(** ** Member functions *)

(** A member function returning [A] is run on the object. *)
Definition M (A : Type) : Type := Run RollOffIno A.

(** A call into the base class. *)
Definition on_base (f : Dome -> Dome) : M unit :=
  modify (fun s => set_base (f (base s)) s).

(** [++communicationErrors] in a log line of a switch getter. *)
Definition count_error : M unit :=
  modify (fun s =>
            set_communicationErrors (incr_errors (communicationErrors s)) s).

(** [readIno] and [writeIno] as member functions; [readIno_m] returns the
    string left in the buffer, which its caller cleared beforehand. *)
Definition readIno_m : M (bool * text) :=
  fun s =>
    match readIno (zeroed (Z.to_nat MAXINOBUF)) (line s)
            (communicationErrors s) with
    | None => None
    | Some (status, buf, line', errs) =>
        Some ((status, cstr buf),
              set_communicationErrors errs (set_line line' s))
    end.

Definition writeIno_m (msg : text) : M bool :=
  fun s => let (status, line') := writeIno msg (line s) in
           Some (status, set_line line' s).

(** ** Reading a switch: [readRoofSwitch] and the getters *)

(** Every function with a [bool *] out-parameter takes the value the caller
    put there and returns the value left there next to its own result.  The
    switch identifiers are string literals, so the null test on
    [roofSwitchId] never fires. *)
Definition readRoofSwitch (roofSwitchId : text) (result : bool)
  : M (bool * bool) :=
  contact <- get contactEstablished ;;
  if negb contact then ret (false, result)
  else
    writeBuffer <- of_option
      (strcpy MAXINOLINE (Some (str "(GET:" ++ roofSwitchId ++ str ":0)"))) ;;
    written <- writeIno_m writeBuffer ;;
    if negb written then ret (false, result)
    else
      r <- readIno_m ;;
      let (ok, readBuffer) := r in
      if negb ok then ret (false, result)
      else of_option (evaluateResponse readBuffer).

Definition getFullOpenedLimitSwitch (switchState : bool) : M (bool * bool) :=
  sim <- get (fun s => isSimulation (base s)) ;;
  if sim then
    open <- get simRoofOpen ;;
    modify (set_fullyOpenedLimitSwitch (ISS_of_bool open)) ;;;
    ret (true, open)
  else
    r <- readRoofSwitch ROOF_OPENED_SWITCH switchState ;;
    let (ok, state) := r in
    if ok then
      modify (set_fullyOpenedLimitSwitch (ISS_of_bool state)) ;;;
      ret (true, state)
    else count_error ;;; ret (false, state).

Definition getFullClosedLimitSwitch (switchState : bool) : M (bool * bool) :=
  sim <- get (fun s => isSimulation (base s)) ;;
  if sim then
    closed <- get simRoofClosed ;;
    modify (set_fullyClosedLimitSwitch (ISS_of_bool closed)) ;;;
    ret (true, closed)
  else
    r <- readRoofSwitch ROOF_CLOSED_SWITCH switchState ;;
    let (ok, state) := r in
    if ok then
      modify (set_fullyClosedLimitSwitch (ISS_of_bool state)) ;;;
      ret (true, state)
    else count_error ;;; ret (false, state).

Definition getRoofLockedSwitch (switchState : bool) : M (bool * bool) :=
  sim <- get (fun s => isSimulation (base s)) ;;
  if sim then
    modify (set_roofLockedSwitch ISS_OFF) ;;;
    ret (true, false)
  else
    r <- readRoofSwitch ROOF_LOCKED_SWITCH switchState ;;
    let (ok, state) := r in
    if ok then
      modify (set_roofLockedSwitch (ISS_of_bool state)) ;;;
      ret (true, state)
    else count_error ;;; ret (false, state).

Definition getRoofAuxSwitch (switchState : bool) : M (bool * bool) :=
  sim <- get (fun s => isSimulation (base s)) ;;
  if sim then
    modify (set_roofAuxiliarySwitch ISS_OFF) ;;;
    ret (true, false)
  else
    r <- readRoofSwitch ROOF_AUX_SWITCH switchState ;;
    let (ok, state) := r in
    if ok then
      modify (set_roofAuxiliarySwitch (ISS_of_bool state)) ;;;
      ret (true, state)
    else count_error ;;; ret (false, state).

(** The loops of [actionSwitchUsed] and [actionCmdUsed] over
    [0 .. actionCount - 1], from index [i] with [n] rounds left. *)
Fixpoint action_listed (table : nat -> text) (action : text) (i n : nat)
  : bool :=
  match n with
  | O => false
  | S n' => if strcmp0 action (table i) then true
            else action_listed table action (S i) n'
  end.

Definition actionSwitchUsed (action : text) : M bool :=
  count <- get actionCount ;;
  if count >? 0
  then ret (action_listed action_state_used action 0 (Z.to_nat count))
  else ret false.

Definition actionCmdUsed (action : text) : M bool :=
  count <- get actionCount ;;
  if count >? 0
  then ret (action_listed act_cmd_used action 0 (Z.to_nat count))
  else ret false.

Definition getActionSwitch (action : text) (switchState : bool)
  : M (bool * bool) :=
  sim <- get (fun s => isSimulation (base s)) ;;
  if sim then ret (true, false)
  else
    used <- actionSwitchUsed action ;;
    if negb used then ret (false, switchState)
    else
      r <- readRoofSwitch action switchState ;;
      let (ok, state) := r in
      if ok then ret (true, state)
      else count_error ;;; ret (false, state).

(** ** [updateRoofStatus] *)

(** The part of [updateRoofStatus] behind the four switch reads: the motion
    flags and the status lights. *)
Definition roof_lights (auxiliaryState lockedState openedState closedState
                          : bool) (s : RollOffIno) : RollOffIno :=
  let aux := if auxiliaryState then IPS_OK else IPS_IDLE in
  let show opened closed moving locked summary s' :=
    set_RoofStatusLP summary
      (set_RoofStatusL (mkRoofLights opened closed moving locked aux) s') in
  if lockedState then
    if closedState then show IPS_IDLE IPS_OK IPS_IDLE IPS_ALERT IPS_OK s
    else if openedState then show IPS_OK IPS_IDLE IPS_IDLE IPS_ALERT IPS_OK s
    else if roofOpening s || roofClosing s
    then show IPS_IDLE IPS_IDLE IPS_ALERT IPS_ALERT IPS_ALERT s
    else show IPS_IDLE IPS_IDLE IPS_IDLE IPS_ALERT IPS_IDLE s
  else if openedState || closedState then
    if openedState && negb closedState
    then show IPS_OK IPS_IDLE IPS_IDLE IPS_IDLE IPS_OK
           (set_roofOpening false s)
    else if closedState && negb openedState
    then show IPS_IDLE IPS_OK IPS_IDLE IPS_IDLE IPS_OK
           (set_roofClosing false s)
    else show IPS_IDLE IPS_IDLE IPS_IDLE IPS_IDLE IPS_IDLE s
  else if roofOpening s || roofClosing s then
    if roofOpening s
    then show IPS_BUSY IPS_IDLE IPS_BUSY IPS_IDLE IPS_BUSY s
    else show IPS_IDLE IPS_BUSY IPS_BUSY IPS_IDLE IPS_BUSY s
  else
    match roofTimedOut s with
    | EXPIRED_OPEN => show IPS_ALERT IPS_IDLE IPS_IDLE IPS_IDLE IPS_ALERT s
    | EXPIRED_CLOSE => show IPS_IDLE IPS_ALERT IPS_IDLE IPS_IDLE IPS_ALERT s
    | EXPIRED_CLEAR => show IPS_IDLE IPS_IDLE IPS_IDLE IPS_IDLE IPS_ALERT s
    end.

Definition updateRoofStatus : M unit :=
  opened <- getFullOpenedLimitSwitch false ;;
  closed <- getFullClosedLimitSwitch false ;;
  locked <- getRoofLockedSwitch false ;;
  auxiliary <- getRoofAuxSwitch false ;;
  modify (roof_lights (snd auxiliary) (snd locked) (snd opened) (snd closed)).

(** ** [updateActionStatus] *)

Fixpoint set_nth {A : Type} (i : nat) (v : A) (l : list A) : list A :=
  match l, i with
  | [], _ => []
  | _ :: tl, O => v :: tl
  | x :: tl, S j => x :: set_nth j v tl
  end.

(** The first loop, from index [i] with [n] rounds left. *)
Fixpoint action_reads (i n : nat) : M unit :=
  match n with
  | O => ret tt
  | S n' =>
      modify (fun s =>
                set_ActionStatusL (set_nth i IPS_IDLE (ActionStatusL s)) s) ;;;
      r <- getActionSwitch (action_state_used i) false ;;
      modify (fun s => set_actionState (set_nth i (snd r) (actionState s)) s)
      ;;;
      (if fst r
       then modify (fun s =>
                      set_actionStatusState
                        (set_nth i (ISS_of_bool (snd r))
                           (actionStatusState s)) s)
       else ret tt) ;;;
      action_reads (S i) n'
  end.

(** The second loop, from index [i] with [n] rounds left. *)
Fixpoint action_lights (i n : nat) (s : RollOffIno) : RollOffIno :=
  match n with
  | O => s
  | S n' =>
      action_lights (S i) n'
        (if nth i (actionState s) false
         then set_ActionStatusLP IPS_OK
                (set_ActionStatusL (set_nth i IPS_OK (ActionStatusL s)) s)
         else s)
  end.

Definition updateActionStatus : M unit :=
  action_reads 0 (Z.to_nat MAX_ACTIONS) ;;;
  modify (set_ActionStatusLP IPS_IDLE) ;;;
  modify (action_lights 0 (Z.to_nat MAX_ACTIONS)).

(** ** [checkConditions] *)

Definition checkConditions : M bool :=
  updateRoofStatus ;;;
  updateActionStatus ;;;
  curState <- get (fun s => getDomeState (base s)) ;;
  parked <- get (fun s => isParked (base s)) ;;
  opened <- get fullyOpenedLimitSwitch ;;
  closed <- get fullyClosedLimitSwitch ;;
  (if parked then
     if ISState_eqb opened ISS_ON then on_base (SetParked false)
     else if ISState_eqb closed ISS_OFF then ret tt
     else if negb (DomeState_eqb curState DOME_PARKED)
     then on_base (setDomeState DOME_PARKED)
     else ret tt
   else
     if ISState_eqb closed ISS_ON then on_base (SetParked true)
     else if ISState_eqb opened ISS_OFF then ret tt
     else if negb (DomeState_eqb curState DOME_UNPARKED)
     then on_base (setDomeState DOME_UNPARKED)
     else ret tt) ;;;
  ret true.

(** ** [pushRoofButton] and the commands built on it *)

Definition pushRoofButton (button : text) (switchOn ignoreLock : bool)
  : M bool :=
  contact <- get contactEstablished ;;
  if negb contact then ret false
  else
    locked <- getRoofLockedSwitch false ;;
    let (status, switchState) := locked in
    if (status && negb switchState) || ignoreLock then
      writeBuffer <- of_option
        (strcpy MAXINOBUF
           (Some (str "(SET:" ++ button
                  ++ (if switchOn then str ":ON)" else str ":OFF)")))) ;;
      written <- writeIno_m writeBuffer ;;
      if negb written then ret false
      else
        r <- readIno_m ;;
        of_option (evaluateResponse (snd r)) ;;;
        ret (fst r)
    else ret false.

Definition roofOpen : M bool :=
  sim <- get (fun s => isSimulation (base s)) ;;
  if sim then ret true else pushRoofButton ROOF_OPEN_CMD true false.

Definition roofClose : M bool :=
  sim <- get (fun s => isSimulation (base s)) ;;
  if sim then ret true else pushRoofButton ROOF_CLOSE_CMD true false.

Definition roofAbort : M bool :=
  sim <- get (fun s => isSimulation (base s)) ;;
  if sim then ret true else pushRoofButton ROOF_ABORT_CMD true false.

Definition setRoofLock (switchOn : bool) : M bool :=
  sim <- get (fun s => isSimulation (base s)) ;;
  if sim then ret false else pushRoofButton ROOF_LOCK_CMD switchOn true.

Definition setRoofAux (switchOn : bool) : M bool :=
  sim <- get (fun s => isSimulation (base s)) ;;
  if sim then ret false else pushRoofButton ROOF_AUX_CMD switchOn true.

Definition setAction (action : text) (switchOn : bool) : M bool :=
  sim <- get (fun s => isSimulation (base s)) ;;
  if sim then ret false
  else
    used <- actionCmdUsed action ;;
    if used then pushRoofButton action switchOn true else ret false.

(** ** [Move] *)

(** [CalcTimeLeft] at the clock reading [now], in milliseconds: the source
    computes the elapsed milliseconds, divides by 1000 and subtracts from
    [MotionRequest] in floating point; the model keeps the exact value. *)
Definition CalcTimeLeft (now : Z) (s : RollOffIno) : Z :=
  1000 * MotionRequest s - (now - MotionStart s).

(** The direction branch of [Move]: [Some r] when it returns [r] at once,
    [None] when the roof was set in motion. *)
Definition Move_direction (dir : DomeDirection) : M (option IPState) :=
  match dir with
  | DOME_CW =>
      opened <- get fullyOpenedLimitSwitch ;;
      if ISState_eqb opened ISS_ON then
        on_base (SetParked false) ;;; ret (Some IPS_ALERT)
      else
        ok <- roofOpen ;;
        if ok then
          modify (fun s =>
                    set_roofClosing false (set_roofOpening true s)) ;;;
          ret None
        else ret (Some IPS_ALERT)
  | DOME_CCW =>
      closed <- get fullyClosedLimitSwitch ;;
      if ISState_eqb closed ISS_ON then
        on_base (SetParked true) ;;; ret (Some IPS_ALERT)
      else
        mount_locking <- get (fun s => isLocked (base s)) ;;
        if mount_locking then ret (Some IPS_ALERT)
        else
          ok <- roofClose ;;
          if ok then
            modify (fun s =>
                      set_roofOpening false (set_roofClosing true s)) ;;;
            ret None
          else ret (Some IPS_ALERT)
  end.

(** [now] is the reading of [gettimeofday] that becomes [MotionStart]. *)
Definition Move (dir : DomeDirection) (operation : DomeMotionCommand)
  (now : Z) : M IPState :=
  updateRoofStatus ;;;
  match operation with
  | MOTION_STOP => ret IPS_ALERT
  | MOTION_START =>
      locked <- get roofLockedSwitch ;;
      if ISState_eqb locked ISS_ON then ret IPS_ALERT
      else
        opening <- get roofOpening ;;
        if opening then ret IPS_OK
        else
          closing <- get roofClosing ;;
          if closing then ret IPS_OK
          else
            early <- Move_direction dir ;;
            match early with
            | Some r => ret r
            | None =>
                modify (set_roofTimedOut EXPIRED_CLEAR) ;;;
                timeout <- get (fun s => RoofTimeoutN_value (base s)) ;;
                modify (set_MotionRequest timeout) ;;;
                modify (set_MotionStart now) ;;;
                on_base (SetTimer 1000) ;;;
                ret IPS_BUSY
            end
  end.

(** ** [Abort] *)

Definition Abort : M bool :=
  updateRoofStatus ;;;
  locked <- get roofLockedSwitch ;;
  opened <- get fullyOpenedLimitSwitch ;;
  closed <- get fullyClosedLimitSwitch ;;
  let lockState := ISState_eqb locked ISS_ON in
  let openState := ISState_eqb opened ISS_ON in
  let closeState := ISState_eqb closed ISS_ON in
  if lockState then ret true
  else if closeState then ret true
  else if openState then ret true
  else
    motion <- get (fun s => DomeMotionSP_getState (base s)) ;;
    (if negb (IPState_eqb motion IPS_BUSY) then ret tt
     else
       modify (set_roofClosing false) ;;;
       modify (set_roofOpening false) ;;;
       modify (set_MotionRequest (-1)) ;;;
       roofAbort ;;;
       ret tt) ;;;
    opened' <- get fullyOpenedLimitSwitch ;;
    closed' <- get fullyClosedLimitSwitch ;;
    (if ISState_eqb opened' ISS_OFF && ISState_eqb closed' ISS_OFF
     then on_base ParkSP_idle
     else ret tt) ;;;
    ret true.

(** ** [TimerHit] *)

(** [initProperties] as the reconnect of [TimerHit] sees it: the roof and
    action status lights are filled anew, the rest is the business of the
    property framework. *)
Definition initProperties : M bool :=
  modify (set_RoofStatusL lights_idle) ;;;
  modify (set_RoofStatusLP IPS_BUSY) ;;;
  modify (fun s =>
            set_ActionStatusL
              (repeat IPS_IDLE (Z.to_nat MAX_ACTIONS)) s) ;;;
  modify (set_ActionStatusLP IPS_BUSY) ;;;
  on_base initProperties_base ;;;
  ret true.

(** The branch of [TimerHit] taken while [DomeMotionSP] is busy; it returns
    the [delay] for the next timer. *)
Definition TimerHit_moving (timeleft : Z) : M Z :=
  request <- get MotionRequest ;;
  if request <? 0 then
    on_base (setDomeState DOME_IDLE) ;;; ret (1000 * INACTIVE_STATUS)
  else
    cw <- get (fun s => DomeMotionSP_at DOME_CW (base s)) ;;
    ccw <- get (fun s => DomeMotionSP_at DOME_CCW (base s)) ;;
    opened <- get fullyOpenedLimitSwitch ;;
    closed <- get fullyClosedLimitSwitch ;;
    if ISState_eqb cw ISS_ON then
      if ISState_eqb opened ISS_ON then
        on_base (SetParked false) ;;; ret (1000 * INACTIVE_STATUS)
      else if timeleft <=? 0 then
        on_base (setDomeState DOME_IDLE) ;;;
        modify (set_roofOpening false) ;;;
        on_base (SetParked false) ;;;
        modify (set_roofTimedOut EXPIRED_OPEN) ;;;
        ret (1000 * INACTIVE_STATUS)
      else ret 1000
    else if ISState_eqb ccw ISS_ON then
      if ISState_eqb closed ISS_ON then
        on_base (SetParked true) ;;; ret (1000 * INACTIVE_STATUS)
      else if timeleft <=? 0 then
        on_base (setDomeState DOME_IDLE) ;;;
        modify (set_roofClosing false) ;;;
        on_base (SetParked false) ;;;
        modify (set_roofTimedOut EXPIRED_CLOSE) ;;;
        ret (1000 * INACTIVE_STATUS)
      else ret 1000
    else ret (1000 * INACTIVE_STATUS).

(** The test that ends [TimerHit]: too many communication errors. *)
Definition too_many_errors (communicationErrors : Z) : bool :=
  communicationErrors >? MAX_CNTRL_COM_ERR.

Definition TimerHit (now : Z) : M unit :=
  timeleft <- get (CalcTimeLeft now) ;;
  connected <- get (fun s => isConnected (base s)) ;;
  if negb connected then ret tt
  else
    sim <- get (fun s => isSimulation (base s)) ;;
    cw <- get (fun s => DomeMotionSP_at DOME_CW (base s)) ;;
    ccw <- get (fun s => DomeMotionSP_at DOME_CCW (base s)) ;;
    (if sim && (timeleft - 5000 <=? 0) then
       if ISState_eqb cw ISS_ON then
         modify (set_simRoofOpen true) ;;; modify (set_simRoofClosed false)
       else if ISState_eqb ccw ISS_ON then
         modify (set_simRoofClosed true) ;;; modify (set_simRoofOpen false)
       else ret tt
     else ret tt) ;;;
    updateRoofStatus ;;;
    updateActionStatus ;;;
    motion <- get (fun s => DomeMotionSP_getState (base s)) ;;
    delay <- (if IPState_eqb motion IPS_BUSY then TimerHit_moving timeleft
              else checkConditions ;;; ret (1000 * INACTIVE_STATUS)) ;;
    errors <- get communicationErrors ;;
    (if too_many_errors errors then
       on_base Disconnect ;;;
       initProperties ;;;
       modify (set_communicationErrors 0)
     else ret tt) ;;;
    on_base (SetTimer delay).

(** ** [initialContact] and [Handshake] *)

Definition has_char (c : ascii) (s : text) : bool := existsb (Ascii.eqb c) s.

(** What [initialContact] does with an accepted response: the three fields
    are cut out of [workBuffer] again, and a value with a bracket is cut into
    version, filler and action count.  [Some None] leaves [actionCount] as it
    is, [Some (Some n)] assigns [n]. *)
Definition contact_actions (workBuffer : text) : option (option Z) :=
  match strtok workBuffer (str "(:") with
  | None => None
  | Some (tok1, save1) =>
  match strcpy (MAXINOVAL + 1) (Some tok1) with
  | None => None
  | Some _ =>
  match strtok save1 (str ":") with
  | None => None
  | Some (tok2, save2) =>
  match strcpy (MAXINOVAL + 1) (Some tok2) with
  | None => None
  | Some _ =>
  match strtok save2 (str ")") with
  | None => None
  | Some (tok3, _) =>
  match strcpy (MAXINOTARGET + 1) (Some tok3) with
  | None => None
  | Some target =>
      if has_char "["%char target then
        match strtok target (str "[") with
        | None => None
        | Some (tok4, save4) =>
        match strcpy (MAXINOTARGET + 1) (Some tok4) with
        | None => None
        | Some version =>
        match strtok save4 (str "T") with
        | None => None
        | Some (tok5, save5) =>
        match strcpy (MAXINOVAL + 1) (Some tok5) with
        | None => None
        | Some _ =>
        match strtok save5 (str "]") with
        | None => None
        | Some (tok6, _) =>
        match strcpy (MAXINOTARGET + 1) (Some tok6) with
        | None => None
        | Some action =>
            let value := int_of_long (strtol action) in
            if (value >? 0) && (value <=? MAX_ACTIONS)
            then Some (Some value)
            else Some (Some 0)
        end end end end end end
      else Some None
  end end end end end end.

Definition initialContact : M bool :=
  modify (set_contactEstablished false) ;;;
  modify (set_actionCount 0) ;;;
  written <- writeIno_m (str "(CON:0:0)") ;;
  if written then
    r <- readIno_m ;;
    if fst r then
      workBuffer <- of_option (strcpy MAXINOBUF (Some (snd r))) ;;
      answer <- of_option (evaluateResponse workBuffer) ;;
      modify (set_contactEstablished (fst answer)) ;;;
      (if fst answer then
         actions <- of_option (contact_actions workBuffer) ;;
         match actions with
         | Some n => modify (set_actionCount n)
         | None => ret tt
         end
       else ret tt) ;;;
      ret (fst answer)
    else ret false
  else ret false.

Definition Handshake : M bool :=
  fd <- get (fun s => PortFD (base s)) ;;
  if fd <=? 0 then ret false
  else
    status <- initialContact ;;
    if status then ret true else initialContact.

End Driver.

(** ** A base class and a header to run the driver on

    A small stand-in for [INDI::Dome], holding just what the observers read,
    and identifiers for the controller, used where a statement needs a
    concrete object. *)

Record DemoDome : Type := mkDemoDome {
  demo_connected : bool;
  demo_simulation : bool;
  demo_parked : bool;
  demo_mount_locking : bool;
  demo_state : DomeState;
  demo_motion : IPState;
  demo_direction : DomeDirection;
  demo_timeout : Z
}.

Definition demo_dome : DomeBase := {|
  Dome := DemoDome;
  isConnected := demo_connected;
  isSimulation := demo_simulation;
  isParked := demo_parked;
  isLocked := demo_mount_locking;
  getDomeState := demo_state;
  PortFD := fun _ => 3;
  DomeMotionSP_getState := demo_motion;
  DomeMotionSP_at := fun dir d =>
    match dir, demo_direction d with
    | DOME_CW, DOME_CW | DOME_CCW, DOME_CCW => ISS_ON
    | _, _ => ISS_OFF
    end;
  RoofTimeoutN_value := demo_timeout;
  SetParked := fun p d =>
    mkDemoDome (demo_connected d) (demo_simulation d) p
      (demo_mount_locking d) (if p then DOME_PARKED else DOME_UNPARKED)
      (demo_motion d) (demo_direction d) (demo_timeout d);
  setDomeState := fun st d =>
    mkDemoDome (demo_connected d) (demo_simulation d) (demo_parked d)
      (demo_mount_locking d) st (demo_motion d) (demo_direction d)
      (demo_timeout d);
  ParkSP_idle := fun d => d;
  SetTimer := fun _ d => d;
  Disconnect := fun d =>
    mkDemoDome false (demo_simulation d) (demo_parked d)
      (demo_mount_locking d) (demo_state d) (demo_motion d)
      (demo_direction d) (demo_timeout d);
  initProperties_base := fun d => d
|}.

Definition demo_header : Header := {|
  ROOF_OPENED_SWITCH := str "OPENED";
  ROOF_CLOSED_SWITCH := str "CLOSED";
  ROOF_LOCKED_SWITCH := str "LOCKED";
  ROOF_AUX_SWITCH := str "AUXSTATE";
  ROOF_OPEN_CMD := str "OPEN";
  ROOF_CLOSE_CMD := str "CLOSE";
  ROOF_ABORT_CMD := str "ABORT";
  ROOF_LOCK_CMD := str "LOCK";
  ROOF_AUX_CMD := str "AUXSET";
  action_state_used := fun i => str "ACT" ++ [ascii_of_nat (49 + i)] ++ str "STATE";
  act_cmd_used := fun i => str "ACT" ++ [ascii_of_nat (49 + i)] ++ str "SET"
|}.

(** Modelled from the spec: the member initialisers are in [rolloffino.h],
    which is not among the sources.  The object as its constructor leaves
    it, on a given base and line: the motion state machine starts [Idle]
    (neither flag set, no timed-out tag), no contact is established and the
    error count is zero. *)
Definition initial {dome_base : DomeBase} (b : Dome) (l : Serial)
  : RollOffIno :=
  mkRollOffIno b l 0 false 0 false false EXPIRED_CLEAR 0 0
    ISS_OFF ISS_OFF ISS_OFF ISS_OFF false true
    lights_idle IPS_IDLE
    (repeat false (Z.to_nat MAX_ACTIONS))
    (repeat ISS_OFF (Z.to_nat MAX_ACTIONS))
    (repeat IPS_IDLE (Z.to_nat MAX_ACTIONS)) IPS_IDLE.

(** A connected dome that is not simulated, idle and unparked. *)
Definition demo_idle : DemoDome :=
  mkDemoDome true false false false DOME_IDLE IPS_IDLE DOME_CW 40.

(** The driver after a successful handshake, with the bytes [answers] about
    to arrive. *)
Definition demo_connected_roof (answers : string)
  : @RollOffIno demo_dome :=
  @set_contactEstablished demo_dome true
    (@initial demo_dome demo_idle (mkSerial (bytes (str answers)) [] [])).

(** ** Vocabulary of the statements *)

(** A byte that is none of the three delimiters of a frame and not NUL. *)
Definition plain (c : ascii) : bool :=
  negb (Ascii.eqb c "("%char) && negb (Ascii.eqb c ":"%char)
  && negb (Ascii.eqb c ")"%char) && negb (Ascii.eqb c NUL).

(** The wire form of a frame with the given fields. *)
Definition frame (verb target value : text) : text :=
  "("%char :: verb ++ ":"%char :: target ++ ":"%char :: value ++ [")"%char].

(** The verb of a frame handed to the line. *)
Definition sent_verb (f : text) : text := firstn 3 (skipn 1 f).

(** The decimal numeral of [n]. *)
Definition decimal (n : nat) : text :=
  str (NilEmpty.string_of_uint (Nat.to_uint n)).

(** A well-formed frame of 126 bytes, one of 128 bytes, and a command of 63
    bytes. *)
Definition frame_126 : text :=
  frame (str "ACK") (str "AUXSTATE") (repeat "x"%char 111).

Definition frame_128 : text :=
  frame (str "ACK") (str "AUXSTATE") (repeat "x"%char 113).

Definition command_63 : text :=
  str "(SET:" ++ repeat "x"%char 54 ++ str ":ON)".

Definition is_digit (c : ascii) : bool :=
  match digit_val c with
  | Some _ => true
  | None => false
  end.

(** The value field of a handshake answer: a version text, followed or not
    by the bracketed count of actions. *)
Definition handshake_value (version : text) (suffix : option nat) : text :=
  version ++ match suffix with
             | Some n => str "[ACT" ++ decimal n ++ str "]"
             | None => []
             end.

(** ** The life of the driver object *)

Section Life.

Context {dome_base : DomeBase} {header : Header}.

(** Neither motion flag, or one of them. *)
Definition motion_exclusive (s : RollOffIno) : Prop :=
  roofOpening s && roofClosing s = false.

(** One step in the life of the object: the world around it changes (bytes
    arrive, the base class is worked on), or one of its member functions is
    called and returns. *)
Inductive step : RollOffIno -> RollOffIno -> Prop :=
| step_world b l s : step s (set_line l (set_base b s))
| step_Move dir operation now s r s' :
    Move dir operation now s = Some (r, s') -> step s s'
| step_Abort s r s' : Abort s = Some (r, s') -> step s s'
| step_TimerHit now s r s' : TimerHit now s = Some (r, s') -> step s s'
| step_updateRoofStatus s r s' :
    updateRoofStatus s = Some (r, s') -> step s s'
| step_updateActionStatus s r s' :
    updateActionStatus s = Some (r, s') -> step s s'
| step_checkConditions s r s' :
    checkConditions s = Some (r, s') -> step s s'
| step_Handshake s r s' : Handshake s = Some (r, s') -> step s s'
| step_setRoofLock on s r s' : setRoofLock on s = Some (r, s') -> step s s'
| step_setRoofAux on s r s' : setRoofAux on s = Some (r, s') -> step s s'
| step_setAction action on s r s' :
    setAction action on s = Some (r, s') -> step s s'.

Inductive reachable : RollOffIno -> Prop :=
| reachable_initial b l : reachable (initial b l)
| reachable_step s s' : reachable s -> step s s' -> reachable s'.

End Life.

(** ** Failures in a row *)

Section Failures.

Context {dome_base : DomeBase} {header : Header}.



End Failures.

(** A line on which the four status queries are answered: opened off,
    closed on, lock on, auxiliary off. *)
Definition demo_locked_roof : @RollOffIno demo_dome :=
  demo_connected_roof
    "(ACK:OPENED:OFF)(ACK:CLOSED:ON)(ACK:LOCKED:ON)(ACK:AUXSTATE:OFF)".

(** The same object after its status update. *)
Definition demo_locked_status : @RollOffIno demo_dome :=
  Eval vm_compute in
    match @updateRoofStatus demo_dome demo_header demo_locked_roof with
    | Some (_, s) => s
    | None => demo_locked_roof
    end.

(** A line that stays silent, and the object after [n] counted errors. *)
Definition demo_silent : @RollOffIno demo_dome := demo_connected_roof "".

Definition demo_after_failures (n : nat) : @RollOffIno demo_dome :=
  @set_communicationErrors demo_dome (Z.of_nat n) demo_silent.

(** A line that answers the lock query with off and the command that
    follows with a negative acknowledgement. *)
Definition demo_busy_roof : @RollOffIno demo_dome :=
  demo_connected_roof "(ACK:LOCKED:OFF)(NAK:SET_ROOF_OPEN:BUSY)".

(** Three errors counted so far, and the opened switch about to answer. *)
Definition demo_three_errors : @RollOffIno demo_dome :=
  @set_communicationErrors demo_dome 3
    (demo_connected_roof "(ACK:OPENED:ON)").

(** The target of an answer to a switch query: a text without delimiters
    that fits the target buffer and the target budget of the reader, and is
    not the connect target. *)
Definition switch_target (t : text) : Prop :=
  t <> [] /\ forallb plain t = true /\ (length t <= 14)%nat
  /\ t <> str "0".

(** The driver after the handshake with a controller that declares four
    actions. *)
Definition demo_handshaken : @RollOffIno demo_dome :=
  Eval vm_compute in
    match @Handshake demo_dome
            (@initial demo_dome demo_idle
               (mkSerial (bytes (str "(ACK:0:V1.3-0[ACT4])")) [] [])) with
    | Some (_, s) => s
    | None => @initial demo_dome demo_idle (mkSerial [] [] [])
    end.

(** A simulated dome at rest, and the driver after a request to open it. *)
Definition demo_simulated : DemoDome :=
  mkDemoDome true true true false DOME_PARKED IPS_IDLE DOME_CW 40.

Definition demo_opening : @RollOffIno demo_dome :=
  Eval vm_compute in
  match @Move demo_dome demo_header DOME_CW MOTION_START 0
          (@initial demo_dome demo_simulated (mkSerial [] [] [])) with
  | Some (_, s) => s
  | None => @initial demo_dome demo_simulated (mkSerial [] [] [])
  end.

(** The opening roof after its next status update. *)
Definition demo_opening_status : @RollOffIno demo_dome :=
  Eval vm_compute in
    match @updateRoofStatus demo_dome demo_header demo_opening with
    | Some (_, s) => s
    | None => demo_opening
    end.

(** A roof that answers the four status queries with: opened on, closed
    off, lock off, auxiliary off; and the same object after its status
    update. *)
Definition demo_open_roof : @RollOffIno demo_dome :=
  demo_connected_roof
    "(ACK:OPENED:ON)(ACK:CLOSED:OFF)(ACK:LOCKED:OFF)(ACK:AUXSTATE:OFF)".

Definition demo_open_status : @RollOffIno demo_dome :=
  Eval vm_compute in
    match @updateRoofStatus demo_dome demo_header demo_open_roof with
    | Some (_, s) => s
    | None => demo_open_roof
    end.

(** A dome whose motion property is busy, on a line that stays silent, and
    the driver after an abort there. *)
Definition demo_moving : DemoDome :=
  mkDemoDome true false false false DOME_MOVING IPS_BUSY DOME_CW 40.

Definition demo_moving_silent : @RollOffIno demo_dome :=
  @set_contactEstablished demo_dome true
    (@initial demo_dome demo_moving (mkSerial [] [] [])).

Definition demo_aborted : @RollOffIno demo_dome :=
  Eval vm_compute in
    match @Abort demo_dome demo_header demo_moving_silent with
    | Some (_, s) => s
    | None => demo_moving_silent
    end.

(** The driver with eleven errors counted on a silent line, after the next
    timer. *)
Definition demo_reconnected : @RollOffIno demo_dome :=
  Eval vm_compute in
    match @TimerHit demo_dome demo_header 0 (demo_after_failures 11) with
    | Some (_, s) => s
    | None => demo_after_failures 11
    end.

(** ** What a call leaves as it was *)

Section Unchanged.

Context {dome_base : DomeBase} {header : Header}.

(** The handshake state is as it was. *)
Definition contact_kept (s s' : RollOffIno) : Prop :=
  contactEstablished s' = contactEstablished s
  /\ actionCount s' = actionCount s.

(** No motion flag was set: a flag that is set afterwards was set before. *)
Definition flags_only_cleared (s s' : RollOffIno) : Prop :=
  (roofOpening s' = true -> roofOpening s = true)
  /\ (roofClosing s' = true -> roofClosing s = true).

(** Where no contact was established, the line is as it was and there is
    still no contact. *)
Definition offline (s s' : RollOffIno) : Prop :=
  contactEstablished s = false ->
  line s' = line s /\ contactEstablished s' = false.

End Unchanged.

(** ** More objects to run the driver on *)

(** A closed roof that answers the status queries, then the lock query and
    the command to open; and the driver after the request to open it. *)
Definition demo_closed_roof : @RollOffIno demo_dome :=
  demo_connected_roof
    ("(ACK:OPENED:OFF)(ACK:CLOSED:ON)(ACK:LOCKED:OFF)(ACK:AUXSTATE:OFF)"
     ++ "(ACK:LOCKED:OFF)(ACK:OPEN:ON)").

Definition demo_open_sent : @RollOffIno demo_dome :=
  Eval vm_compute in
    match @Move demo_dome demo_header DOME_CW MOTION_START 0
            demo_closed_roof with
    | Some (_, s) => s
    | None => demo_closed_roof
    end.

(** The closed roof after [checkConditions]. *)
Definition demo_closed_checked : @RollOffIno demo_dome :=
  Eval vm_compute in
    match @checkConditions demo_dome demo_header demo_closed_roof with
    | Some (_, s) => s
    | None => demo_closed_roof
    end.

(** A driver without contact on a line where bytes are waiting, and the
    same after a request to open. *)
Definition demo_no_contact : @RollOffIno demo_dome :=
  @initial demo_dome demo_idle
    (mkSerial (bytes (str "(ACK:OPENED:ON)")) [] []).

Definition demo_no_contact_moved : @RollOffIno demo_dome :=
  Eval vm_compute in
    match @Move demo_dome demo_header DOME_CW MOTION_START 0
            demo_no_contact with
    | Some (_, s) => s
    | None => demo_no_contact
    end.

(** A simulated dome on a line where bytes are waiting, and the same after
    a request to open. *)
Definition demo_simulated_roof : @RollOffIno demo_dome :=
  @initial demo_dome demo_simulated
    (mkSerial (bytes (str "(ACK:OPENED:ON)")) [] []).

Definition demo_simulated_moved : @RollOffIno demo_dome :=
  Eval vm_compute in
    match @Move demo_dome demo_header DOME_CW MOTION_START 0
            demo_simulated_roof with
    | Some (_, s) => s
    | None => demo_simulated_roof
    end.

(** The silent line after a query of the opened switch. *)
Definition demo_silent_asked : @RollOffIno demo_dome :=
  Eval vm_compute in
    match @getFullOpenedLimitSwitch demo_dome demo_header false
            demo_silent with
    | Some (_, s) => s
    | None => demo_silent
    end.

(** A roof that is opening on a line that stays silent, after its status
    update and after an abort. *)
Definition demo_moving_open : @RollOffIno demo_dome :=
  @set_roofOpening demo_dome true demo_moving_silent.

Definition demo_moving_status : @RollOffIno demo_dome :=
  Eval vm_compute in
    match @updateRoofStatus demo_dome demo_header demo_moving_open with
    | Some (_, s) => s
    | None => demo_moving_open
    end.

Definition demo_moving_aborted : @RollOffIno demo_dome :=
  Eval vm_compute in
    match @Abort demo_dome demo_header demo_moving_open with
    | Some (_, s) => s
    | None => demo_moving_open
    end.



(** The handshaken driver when the first action answers on, and the same
    after the status update of the actions. *)
Definition demo_action_on : @RollOffIno demo_dome :=
  @set_line demo_dome
    (mkSerial (bytes (str "(ACK:ACT1STATE:ON)")) [] []) demo_handshaken.

Definition demo_action_status : @RollOffIno demo_dome :=
  Eval vm_compute in
    match @updateActionStatus demo_dome demo_header demo_action_on with
    | Some (_, s) => s
    | None => demo_action_on
    end.

(** * Properties *)

(** ** Running member functions *)

Lemma bind_Some {St A B : Type} (m : Run St A) (k : A -> Run St B) s b s2 :
  bind m k s = Some (b, s2) ->
  exists a s1, m s = Some (a, s1) /\ k a s1 = Some (b, s2).
Proof.
  unfold bind. destruct (m s) as [[a s1]|]; [|discriminate].
  intros H. exists a, s1. split; [reflexivity | exact H].
Qed.

Lemma of_option_Some {St A : Type} (o : option A) (s : St) a s' :
  of_option o s = Some (a, s') -> o = Some a /\ s' = s.
Proof.
  destruct o as [x|]; cbn; [|discriminate].
  intros H. injection H as -> ->. split; reflexivity.
Qed.

(** A relation between the object before and after a call that every call
    of [m] establishes. *)
Section Respects.

Context {St : Type} (R : St -> St -> Prop).
Hypothesis R_refl : forall s, R s s.
Hypothesis R_trans : forall a b c, R a b -> R b c -> R a c.

Definition respects {A : Type} (m : Run St A) : Prop :=
  forall s a s', m s = Some (a, s') -> R s s'.

Lemma respects_ret {A : Type} (a : A) : respects (ret a).
Proof. intros s x s' H. injection H as _ <-. apply R_refl. Qed.

Lemma respects_get {A : Type} (f : St -> A) : respects (get f).
Proof. intros s x s' H. injection H as _ <-. apply R_refl. Qed.

Lemma respects_undefined {A : Type} : respects (@undefined St A).
Proof. intros s x s' H. discriminate H. Qed.

Lemma respects_of_option {A : Type} (o : option A) : respects (of_option o).
Proof.
  destruct o; [apply respects_ret | apply respects_undefined].
Qed.

Lemma respects_modify (f : St -> St) :
  (forall s, R s (f s)) -> respects (modify f).
Proof. intros Hf s x s' H. injection H as _ <-. apply Hf. Qed.

Lemma respects_bind {A B : Type} (m : Run St A) (k : A -> Run St B) :
  respects m -> (forall a, respects (k a)) -> respects (bind m k).
Proof.
  intros Hm Hk s b s2 H.
  destruct (bind_Some _ _ _ _ _ H) as (a & s1 & H1 & H2).
  eapply R_trans; [eapply Hm, H1 | eapply Hk, H2].
Qed.

(** A value that is known is passed on as it is. *)
Lemma respects_bind_ret {A B : Type} (a : A) (k : A -> Run St B) :
  respects (k a) -> respects (bind (ret a) k).
Proof. intros H s b s' E. exact (H s b s' E). Qed.

Lemma respects_bind_undefined {A B : Type} (k : A -> Run St B) :
  respects (bind undefined k).
Proof. intros s b s' E. discriminate E. Qed.

End Respects.

(** Splits a goal [respects R m] along the structure of [m], given that [R]
    is reflexive and transitive; [known] settles the calls whose effect is
    known already, what is left are the other calls and the assignments. *)
Ltac respects_split Hrefl Htrans known :=
  repeat first
    [ solve [known]
    | match goal with
      | |- respects _ (ret _) => apply (respects_ret _ Hrefl)
      | |- respects _ (get _) => apply (respects_get _ Hrefl)
      | |- respects _ undefined => apply respects_undefined
      | |- respects _ (of_option _) => apply (respects_of_option _ Hrefl)
      | |- respects _ (bind undefined _) => apply respects_bind_undefined
      | |- respects _ (bind (ret _) _) => apply respects_bind_ret
      | |- respects _ (bind (of_option (Some _)) _) =>
          apply respects_bind_ret
      | |- respects _ (bind _ _) =>
          apply (respects_bind _ Htrans); [ | intros ? ]
      | |- respects _ (match ?x with _ => _ end) => destruct x
      end ].

(** ** The frame reader: what a call leaves behind *)

(** [readIno] adds one to the error count exactly when it fails, and never
    touches the outgoing side of the line. *)
#[local] Arguments store : simpl never.
#[local] Arguments strcpy_over : simpl never.
#[local] Arguments probe : simpl never.

Lemma readIno_loop_effect events :
  forall line st e ok buf line' e',
    readIno_loop events line st e = Some (ok, buf, line', e') ->
    e' = (if ok then e else incr_errors e)
    /\ wr line' = wr line /\ tx line' = tx line.
Proof.
  induction events as [|ev rest IH]; intros line st e ok buf line' e' H.
  - simpl in H. injection H as <- _ <- <-. auto.
  - destruct ev as [c| |err]; simpl in H.
    + destruct (store _ c (retBuf st)) as [b1|]; [|discriminate].
      destruct (probe _ _ _ _).
      * destruct (store _ NUL b1) as [b2|]; [|discriminate].
        destruct (strcpy_over b2 canned); [|discriminate].
        injection H as <- _ <- <-. auto.
      * destruct (endFound st || _).
        -- destruct (store _ NUL b1) as [b2|]; [|discriminate].
           injection H as <- _ <- <-. auto.
        -- eapply IH, H.
    + eapply IH, H.
    + injection H as <- _ <- <-. auto.
Qed.

(** ** The frame reader on a well-formed frame *)

(** The loop once the bytes [w], the first of them the opening bracket, are
    in the buffer, [d] of them colons, and no closing bracket was seen. *)
Definition mid (w : text) (d : Z) (z : list ascii) : ReadLoop :=
  mkReadLoop true false 1 (Z.of_nat (length w)) d (pred (length w)) (w ++ z).

Lemma store_at_end w c z0 z :
  store (length w) c (w ++ z0 :: z) = Some (w ++ c :: z).
Proof.
  induction w as [|a w IH]; [reflexivity|].
  change (store (length (a :: w)) c ((a :: w) ++ z0 :: z))
    with (match store (length w) c (w ++ z0 :: z) with
          | Some tl' => Some (a :: tl')
          | None => None
          end).
  rewrite IH. reflexivity.
Qed.

Lemma probe_false n d e :
  probe true e n d = false <->
  n < 127 /\ (n < 10 \/ d <> 0) /\ (n < 20 \/ 2 <= d) /\ (e = true -> d = 2).
Proof.
  unfold probe, cmdLen, targetLen, MAXINOVAL, MAXINOCMD, MAXINOTARGET.
  destruct e; cbn [negb andb orb];
    rewrite ?orb_false_r, ?orb_false_iff, ?andb_false_iff, ?negb_false_iff;
    rewrite ?Z.geb_leb, ?Z.leb_gt, ?Z.leb_le, ?Z.eqb_neq, ?Z.eqb_eq,
      ?Z.ltb_ge; intuition (try lia; try discriminate).
Qed.

Lemma plain_chars c :
  plain c = true ->
  Ascii.eqb c "("%char = false /\ Ascii.eqb c ":"%char = false
  /\ Ascii.eqb c ")"%char = false /\ Ascii.eqb c NUL = false.
Proof.
  unfold plain. rewrite !andb_true_iff, !negb_true_iff. tauto.
Qed.

Lemma loop_start rest line z0 z e :
  readIno_loop (RxByte "("%char :: rest) line (readIno_start (z0 :: z)) e
  = readIno_loop rest line (mid (str "(") 0 z) e.
Proof. reflexivity. Qed.

Lemma loop_plain c w d z0 z rest line e :
  w <> [] -> plain c = true ->
  probe true false (Z.of_nat (length w) + 1) d = false ->
  readIno_loop (RxByte c :: rest) line (mid w d (z0 :: z)) e
  = readIno_loop rest line (mid (w ++ [c]) d z) e.
Proof.
  intros Hw Hc Hp. destruct (plain_chars c Hc) as (H1 & H2 & H3 & _).
  simpl. rewrite H1, H2, H3. simpl.
  replace (pred (length w) + Pos.to_nat 1)%nat with (length w)
    by (destruct w; [contradiction | simpl; lia]).
  rewrite store_at_end, Hp.
  unfold mid. rewrite length_app, <- app_assoc. simpl.
  repeat f_equal; lia.
Qed.

Lemma loop_colon w d z0 z rest line e :
  w <> [] ->
  probe true false (Z.of_nat (length w) + 1) (d + 1) = false ->
  readIno_loop (RxByte ":"%char :: rest) line (mid w d (z0 :: z)) e
  = readIno_loop rest line (mid (w ++ str ":") (d + 1) z) e.
Proof.
  intros Hw Hp. simpl.
  replace (pred (length w) + Pos.to_nat 1)%nat with (length w)
    by (destruct w; [contradiction | simpl; lia]).
  rewrite store_at_end, Hp.
  unfold mid. rewrite length_app, <- app_assoc. simpl.
  repeat f_equal; lia.
Qed.

(** The closing bracket ends the loop one way or the other. *)
Lemma loop_close w d z0 z1 z rest line e :
  w <> [] ->
  readIno_loop (RxByte ")"%char :: rest) line (mid w d (z0 :: z1 :: z)) e
  = if probe true true (Z.of_nat (length w) + 1) d
    then match strcpy_over (w ++ ")"%char :: NUL :: z) canned with
         | Some buf =>
             Some (false, buf, mkSerial rest (wr line) (tx line),
                   incr_errors e)
         | None => None
         end
    else Some (true, w ++ ")"%char :: NUL :: z,
               mkSerial rest (wr line) (tx line), e).
Proof.
  intros Hw. simpl.
  replace (pred (length w) + Pos.to_nat 1)%nat with (length w)
    by (destruct w; [contradiction | simpl; lia]).
  rewrite store_at_end.
  replace (store (S (length w)) NUL (w ++ ")"%char :: z1 :: z))
    with (Some (w ++ ")"%char :: NUL :: z)).
  - reflexivity.
  - pose proof (store_at_end (w ++ str ")") NUL z1 z) as H.
    rewrite length_app, <- app_assoc in H. simpl in H.
    rewrite Nat.add_1_r in H. rewrite H, <- app_assoc. reflexivity.
Qed.

Lemma loop_plain_run bs :
  forall w d k rest line e,
    w <> [] -> forallb plain bs = true ->
    probe true false (Z.of_nat (length w + length bs)) d = false ->
    readIno_loop (bytes bs ++ rest) line
      (mid w d (zeroed (length bs + k))) e
    = readIno_loop rest line (mid (w ++ bs) d (zeroed k)) e.
Proof.
  induction bs as [|c bs IH]; intros w d k rest line e Hw Hbs Hp.
  - rewrite app_nil_r. reflexivity.
  - simpl in Hbs. apply andb_true_iff in Hbs as [Hc Hbs].
    change (bytes (c :: bs) ++ rest) with (RxByte c :: bytes bs ++ rest).
    change (zeroed (length (c :: bs) + k))
      with (NUL :: zeroed (length bs + k)).
    rewrite loop_plain; [|assumption|assumption|].
    + rewrite IH; [|destruct w; discriminate|assumption|].
      * rewrite <- app_assoc. reflexivity.
      * rewrite length_app. simpl.
        replace (length w + 1 + length bs)%nat
          with (length w + length (c :: bs))%nat by (simpl; lia).
        exact Hp.
    + apply probe_false. apply probe_false in Hp. simpl length in Hp. lia.
Qed.

Lemma bytes_app a b : bytes (a ++ b) = bytes a ++ bytes b.
Proof. apply map_app. Qed.

Lemma bytes_cons c l rest :
  bytes (c :: l) ++ rest = RxByte c :: bytes l ++ rest.
Proof. reflexivity. Qed.

Lemma length_bytes l : length (bytes l) = length l.
Proof. apply length_map. Qed.

Lemma zeroed_S n : zeroed (S n) = NUL :: zeroed n.
Proof. reflexivity. Qed.

Lemma frame_length v t x :
  length (frame v t x) = (length v + length t + length x + 4)%nat.
Proof.
  unfold frame.
  repeat (cbn [length]; rewrite ?length_app). lia.
Qed.

(** The loop after the opening bracket, the two leading fields and a
    stretch [x1] of the third: within the budgets nothing is rejected. *)
Lemma loop_fields v t x1 k rest line e :
  forallb plain v = true -> forallb plain t = true ->
  forallb plain x1 = true ->
  (length v <= 8)%nat -> (length v + length t <= 17)%nat ->
  (length v + length t + length x1 + 3 <= 126)%nat ->
  readIno_loop
    (bytes ("("%char :: v ++ ":"%char :: t ++ ":"%char :: x1) ++ rest) line
    (readIno_start
       (zeroed (S (length v + S (length t + S (length x1 + k)))))) e
  = readIno_loop rest line
      (mid ("("%char :: v ++ ":"%char :: t ++ ":"%char :: x1) 2 (zeroed k))
      e.
Proof.
  intros Hv Ht Hx Lv Lt L.
  rewrite zeroed_S, bytes_cons, loop_start.
  rewrite bytes_app, <- app_assoc.
  rewrite loop_plain_run;
    [|discriminate|assumption|apply probe_false; simpl length; lia].
  rewrite zeroed_S, bytes_cons.
  rewrite loop_colon;
    [|discriminate
     |apply probe_false; rewrite length_app; simpl length; lia].
  rewrite bytes_app, <- app_assoc.
  rewrite loop_plain_run;
    [|destruct v; discriminate|assumption
     |apply probe_false; rewrite !length_app; simpl length; lia].
  rewrite zeroed_S, bytes_cons.
  rewrite loop_colon;
    [|destruct v; discriminate
     |apply probe_false; rewrite !length_app; simpl length; lia].
  rewrite loop_plain_run;
    [|destruct v; discriminate|assumption
     |apply probe_false; rewrite !length_app; simpl length; lia].
  f_equal. f_equal.
  repeat (progress cbn [app str list_ascii_of_string]
          || rewrite <- app_assoc).
  reflexivity.
Qed.

Lemma fields_length v t x1 :
  length ("("%char :: v ++ ":"%char :: t ++ ":"%char :: x1)
  = (length v + length t + length x1 + 3)%nat.
Proof. repeat (cbn [length]; rewrite ?length_app). lia. Qed.

Lemma frame_fields_app v t x :
  frame v t x = ("("%char :: v ++ ":"%char :: t ++ ":"%char :: x) ++ [")"%char].
Proof.
  unfold frame.
  repeat (progress cbn [app str list_ascii_of_string]
          || rewrite <- app_assoc).
  reflexivity.
Qed.

(** A frame whose fields hold no delimiter, whose first colon comes within
    the command budget, whose second comes within the target budget, and
    which is shorter than [MAXINOVAL], is returned as it came. *)
Lemma readIno_accepts v t x rest w txs e :
  forallb plain v = true -> forallb plain t = true ->
  forallb plain x = true ->
  (length v <= 8)%nat -> (length v + length t <= 17)%nat ->
  (length (frame v t x) <= 126)%nat ->
  readIno (zeroed 255) (mkSerial (bytes (frame v t x) ++ rest) w txs) e
  = Some (true, frame v t x ++ zeroed (255 - length (frame v t x)),
          mkSerial rest w txs, e).
Proof.
  intros Hv Ht Hx Lv Lt L. rewrite frame_length in L.
  unfold readIno. cbn [rx].
  set (k := (250 - length v - length t - length x)%nat).
  replace (255 - length (frame v t x))%nat with (S k)
    by (rewrite frame_length; lia).
  replace 255%nat
    with (S (length v + S (length t + S (length x + S (S k))))) by lia.
  rewrite frame_fields_app, bytes_app, <- app_assoc.
  rewrite loop_fields; try assumption; [|lia].
  rewrite !zeroed_S, bytes_cons.
  rewrite loop_close; [|discriminate].
  replace (probe true true _ _) with false
    by (symmetry; apply probe_false; rewrite fields_length;
        repeat split; intros; lia).
  cbn [wr tx]. do 4 f_equal.
  rewrite <- app_assoc. reflexivity.
Qed.

Lemma loop_plain_full c w d z0 z1 z rest line e :
  w <> [] -> plain c = true ->
  probe true false (Z.of_nat (length w) + 1) d = true ->
  readIno_loop (RxByte c :: rest) line (mid w d (z0 :: z1 :: z)) e
  = match strcpy_over (w ++ c :: NUL :: z) canned with
    | Some buf =>
        Some (false, buf, mkSerial rest (wr line) (tx line), incr_errors e)
    | None => None
    end.
Proof.
  intros Hw Hc Hp. destruct (plain_chars c Hc) as (H1 & H2 & H3 & _).
  simpl. rewrite H1, H2, H3. simpl.
  replace (pred (length w) + Pos.to_nat 1)%nat with (length w)
    by (destruct w; [contradiction | simpl; lia]).
  rewrite store_at_end, Hp.
  replace (store (S (length w)) NUL (w ++ c :: z1 :: z))
    with (Some (w ++ c :: NUL :: z)); [reflexivity|].
  pose proof (store_at_end (w ++ [c]) NUL z1 z) as H.
  rewrite length_app, <- app_assoc in H. simpl in H.
  rewrite Nat.add_1_r in H. rewrite H, <- app_assoc. reflexivity.
Qed.

Lemma strcpy_over_canned buf :
  (15 <= length buf)%nat ->
  exists buf', strcpy_over buf canned = Some buf' /\ cstr buf' = canned.
Proof.
  intros H. unfold strcpy_over.
  replace (length canned <? length buf)%nat with true
    by (symmetry; apply Nat.ltb_lt; change (length canned) with 14%nat; lia).
  eexists. split; reflexivity.
Qed.

(** A frame of 127 bytes or more is given up at its 127th byte, whatever
    that byte is. *)
Lemma readIno_rejects_long v t x rest w txs e :
  forallb plain v = true -> forallb plain t = true ->
  forallb plain x = true ->
  (length v <= 8)%nat -> (length v + length t <= 17)%nat ->
  (127 <= length (frame v t x))%nat ->
  exists buf,
    readIno (zeroed 255) (mkSerial (bytes (frame v t x) ++ rest) w txs) e
    = Some (false, buf,
            mkSerial (skipn 127 (bytes (frame v t x)) ++ rest) w txs,
            incr_errors e)
    /\ cstr buf = canned.
Proof.
  intros Hv Ht Hx Lv Lt L. rewrite frame_length in L.
  set (m := (123 - length v - length t)%nat).
  assert (Hsplit : exists x1 x2, x = x1 ++ x2 /\ length x1 = m).
  { exists (firstn m x), (skipn m x). split.
    - symmetry. apply firstn_skipn.
    - rewrite length_firstn. lia. }
  destruct Hsplit as (x1 & x2 & -> & Hm).
  rewrite forallb_app in Hx. apply andb_true_iff in Hx as [Hx1 Hx2].
  assert (Hpre : length ("("%char :: v ++ ":"%char :: t ++ ":"%char :: x1)
                 = 126%nat)
    by (rewrite fields_length; lia).
  unfold readIno. cbn [rx].
  replace 255%nat
    with (S (length v + S (length t + S (length x1 + 129)))) by lia.
  rewrite frame_fields_app.
  replace (("("%char :: v ++ ":"%char :: t ++ ":"%char :: x1 ++ x2)
             ++ [")"%char])
    with (("("%char :: v ++ ":"%char :: t ++ ":"%char :: x1)
            ++ x2 ++ [")"%char])
    by (repeat (progress cbn [app] || rewrite <- app_assoc); reflexivity).
  rewrite bytes_app, <- app_assoc.
  rewrite loop_fields; try assumption; [|lia].
  rewrite skipn_app, skipn_all2 by (rewrite length_bytes, Hpre; lia).
  rewrite length_bytes, Hpre.
  change (127 - 126)%nat with 1%nat.
  change (skipn 127 (bytes ("("%char :: v ++ ":"%char :: t ++ ":"%char :: x1))
          ++ skipn 1 (bytes (x2 ++ [")"%char])))
    with (skipn 1 (bytes (x2 ++ [")"%char]))).
  change 129%nat with (S (S 127)). do 2 rewrite zeroed_S.
  destruct x2 as [|c x2].
  - change (bytes ([] ++ [")"%char]) ++ rest) with (RxByte ")"%char :: rest).
    rewrite loop_close; [|discriminate].
    replace (probe true true _ _) with true
      by (rewrite Hpre; reflexivity).
    destruct (strcpy_over_canned
                (("("%char :: v ++ ":"%char :: t ++ ":"%char :: x1)
                   ++ ")"%char :: NUL :: zeroed 127))
      as (buf & Hbuf & Hc).
    { rewrite length_app, Hpre. simpl. lia. }
    rewrite Hbuf. exists buf. split; [reflexivity | exact Hc].
  - change (bytes ((c :: x2) ++ [")"%char]) ++ rest)
      with (RxByte c :: bytes (x2 ++ [")"%char]) ++ rest).
    simpl in Hx2. apply andb_true_iff in Hx2 as [Hc Hx2].
    rewrite loop_plain_full; [|discriminate|assumption|].
    + destruct (strcpy_over_canned
                  (("("%char :: v ++ ":"%char :: t ++ ":"%char :: x1)
                     ++ c :: NUL :: zeroed 127))
        as (buf & Hbuf & Hcan).
      { rewrite length_app, Hpre. simpl. lia. }
      rewrite Hbuf. exists buf. split; [reflexivity | exact Hcan].
    + rewrite Hpre. reflexivity.
Qed.

(** ** [strtok] on a string whose delimiters are known *)

(** No character of [a] is one of [delims]. *)
Definition free_of (delims a : text) : Prop :=
  forallb (fun c => negb (is_delim delims c)) a = true.

Lemma free_of_cons delims c a :
  free_of delims (c :: a) <->
  is_delim delims c = false /\ free_of delims a.
Proof.
  unfold free_of. cbn [forallb].
  rewrite andb_true_iff, negb_true_iff. tauto.
Qed.

Lemma split_token_app delims a d rest :
  free_of delims a -> is_delim delims d = true ->
  split_token delims (a ++ d :: rest) = (a, rest).
Proof.
  intros Ha Hd. induction a as [|c a IH]; cbn [app split_token].
  - rewrite Hd. reflexivity.
  - apply free_of_cons in Ha as [Hc Ha]. rewrite Hc, (IH Ha). reflexivity.
Qed.

Lemma split_token_all delims a :
  free_of delims a -> split_token delims a = (a, []).
Proof.
  intros Ha. induction a as [|c a IH]; cbn [split_token]; [reflexivity|].
  apply free_of_cons in Ha as [Hc Ha]. rewrite Hc, (IH Ha). reflexivity.
Qed.

Lemma strtok_app delims a d rest :
  a <> [] -> free_of delims a -> is_delim delims d = true ->
  strtok (a ++ d :: rest) delims = Some (a, rest).
Proof.
  intros Hne Ha Hd. destruct a as [|c a]; [contradiction|].
  pose proof Ha as Ha'. apply free_of_cons in Ha' as [Hc _].
  unfold strtok. cbn [app skip_delims]. rewrite Hc.
  change (c :: a ++ d :: rest) with ((c :: a) ++ d :: rest).
  rewrite split_token_app by assumption. reflexivity.
Qed.

Lemma strtok_all delims a :
  a <> [] -> free_of delims a -> strtok a delims = Some (a, []).
Proof.
  intros Hne Ha. destruct a as [|c a]; [contradiction|].
  pose proof Ha as Ha'. apply free_of_cons in Ha' as [Hc _].
  unfold strtok. cbn [skip_delims]. rewrite Hc.
  rewrite split_token_all by assumption. reflexivity.
Qed.

Lemma plain_free_of delims a :
  forallb plain a = true ->
  forallb (fun d => negb (plain d)) delims = true ->
  free_of delims a.
Proof.
  intros Ha Hd. unfold free_of. rewrite forallb_forall in *.
  intros c Hc. specialize (Ha c Hc).
  apply negb_true_iff. unfold is_delim.
  destruct (existsb (Ascii.eqb c) delims) eqn:E; [|reflexivity].
  apply existsb_exists in E as (d & Hin & Heq).
  apply Ascii.eqb_eq in Heq. subst d.
  specialize (Hd c Hin). rewrite Ha in Hd. discriminate.
Qed.

(** [evaluateResponse] finds the fields of a frame that fit its buffers. *)
Lemma frame_fields_frame v t x :
  v <> [] -> t <> [] -> x <> [] ->
  forallb plain v = true -> forallb plain t = true ->
  forallb plain x = true ->
  (length v <= 15)%nat -> (length t <= 15)%nat ->
  (length (frame v t x) <= 126)%nat ->
  frame_fields (frame v t x) = Some (v, t, x).
Proof.
  intros Nv Nt Nx Hv Ht Hx Lv Lt L.
  pose proof L as L'. rewrite frame_length in L'.
  unfold frame_fields, strcpy, strlen.
  replace (Z.of_nat (length (frame v t x)) <? MAXINOBUF) with true
    by (symmetry; apply Z.ltb_lt; unfold MAXINOBUF; lia).
  unfold frame.
  replace (strtok ("("%char :: v ++ ":"%char :: t ++ ":"%char :: x
                     ++ [")"%char]) (str "(:"))
    with (Some (v, t ++ ":"%char :: x ++ [")"%char])).
  2:{ destruct v as [|c v]; [contradiction|].
      assert (Hf : free_of (str "(:") (c :: v))
        by (apply plain_free_of; [assumption | reflexivity]).
      pose proof Hf as Hf'. apply free_of_cons in Hf' as [Hc _].
      unfold strtok. cbn [skip_delims app].
      change (is_delim (str "(:") "("%char) with true. cbv iota.
      rewrite Hc.
      change (c :: v ++ ":"%char :: t ++ ":"%char :: x ++ [")"%char])
        with ((c :: v) ++ ":"%char :: t ++ ":"%char :: x ++ [")"%char]).
      rewrite split_token_app; [reflexivity | assumption | reflexivity]. }
  replace (Z.of_nat (length v) <? MAXINOCMD + 1) with true
    by (symmetry; apply Z.ltb_lt; unfold MAXINOCMD; lia).
  rewrite strtok_app;
    [|assumption|apply plain_free_of; [assumption | reflexivity]
     |reflexivity].
  replace (Z.of_nat (length t) <? MAXINOTARGET + 1) with true
    by (symmetry; apply Z.ltb_lt; unfold MAXINOTARGET; lia).
  rewrite strtok_app;
    [|assumption|apply plain_free_of; [assumption | reflexivity]
     |reflexivity].
  replace (Z.of_nat (length x) <? MAXINOVAL + 1) with true
    by (symmetry; apply Z.ltb_lt; unfold MAXINOVAL; lia).
  reflexivity.
Qed.

Lemma frame_plain v t x :
  forallb plain v = true -> forallb plain t = true ->
  forallb plain x = true ->
  forallb (fun c => negb (Ascii.eqb c NUL)) (frame v t x) = true.
Proof.
  intros Hv Ht Hx.
  assert (P : forall a, forallb plain a = true ->
                        forallb (fun c => negb (Ascii.eqb c NUL)) a = true).
  { intros a Ha. rewrite forallb_forall in *. intros c Hc.
    destruct (plain_chars c (Ha c Hc)) as (_ & _ & _ & H0).
    rewrite H0. reflexivity. }
  unfold frame.
  repeat (rewrite forallb_app || (progress cbn [forallb])).
  rewrite (P v Hv), (P t Ht), (P x Hx). reflexivity.
Qed.

Lemma cstr_terminated w n :
  forallb (fun c => negb (Ascii.eqb c NUL)) w = true ->
  cstr (w ++ zeroed (S n)) = w.
Proof.
  intros Hw. induction w as [|c w IH]; [reflexivity|].
  simpl in Hw. apply andb_true_iff in Hw as [Hc Hw].
  apply negb_true_iff in Hc.
  cbn [app cstr]. rewrite Hc, (IH Hw). reflexivity.
Qed.

(** ** The frame reader and bytes in front of a frame *)

(** The loop looks at the outgoing side of the line only. *)
Lemma readIno_loop_outgoing events :
  forall l1 l2 st e,
    wr l1 = wr l2 -> tx l1 = tx l2 ->
    readIno_loop events l1 st e = readIno_loop events l2 st e.
Proof.
  induction events as [|ev rest IH]; intros l1 l2 st e Hw Ht.
  - simpl. rewrite Hw, Ht. reflexivity.
  - destruct ev as [c| |err]; simpl; rewrite ?Hw, ?Ht.
    + destruct (store _ c (retBuf st)) as [b1|]; [|reflexivity].
      destruct (probe _ _ _ _); [reflexivity|].
      destruct (endFound st || _); [reflexivity|].
      apply IH; assumption.
    + apply IH; assumption.
    + reflexivity.
Qed.

(** Bytes that arrive before the opening bracket are overwritten one by the
    next and counted nowhere: [totalCount] only moves once [startFound] is
    set, so the test [(totalCount >= 2) && !startFound] never holds. *)
Lemma loop_skips_leading junk :
  forall r z0 z rest line e,
    forallb plain junk = true ->
    readIno_loop (bytes junk ++ RxByte "("%char :: rest) line
      (mkReadLoop false false r 0 0 0 (z0 :: z)) e
    = readIno_loop rest line (mid (str "(") 0 z) e.
Proof.
  induction junk as [|c junk IH]; intros r z0 z rest line e Hj.
  - reflexivity.
  - simpl in Hj. apply andb_true_iff in Hj as [Hc Hj].
    destruct (plain_chars c Hc) as (H1 & H2 & H3 & _).
    rewrite bytes_cons. simpl. rewrite H1, H2, H3. simpl.
    apply IH, Hj.
Qed.

Lemma readIno_skips_leading junk z0 z rest w txs e :
  forallb plain junk = true ->
  readIno (z0 :: z) (mkSerial (bytes junk ++ RxByte "("%char :: rest) w txs) e
  = readIno (z0 :: z) (mkSerial (RxByte "("%char :: rest) w txs) e.
Proof.
  intros Hj. unfold readIno, readIno_start. cbn [rx].
  rewrite loop_skips_leading by assumption.
  rewrite loop_start. apply readIno_loop_outgoing; reflexivity.
Qed.

(** C3, as the code has it: two bytes without an opening bracket are not
    rejected; the reader goes on, finds the frame that follows them and
    returns it with success, the error count untouched. *)
Theorem readIno_reads_past_leading_bytes :
  readIno (zeroed 255) (mkSerial (bytes (str "xx(ACK:A:ON)")) [] []) 0
  = Some (true, str "(ACK:A:ON)" ++ zeroed 245, mkSerial [] [] [], 0).
Proof. vm_compute. reflexivity. Qed.

(** ** The length limits *)

(** C7, the claim as stated fails: a well-formed frame of 128 bytes, within
    the 255 bytes of the buffer, is rejected and replaced by the canned
    negative answer. *)
Lemma readIno_rejects_128_bytes :
  length frame_128 = 128%nat /\
  exists buf line',
    readIno (zeroed 255) (mkSerial (bytes frame_128) [] []) 0
    = Some (false, buf, line', 1)
    /\ cstr buf = canned.
Proof.
  split; [reflexivity|].
  eexists. eexists. split; vm_compute; reflexivity.
Qed.

(** C7, amended: the length limit of the reader is [MAXINOVAL] = 127, counted
    from the opening bracket.  A well-formed frame of at most 126 bytes is
    returned as it came; one of 127 bytes or more is given up at its 127th
    byte, closing bracket or not, and counted as an error. *)
Theorem readIno_length_limit v t x rest w txs e :
  forallb plain v = true -> forallb plain t = true ->
  forallb plain x = true ->
  (length v <= 8)%nat -> (length v + length t <= 17)%nat ->
  ((length (frame v t x) <= 126)%nat ->
   readIno (zeroed 255) (mkSerial (bytes (frame v t x) ++ rest) w txs) e
   = Some (true, frame v t x ++ zeroed (255 - length (frame v t x)),
           mkSerial rest w txs, e)
   /\ cstr (frame v t x ++ zeroed (255 - length (frame v t x)))
      = frame v t x)
  /\ ((127 <= length (frame v t x))%nat ->
      exists buf,
        readIno (zeroed 255) (mkSerial (bytes (frame v t x) ++ rest) w txs) e
        = Some (false, buf,
                mkSerial (skipn 127 (bytes (frame v t x)) ++ rest) w txs,
                incr_errors e)
        /\ cstr buf = canned).
Proof.
  intros Hv Ht Hx Lv Lt. split; intros L.
  - split; [apply readIno_accepts; assumption|].
    replace (255 - length (frame v t x))%nat
      with (S (254 - length (frame v t x))) by lia.
    apply cstr_terminated, frame_plain; assumption.
  - apply readIno_rejects_long; assumption.
Qed.

Lemma readIno_length_limit_witness :
  readIno (zeroed 255) (mkSerial (bytes frame_126 ++ []) [] []) 0
  = Some (true, frame_126 ++ zeroed (255 - length frame_126),
          mkSerial [] [] [], 0)
  /\ cstr (frame_126 ++ zeroed (255 - length frame_126)) = frame_126.
Proof.
  apply (readIno_length_limit (str "ACK") (str "AUXSTATE")
           (repeat "x"%char 111) [] [] [] 0);
    try reflexivity; vm_compute; lia.
Defined.

(** C8, the claim as stated fails: a command of exactly 63 bytes is refused
    and nothing is handed to the line. *)
Lemma writeIno_refuses_63_bytes :
  strlen command_63 = 63 /\
  writeIno command_63 (mkSerial [] [] []) = (false, mkSerial [] [] []).
Proof. split; reflexivity. Qed.

(** C8, amended: [writeIno] refuses a command exactly when it is 63 bytes or
    longer ([strlen(msg) >= MAXINOLINE]), leaving the line untouched; a
    command of at most 62 bytes is handed to the line, and the call succeeds
    exactly when that write does. *)
Theorem writeIno_length_limit msg line :
  (63 <= strlen msg -> writeIno msg line = (false, line))
  /\ (strlen msg <= 62 ->
      tx (snd (writeIno msg line)) = tx line ++ [msg]
      /\ (fst (writeIno msg line) = true <-> hd None (wr line) = None)).
Proof.
  unfold writeIno, MAXINOLINE. split; intros H.
  - replace (strlen msg >=? 63) with true
      by (symmetry; apply Z.geb_le; lia).
    reflexivity.
  - replace (strlen msg >=? 63) with false
      by (symmetry; rewrite Z.geb_leb; apply Z.leb_gt; lia).
    unfold tty_write_string. destruct (wr line) as [|[err|] rest];
      cbn; split; try reflexivity; split; intros; try reflexivity;
      discriminate.
Qed.

(** ** The response evaluator *)

(** C10: when the fields cut out of a response are a verb other than "NAK"
    and the target "0", [evaluateResponse] returns true with [*result] true,
    whatever the verb is. *)
Theorem evaluateResponse_connect_target inp cmd val :
  frame_fields inp = Some (cmd, str "0", val) ->
  cmd <> str "NAK" ->
  evaluateResponse inp = Some (true, true).
Proof.
  intros Hf Hc. unfold evaluateResponse. rewrite Hf.
  unfold evaluateFields, strcmp0, text_eqb.
  destruct (list_eq_dec ascii_dec cmd (str "NAK")); [contradiction|].
  reflexivity.
Qed.

Lemma evaluateResponse_connect_target_witness :
  frame_fields (str "(XYZ:0:hello)") = Some (str "XYZ", str "0", str "hello")
  /\ str "XYZ" <> str "NAK"
  /\ evaluateResponse (str "(XYZ:0:hello)") = Some (true, true).
Proof.
  assert (H1 : frame_fields (str "(XYZ:0:hello)")
               = Some (str "XYZ", str "0", str "hello")) by reflexivity.
  assert (H2 : str "XYZ" <> str "NAK") by discriminate.
  split; [exact H1|]. split; [exact H2|].
  exact (evaluateResponse_connect_target _ _ _ H1 H2).
Defined.

(** ** Decimal numerals under [strtol] *)

Lemma uint_digits d :
  forallb is_digit (str (NilEmpty.string_of_uint d)) = true.
Proof. induction d; simpl; auto. Qed.

Lemma strtol_digits_uint d :
  forall a,
    strtol_digits (str (NilEmpty.string_of_uint d)) (Z.of_nat a)
    = Z.of_nat (Nat.of_uint_acc d a).
Proof.
  induction d; intros a; cbn [NilEmpty.string_of_uint Nat.of_uint_acc];
    [reflexivity|..];
    rewrite <- IHd, Nat.tail_mul_spec;
    cbn [str list_ascii_of_string strtol_digits];
    match goal with
    | |- context [digit_val ?c] =>
        let v := eval vm_compute in (digit_val c) in
        change (digit_val c) with v
    end;
    cbv iota; f_equal; lia.
Qed.

Lemma uint_bound d :
  forall a,
    Z.of_nat (Nat.of_uint_acc d a)
    < 10 ^ Z.of_nat (length (str (NilEmpty.string_of_uint d)))
      * (Z.of_nat a + 1).
Proof.
  induction d; intros a; cbn [NilEmpty.string_of_uint Nat.of_uint_acc];
    [change (10 ^ Z.of_nat (length (str ""))) with 1; lia|..];
    cbn [str list_ascii_of_string length];
    rewrite Nat2Z.inj_succ, Z.pow_succ_r by lia;
    (eapply Z.lt_le_trans; [apply IHd|]);
    rewrite Nat.tail_mul_spec; unfold str;
    match goal with
    | |- ?p * ?x <= 10 * ?p * ?y =>
        assert (0 < p) by (apply Z.pow_pos_nonneg; lia);
        assert (x <= 10 * y) by lia; nia
    end.
Qed.

Lemma decimal_digits n : forallb is_digit (decimal n) = true.
Proof. apply uint_digits. Qed.

Lemma decimal_value n : strtol_digits (decimal n) 0 = Z.of_nat n.
Proof.
  unfold decimal. change 0 with (Z.of_nat 0).
  rewrite (strtol_digits_uint (Nat.to_uint n) 0).
  change (Nat.of_uint_acc (Nat.to_uint n) 0)
    with (Nat.of_uint (Nat.to_uint n)).
  rewrite DecimalNat.Unsigned.of_to. reflexivity.
Qed.

Lemma decimal_bound n : Z.of_nat n < 10 ^ Z.of_nat (length (decimal n)).
Proof.
  pose proof (uint_bound (Nat.to_uint n) 0) as H.
  change (Nat.of_uint_acc (Nat.to_uint n) 0)
    with (Nat.of_uint (Nat.to_uint n)) in H.
  rewrite DecimalNat.Unsigned.of_to in H. unfold decimal.
  simpl Z.of_nat in H at 3. lia.
Qed.

Lemma decimal_nonempty n : decimal n <> [].
Proof.
  unfold decimal. intros H.
  pose proof (DecimalNat.Unsigned.of_to n) as Hn.
  destruct (Nat.to_uint n) eqn:E; try discriminate H.
  cbn in Hn. subst n. discriminate E.
Qed.

(** [strtol] reads a decimal numeral as the number it denotes. *)
Lemma strtol_decimal n :
  Z.of_nat n <= LONG_MAX -> strtol (decimal n) = Z.of_nat n.
Proof.
  intros Hn. pose proof (decimal_value n) as Hv.
  pose proof (decimal_nonempty n) as Hne.
  assert (Hc : clamp_long (Z.of_nat n) = Z.of_nat n).
  { unfold clamp_long, LONG_MIN, LONG_MAX in *. lia. }
  unfold decimal in *.
  destruct (Nat.to_uint n); [contradiction Hne; reflexivity|..];
    cbn [NilEmpty.string_of_uint str list_ascii_of_string] in *;
    unfold strtol; cbn [skip_space];
    match goal with
    | |- context [isspace ?c] =>
        let v := eval vm_compute in (isspace c) in
        change (isspace c) with v
    end;
    cbv iota; rewrite Hv; exact Hc.
Qed.

Lemma digit_chars c :
  is_digit c = true ->
  plain c = true
  /\ Ascii.eqb c "["%char = false /\ Ascii.eqb c "]"%char = false
  /\ Ascii.eqb c "T"%char = false.
Proof.
  destruct c as [[] [] [] [] [] [] [] []]; vm_compute; intros H;
    try discriminate H; auto.
Qed.

(** ** The handshake answer *)

Lemma strtok_frame v t x :
  v <> [] -> forallb plain v = true ->
  strtok (frame v t x) (str "(:")
  = Some (v, t ++ ":"%char :: x ++ [")"%char]).
Proof.
  intros Nv Hv. destruct v as [|c v]; [contradiction|].
  assert (Hf : free_of (str "(:") (c :: v))
    by (apply plain_free_of; [assumption | reflexivity]).
  pose proof Hf as Hf'. apply free_of_cons in Hf' as [Hc _].
  unfold strtok, frame. cbn [skip_delims app].
  change (is_delim (str "(:") "("%char) with true. cbv iota.
  rewrite Hc.
  change (c :: v ++ ":"%char :: t ++ ":"%char :: x ++ [")"%char])
    with ((c :: v) ++ ":"%char :: t ++ ":"%char :: x ++ [")"%char]).
  rewrite split_token_app; [reflexivity | assumption | reflexivity].
Qed.

Lemma digits_plain ds :
  forallb is_digit ds = true ->
  forallb plain ds = true
  /\ free_of (str "[") ds /\ free_of (str "]") ds.
Proof.
  intros H. rewrite forallb_forall in H. unfold free_of.
  repeat split; apply forallb_forall; intros c Hc;
    destruct (digit_chars c (H c Hc)) as (P & A & B & _);
    [exact P | | ]; unfold is_delim; simpl; rewrite ?A, ?B; reflexivity.
Qed.

Lemma handshake_value_plain version suffix :
  forallb plain version = true ->
  forallb plain (handshake_value version suffix) = true.
Proof.
  intros Hv. unfold handshake_value. rewrite forallb_app, Hv.
  destruct suffix as [n|]; [|reflexivity].
  rewrite !forallb_app.
  destruct (digits_plain _ (decimal_digits n)) as (P & _).
  rewrite P. reflexivity.
Qed.

(** The action count that [initialContact] reads off an answer with the
    value [version] or [version[ACT<n>]]. *)
Lemma contact_actions_value version suffix :
  version <> [] -> forallb plain version = true ->
  free_of (str "[") version ->
  (length (handshake_value version suffix) <= 15)%nat ->
  contact_actions (frame (str "ACK") (str "0")
                     (handshake_value version suffix))
  = Some match suffix with
         | Some n =>
             Some (if (1 <=? n)%nat && (n <=? 8)%nat then Z.of_nat n else 0)
         | None => None
         end.
Proof.
  intros Nv Hv Fv L.
  pose proof (handshake_value_plain version suffix Hv) as Hp.
  assert (Nx : handshake_value version suffix <> []).
  { unfold handshake_value. destruct version; [contradiction|discriminate]. }
  unfold contact_actions.
  rewrite strtok_frame; [|discriminate|reflexivity].
  change (strcpy (MAXINOVAL + 1) (Some (str "ACK"))) with (Some (str "ACK")).
  cbv iota beta.
  rewrite (strtok_app (str ":") (str "0"));
    [|discriminate|reflexivity|reflexivity].
  change (strcpy (MAXINOVAL + 1) (Some (str "0"))) with (Some (str "0")).
  cbv iota beta.
  rewrite strtok_app;
    [|assumption|apply plain_free_of; [assumption | reflexivity]
     |reflexivity].
  unfold strcpy at 1, strlen.
  replace (Z.of_nat (length (handshake_value version suffix))
           <? MAXINOTARGET + 1) with true
    by (symmetry; apply Z.ltb_lt; unfold MAXINOTARGET; lia).
  unfold handshake_value in *. destruct suffix as [n|].
  - destruct (digits_plain _ (decimal_digits n)) as (_ & DA & DB).
    replace (has_char "["%char (version ++ str "[ACT" ++ decimal n ++ str "]"))
      with true
      by (unfold has_char; rewrite existsb_app, orb_comm; reflexivity).
    change (version ++ str "[ACT" ++ decimal n ++ str "]")
      with (version ++ "["%char :: str "ACT" ++ decimal n ++ str "]").
    rewrite strtok_app; [|assumption|assumption|reflexivity].
    rewrite !length_app in L. cbn [length str list_ascii_of_string] in L.
    unfold strcpy at 1, strlen.
    replace (Z.of_nat (length version) <? MAXINOTARGET + 1) with true
      by (symmetry; apply Z.ltb_lt; unfold MAXINOTARGET; lia).
    change (strtok (str "ACT" ++ decimal n ++ str "]") (str "T"))
      with (Some (str "AC", decimal n ++ str "]")).
    change (strcpy (MAXINOVAL + 1) (Some (str "AC"))) with (Some (str "AC")).
    cbv iota beta.
    change (decimal n ++ str "]") with (decimal n ++ "]"%char :: []).
    rewrite strtok_app;
      [|apply decimal_nonempty|assumption|reflexivity].
    unfold strcpy, strlen.
    replace (Z.of_nat (length (decimal n)) <? MAXINOTARGET + 1) with true
      by (symmetry; apply Z.ltb_lt; unfold MAXINOTARGET; lia).
    assert (Hn : Z.of_nat n < 10 ^ 9).
    { eapply Z.lt_le_trans; [apply decimal_bound|].
      apply Z.pow_le_mono_r; [lia|].
      destruct version; [contradiction|]. simpl in L. lia. }
    rewrite strtol_decimal by (unfold LONG_MAX; lia).
    replace (int_of_long (Z.of_nat n)) with (Z.of_nat n)
      by (unfold int_of_long; rewrite Z.mod_small; lia).
    unfold MAX_ACTIONS. f_equal. f_equal.
    destruct (Nat.leb_spec 1 n), (Nat.leb_spec n 8);
      destruct (Z.gtb_spec (Z.of_nat n) 0), (Z.leb_spec (Z.of_nat n) 8);
      cbn [andb]; try reflexivity; lia.
  - rewrite app_nil_r in *.
    replace (has_char "["%char version) with false; [reflexivity|].
    symmetry. unfold has_char.
    destruct (existsb (Ascii.eqb "["%char) version) eqn:E; [|reflexivity].
    apply existsb_exists in E as (c & Hin & Heq).
    apply Ascii.eqb_eq in Heq. subst c.
    unfold free_of in Fv. rewrite forallb_forall in Fv.
    specialize (Fv _ Hin). discriminate Fv.
Qed.

(** ** The driver on a line that answers *)

Section DriverFacts.

Context {dome_base : DomeBase} {header : Header}.

Lemma writeIno_m_run msg (s : RollOffIno) :
  strlen msg <= 62 -> hd None (wr (line s)) = None ->
  writeIno_m msg s
  = Some (true,
          set_line (mkSerial (rx (line s)) (tl (wr (line s)))
                      (tx (line s) ++ [msg])) s).
Proof.
  intros L W. unfold writeIno_m, writeIno, MAXINOLINE, tty_write_string.
  replace (strlen msg >=? 63) with false
    by (symmetry; rewrite Z.geb_leb; apply Z.leb_gt; lia).
  destruct (wr (line s)) as [|r rest]; [reflexivity|].
  simpl in W. subst r. reflexivity.
Qed.

Lemma readIno_m_frame v t x rest (s : RollOffIno) :
  forallb plain v = true -> forallb plain t = true ->
  forallb plain x = true ->
  (length v <= 8)%nat -> (length v + length t <= 17)%nat ->
  (length (frame v t x) <= 126)%nat ->
  rx (line s) = bytes (frame v t x) ++ rest ->
  readIno_m s
  = Some ((true, frame v t x),
          set_communicationErrors (communicationErrors s)
            (set_line (mkSerial rest (wr (line s)) (tx (line s))) s)).
Proof.
  intros Hv Ht Hx Lv Lt L Hrx. unfold readIno_m.
  change (Z.to_nat MAXINOBUF) with 255%nat.
  destruct (line s) as [r w txs] eqn:E. cbn [rx wr tx] in *. subst r.
  rewrite readIno_accepts by assumption.
  replace (255 - length (frame v t x))%nat
    with (S (254 - length (frame v t x))) by lia.
  rewrite cstr_terminated by (apply frame_plain; assumption).
  reflexivity.
Qed.

(** C9, amended: the handshake.  When the controller answers the probe
    "(CON:0:0)" with "(ACK:0:<version>)" or "(ACK:0:<version>[ACT<n>])", a
    value of at most 15 characters as the buffer [target] holds and a
    version without '[', contact is established and [actionCount] is [n]
    when the bracket is there and 1 <= n <= 8, and 0 otherwise: without a
    bracket, and with [n] outside 1..8.  Nothing is said of brackets of
    another shape, nor of longer values. *)
Theorem initialContact_action_count version suffix rest (s : RollOffIno) :
  version <> [] -> forallb plain version = true ->
  free_of (str "[") version ->
  (length (handshake_value version suffix) <= 15)%nat ->
  hd None (wr (line s)) = None ->
  rx (line s)
  = bytes (frame (str "ACK") (str "0") (handshake_value version suffix))
    ++ rest ->
  exists s',
    initialContact s = Some (true, s')
    /\ contactEstablished s' = true
    /\ actionCount s'
       = match suffix with
         | Some n => if (1 <=? n)%nat && (n <=? 8)%nat then Z.of_nat n else 0
         | None => 0
         end
    /\ tx (line s') = tx (line s) ++ [str "(CON:0:0)"]
    /\ rx (line s') = rest.
Proof.
  intros Nv Hv Fv L W Hrx.
  pose proof (handshake_value_plain version suffix Hv) as Hp.
  assert (Nx : handshake_value version suffix <> []).
  { unfold handshake_value. destruct version; [contradiction|discriminate]. }
  assert (LF : (length (frame (str "ACK") (str "0")
                          (handshake_value version suffix)) <= 126)%nat).
  { rewrite frame_length. simpl. lia. }
  unfold initialContact.
  unfold bind at 1. unfold modify at 1.
  unfold bind at 1. unfold modify at 1.
  unfold bind at 1. rewrite writeIno_m_run; [|vm_compute; discriminate|exact W].
  cbv iota beta.
  unfold bind at 1.
  rewrite (readIno_m_frame (str "ACK") (str "0")
             (handshake_value version suffix) rest);
    [|reflexivity|reflexivity|exact Hp|simpl; lia|simpl; lia|exact LF
     |exact Hrx].
  cbn [fst snd]. cbv iota.
  unfold bind at 1. unfold strcpy, strlen.
  replace (Z.of_nat (length (frame (str "ACK") (str "0")
                               (handshake_value version suffix)))
           <? MAXINOBUF) with true
    by (symmetry; apply Z.ltb_lt; unfold MAXINOBUF; lia).
  cbn [of_option]. unfold ret at 1. cbv iota beta.
  unfold bind at 1. unfold evaluateResponse.
  rewrite frame_fields_frame;
    [|discriminate|discriminate|assumption|reflexivity|reflexivity
     |assumption|simpl; lia|simpl; lia|assumption].
  change (evaluateFields (str "ACK") (str "0")
            (handshake_value version suffix)) with (true, true).
  cbn [of_option fst snd]. unfold ret at 1. cbv iota beta.
  unfold bind at 1. unfold modify at 1. cbv iota beta.
  unfold bind at 1. unfold bind at 1.
  rewrite contact_actions_value by assumption.
  cbn [of_option]. unfold ret at 1. cbv iota beta.
  destruct suffix as [n|]; eexists; (split; [reflexivity|]);
    repeat split; reflexivity.
Qed.

End DriverFacts.

(** ** Opening and closing exclude each other *)

Section Exclusion.

Context {dome_base : DomeBase} {header : Header}.

(** A call keeps the motion flags exclusive. *)
Definition keeps_exclusive (s s' : RollOffIno) : Prop :=
  motion_exclusive s -> motion_exclusive s'.

Lemma keeps_exclusive_refl s : keeps_exclusive s s.
Proof. intros H. exact H. Qed.

Lemma keeps_exclusive_trans a b c :
  keeps_exclusive a b -> keeps_exclusive b c -> keeps_exclusive a c.
Proof. intros H1 H2 H. apply H2, H1, H. Qed.

Create HintDb exclusive discriminated.

(** An assignment that leaves both flags alone, clears one, or sets one and
    clears the other. *)
Lemma exclusive_modify (f : RollOffIno -> RollOffIno) :
  (forall s, (roofOpening (f s) = roofOpening s
              \/ roofOpening (f s) = false \/ roofClosing (f s) = false)
             /\ (roofClosing (f s) = roofClosing s
                 \/ roofClosing (f s) = false
                 \/ roofOpening (f s) = false)) ->
  respects keeps_exclusive (modify f).
Proof.
  intros Hf. apply respects_modify. intros s. specialize (Hf s).
  unfold keeps_exclusive, motion_exclusive.
  destruct (roofOpening s), (roofClosing s),
    (roofOpening (f s)), (roofClosing (f s));
    cbn; intuition congruence.
Qed.

Ltac exclusive :=
  respects_split keeps_exclusive_refl keeps_exclusive_trans
    ltac:(first [ solve [auto with exclusive nocore]
                | apply exclusive_modify; intros; cbn; solve [auto] ]).

Lemma exclusive_on_base f : respects keeps_exclusive (on_base f).
Proof. unfold on_base. exclusive. Qed.

Lemma exclusive_count_error : respects keeps_exclusive count_error.
Proof. unfold count_error. exclusive. Qed.

Lemma exclusive_readIno_m : respects keeps_exclusive readIno_m.
Proof.
  intros s a s' H. unfold readIno_m in H.
  destruct (readIno _ _ _) as [[[[ok buf] l] e]|]; [|discriminate].
  injection H as _ <-. intros E. exact E.
Qed.

Lemma exclusive_writeIno_m msg : respects keeps_exclusive (writeIno_m msg).
Proof.
  intros s a s' H. unfold writeIno_m in H.
  destruct (writeIno msg (line s)) as [ok l].
  injection H as _ <-. intros E. exact E.
Qed.

#[local] Hint Resolve exclusive_on_base exclusive_count_error
  exclusive_readIno_m exclusive_writeIno_m : exclusive.

Lemma exclusive_readRoofSwitch id r :
  respects keeps_exclusive (readRoofSwitch id r).
Proof. unfold readRoofSwitch. exclusive. Qed.

#[local] Hint Resolve exclusive_readRoofSwitch : exclusive.

Lemma exclusive_getFullOpenedLimitSwitch r :
  respects keeps_exclusive (getFullOpenedLimitSwitch r).
Proof. unfold getFullOpenedLimitSwitch. exclusive. Qed.

Lemma exclusive_getFullClosedLimitSwitch r :
  respects keeps_exclusive (getFullClosedLimitSwitch r).
Proof. unfold getFullClosedLimitSwitch. exclusive. Qed.

Lemma exclusive_getRoofLockedSwitch r :
  respects keeps_exclusive (getRoofLockedSwitch r).
Proof. unfold getRoofLockedSwitch. exclusive. Qed.

Lemma exclusive_getRoofAuxSwitch r :
  respects keeps_exclusive (getRoofAuxSwitch r).
Proof. unfold getRoofAuxSwitch. exclusive. Qed.

Lemma exclusive_getActionSwitch action r :
  respects keeps_exclusive (getActionSwitch action r).
Proof. unfold getActionSwitch, actionSwitchUsed. exclusive. Qed.

#[local] Hint Resolve exclusive_getFullOpenedLimitSwitch
  exclusive_getFullClosedLimitSwitch exclusive_getRoofLockedSwitch
  exclusive_getRoofAuxSwitch exclusive_getActionSwitch : exclusive.

(** The status lights: a limit switch that reads on clears the flag of the
    motion towards it, nothing sets a flag. *)
Lemma roof_lights_flags aux locked opened closed (s : RollOffIno) :
  (roofOpening (roof_lights aux locked opened closed s) = roofOpening s
   \/ roofOpening (roof_lights aux locked opened closed s) = false)
  /\ (roofClosing (roof_lights aux locked opened closed s) = roofClosing s
      \/ roofClosing (roof_lights aux locked opened closed s) = false).
Proof.
  unfold roof_lights.
  destruct locked, opened, closed, (roofOpening s) eqn:O,
    (roofClosing s) eqn:C, (roofTimedOut s);
    cbn; rewrite ?O, ?C; auto.
Qed.

Lemma exclusive_updateRoofStatus : respects keeps_exclusive updateRoofStatus.
Proof.
  unfold updateRoofStatus. exclusive.
  apply exclusive_modify. intros s.
  destruct (roof_lights_flags (snd a2) (snd a1) (snd a) (snd a0) s)
    as [[H1|H1] [H2|H2]]; auto.
Qed.

Lemma exclusive_action_reads n :
  forall i, respects keeps_exclusive (action_reads i n).
Proof.
  induction n as [|n IH]; intros i; cbn [action_reads]; exclusive.
Qed.

Lemma action_lights_flags n :
  forall i (s : RollOffIno),
    roofOpening (action_lights i n s) = roofOpening s
    /\ roofClosing (action_lights i n s) = roofClosing s.
Proof.
  induction n as [|n IH]; intros i s; cbn [action_lights]; [auto|].
  destruct (IH (S i)
              (if nth i (actionState s) false
               then set_ActionStatusLP IPS_OK
                      (set_ActionStatusL
                         (set_nth i IPS_OK (ActionStatusL s)) s)
               else s)) as [H1 H2].
  rewrite H1, H2. destruct (nth i (actionState s) false); auto.
Qed.

#[local] Hint Resolve exclusive_updateRoofStatus exclusive_action_reads
  : exclusive.

Lemma exclusive_updateActionStatus :
  respects keeps_exclusive updateActionStatus.
Proof.
  unfold updateActionStatus. exclusive.
  apply exclusive_modify. intros s.
  destruct (action_lights_flags (Z.to_nat MAX_ACTIONS) 0 s) as [H1 H2].
  auto.
Qed.

#[local] Hint Resolve exclusive_updateActionStatus : exclusive.

Lemma exclusive_checkConditions : respects keeps_exclusive checkConditions.
Proof. unfold checkConditions. exclusive. Qed.

Lemma exclusive_pushRoofButton button on ignoreLock :
  respects keeps_exclusive (pushRoofButton button on ignoreLock).
Proof. unfold pushRoofButton. exclusive. Qed.

#[local] Hint Resolve exclusive_checkConditions exclusive_pushRoofButton
  : exclusive.

Lemma exclusive_roofOpen : respects keeps_exclusive roofOpen.
Proof. unfold roofOpen. exclusive. Qed.

Lemma exclusive_roofClose : respects keeps_exclusive roofClose.
Proof. unfold roofClose. exclusive. Qed.

Lemma exclusive_roofAbort : respects keeps_exclusive roofAbort.
Proof. unfold roofAbort. exclusive. Qed.

Lemma exclusive_setRoofLock on : respects keeps_exclusive (setRoofLock on).
Proof. unfold setRoofLock. exclusive. Qed.

Lemma exclusive_setRoofAux on : respects keeps_exclusive (setRoofAux on).
Proof. unfold setRoofAux. exclusive. Qed.

Lemma exclusive_setAction action on :
  respects keeps_exclusive (setAction action on).
Proof. unfold setAction, actionCmdUsed. exclusive. Qed.

#[local] Hint Resolve exclusive_roofOpen exclusive_roofClose
  exclusive_roofAbort : exclusive.

Lemma exclusive_Move_direction dir :
  respects keeps_exclusive (Move_direction dir).
Proof. unfold Move_direction. exclusive. Qed.

#[local] Hint Resolve exclusive_Move_direction : exclusive.

Lemma exclusive_Move dir operation now :
  respects keeps_exclusive (Move dir operation now).
Proof. unfold Move. exclusive. Qed.

Lemma exclusive_Abort : respects keeps_exclusive Abort.
Proof. unfold Abort. exclusive. Qed.

Lemma exclusive_initProperties : respects keeps_exclusive initProperties.
Proof. unfold initProperties. exclusive. Qed.

Lemma exclusive_TimerHit_moving timeleft :
  respects keeps_exclusive (TimerHit_moving timeleft).
Proof. unfold TimerHit_moving. exclusive. Qed.

#[local] Hint Resolve exclusive_initProperties exclusive_TimerHit_moving
  : exclusive.

Lemma exclusive_TimerHit now : respects keeps_exclusive (TimerHit now).
Proof. unfold TimerHit. exclusive. Qed.

Lemma exclusive_initialContact : respects keeps_exclusive initialContact.
Proof. unfold initialContact. exclusive. Qed.

#[local] Hint Resolve exclusive_initialContact : exclusive.

Lemma exclusive_Handshake : respects keeps_exclusive Handshake.
Proof. unfold Handshake. exclusive. Qed.

Lemma exclusive_step s s' : step s s' -> keeps_exclusive s s'.
Proof.
  intros H. destruct H as [b l s | dir operation now s r s' H | s r s' H
                          | now s r s' H | s r s' H | s r s' H | s r s' H
                          | s r s' H | on s r s' H | on s r s' H
                          | action on s r s' H].
  - intros E. exact E.
  - exact (exclusive_Move _ _ _ _ _ _ H).
  - exact (exclusive_Abort _ _ _ H).
  - exact (exclusive_TimerHit _ _ _ _ H).
  - exact (exclusive_updateRoofStatus _ _ _ H).
  - exact (exclusive_updateActionStatus _ _ _ H).
  - exact (exclusive_checkConditions _ _ _ H).
  - exact (exclusive_Handshake _ _ _ H).
  - exact (exclusive_setRoofLock _ _ _ _ H).
  - exact (exclusive_setRoofAux _ _ _ _ H).
  - exact (exclusive_setAction _ _ _ _ _ H).
Qed.

(** C2: in every state the driver object can reach from its initial state,
    by calls of [Move], [Abort], [TimerHit] and its other member functions
    and by changes of the world around it, [roofOpening] and [roofClosing]
    are not both true. *)
Theorem opening_closing_exclusive (s : RollOffIno) :
  reachable s -> ~ (roofOpening s = true /\ roofClosing s = true).
Proof.
  intros H. assert (E : motion_exclusive s).
  { induction H as [b l|s s' _ IH Hstep].
    - reflexivity.
    - exact (exclusive_step s s' Hstep IH). }
  unfold motion_exclusive in E. intros [O C]. rewrite O, C in E.
  discriminate E.
Qed.

End Exclusion.

Lemma opening_closing_exclusive_witness :
  ~ (roofOpening demo_opening = true /\ roofClosing demo_opening = true).
Proof.
  apply (@opening_closing_exclusive demo_dome demo_header).
  apply (reachable_step
           (@initial demo_dome demo_simulated (mkSerial [] [] []))).
  - apply reachable_initial.
  - apply (step_Move DOME_CW MOTION_START 0 _ IPS_BUSY).
    vm_compute. reflexivity.
Defined.

(** ** The lock switch *)

Section Lock.

Context {dome_base : DomeBase} {header : Header}.

(** A call hands nothing but status queries to the line. *)
Definition queries_only (s s' : RollOffIno) : Prop :=
  exists queries,
    tx (line s') = tx (line s) ++ queries
    /\ Forall (fun f => sent_verb f = str "GET") queries.

Lemma queries_only_refl s : queries_only s s.
Proof. exists []. split; [symmetry; apply app_nil_r | constructor]. Qed.

Lemma queries_only_trans a b c :
  queries_only a b -> queries_only b c -> queries_only a c.
Proof.
  intros (q1 & E1 & F1) (q2 & E2 & F2). exists (q1 ++ q2). split.
  - rewrite E2, E1, app_assoc. reflexivity.
  - apply Forall_app. split; assumption.
Qed.

Lemma queries_modify (f : RollOffIno -> RollOffIno) :
  (forall s, line (f s) = line s) -> respects queries_only (modify f).
Proof.
  intros Hf. apply respects_modify. intros s. exists [].
  rewrite Hf, app_nil_r. split; [reflexivity | constructor].
Qed.

Lemma queries_readIno_m : respects queries_only readIno_m.
Proof.
  intros s a s' H. unfold readIno_m, readIno in H.
  destruct (readIno_loop _ _ _ _) as [[[[ok buf] l] e]|] eqn:E;
    [|discriminate].
  injection H as _ <-. apply readIno_loop_effect in E as (_ & _ & Ht).
  exists []. cbn. rewrite Ht, app_nil_r. split; [reflexivity | constructor].
Qed.

Lemma queries_writeIno_m msg :
  sent_verb msg = str "GET" -> respects queries_only (writeIno_m msg).
Proof.
  intros Hm s a s' H. unfold writeIno_m, writeIno, tty_write_string in H.
  destruct (strlen msg >=? MAXINOLINE).
  - injection H as _ <-. exists []. cbn. rewrite app_nil_r.
    split; [reflexivity | constructor].
  - destruct (wr (line s)) as [|[err|] rest]; injection H as _ <-;
      exists [msg]; cbn; (split; [reflexivity | repeat constructor; exact Hm]).
Qed.

Ltac queries :=
  respects_split queries_only_refl queries_only_trans
    ltac:(first [ solve [auto with queries nocore]
                | apply queries_modify; intros; reflexivity
                | apply queries_writeIno_m; reflexivity ]).

Create HintDb queries discriminated.

#[local] Hint Resolve queries_readIno_m : queries.

Lemma queries_readRoofSwitch id r :
  respects queries_only (readRoofSwitch id r).
Proof.
  unfold readRoofSwitch, strcpy.
  destruct (strlen (str "(GET:" ++ id ++ str ":0)") <? MAXINOLINE);
    cbn [of_option]; queries.
Qed.

#[local] Hint Resolve queries_readRoofSwitch : queries.

Lemma queries_updateRoofStatus : respects queries_only updateRoofStatus.
Proof.
  unfold updateRoofStatus, getFullOpenedLimitSwitch,
    getFullClosedLimitSwitch, getRoofLockedSwitch, getRoofAuxSwitch,
    count_error.
  queries.
  apply queries_modify. intros s. unfold roof_lights.
  repeat match goal with
         | |- context [if ?b then _ else _] => destruct b
         | |- context [match ?x with _ => _ end] => destruct x
         end; reflexivity.
Qed.

(** C1, amended: when the lock switch reads on after the status update that
    opens [Move] and [Abort], a request to open, a request to close and an
    abort are refused: [Move] returns [IPS_ALERT], [Abort] returns at once,
    and the object is left as the status update left it.  No [SET] frame is
    sent; the frames handed to the line are the status queries ([GET]) of
    that status update. *)
Theorem lock_refuses_motion (s s1 : RollOffIno) :
  updateRoofStatus s = Some (tt, s1) ->
  roofLockedSwitch s1 = ISS_ON ->
  (forall dir now, Move dir MOTION_START now s = Some (IPS_ALERT, s1))
  /\ Abort s = Some (true, s1)
  /\ exists queries,
       tx (line s1) = tx (line s) ++ queries
       /\ Forall (fun f => sent_verb f = str "GET") queries.
Proof.
  intros Hu Hl. split; [|split].
  - intros dir now. unfold Move. unfold bind at 1. rewrite Hu.
    unfold bind at 1, get. rewrite Hl. reflexivity.
  - unfold Abort. unfold bind at 1. rewrite Hu.
    unfold bind at 1, get. cbv beta iota.
    unfold bind at 1. cbv beta iota. unfold bind at 1. cbv beta iota.
    rewrite Hl. reflexivity.
  - exact (queries_updateRoofStatus _ _ _ Hu).
Qed.

End Lock.

(** C1, the claim as stated fails: with the lock on, a request to open is
    refused, yet four frames went to the line: the status queries by which
    the driver learns that the lock is on. *)
Lemma lock_on_move_sends_queries :
  tx (line demo_locked_roof) = []
  /\ exists s',
       @Move demo_dome demo_header DOME_CW MOTION_START 0 demo_locked_roof
       = Some (IPS_ALERT, s')
       /\ roofLockedSwitch s' = ISS_ON
       /\ tx (line s')
          = [str "(GET:OPENED:0)"; str "(GET:CLOSED:0)";
             str "(GET:LOCKED:0)"; str "(GET:AUXSTATE:0)"].
Proof.
  split; [reflexivity|]. eexists. split; [vm_compute; reflexivity|].
  split; reflexivity.
Qed.

Lemma lock_refuses_motion_witness :
  @updateRoofStatus demo_dome demo_header demo_locked_roof
  = Some (tt, demo_locked_status)
  /\ roofLockedSwitch demo_locked_status = ISS_ON
  /\ @Move demo_dome demo_header DOME_CCW MOTION_START 0 demo_locked_roof
     = Some (IPS_ALERT, demo_locked_status)
  /\ @Abort demo_dome demo_header demo_locked_roof
     = Some (true, demo_locked_status).
Proof.
  assert (Hu : @updateRoofStatus demo_dome demo_header demo_locked_roof
               = Some (tt, demo_locked_status))
    by (vm_compute; reflexivity).
  assert (Hl : roofLockedSwitch demo_locked_status = ISS_ON)
    by (vm_compute; reflexivity).
  destruct (@lock_refuses_motion demo_dome demo_header demo_locked_roof
              demo_locked_status Hu Hl) as (HM & HA & _).
  split; [exact Hu|]. split; [exact Hl|].
  split; [apply HM | exact HA].
Defined.

Lemma initialContact_action_count_witness :
  exists s',
    @initialContact demo_dome (demo_connected_roof "(ACK:0:V1.3-0[ACT4])")
    = Some (true, s')
    /\ contactEstablished s' = true
    /\ actionCount s' = 4
    /\ tx (line s') = [str "(CON:0:0)"]
    /\ rx (line s') = [].
Proof.
  apply (@initialContact_action_count demo_dome (str "V1.3-0") (Some 4%nat)
           [] (demo_connected_roof "(ACK:0:V1.3-0[ACT4])")).
  - discriminate.
  - reflexivity.
  - reflexivity.
  - vm_compute. lia.
  - reflexivity.
  - vm_compute. reflexivity.
Defined.

(** C9, where the claim as it stands fails.  A bracketed suffix is not
    compared with the letters "ACT": the text between the first 'T' behind
    the bracket and the next ']' is read as the number, so the answer
    "(ACK:0:V1[xT7])" gives seven actions, not zero.  And a value of sixteen
    characters with the suffix "[ACT4]", in a frame that the reader and
    [evaluateResponse] accept, does not fit the buffer [target] of
    [initialContact]: the copy runs over its end and the call has no defined
    result, so no count of four. *)
Lemma other_suffix_counts_actions :
  (exists s',
      @initialContact demo_dome (demo_connected_roof "(ACK:0:V1[xT7])")
      = Some (true, s')
      /\ contactEstablished s' = true /\ actionCount s' = 7)
  /\ length (str "V1.3-0-202[ACT4]") = 16%nat
  /\ option_map fst
       (@readIno_m demo_dome
          (demo_connected_roof "(ACK:0:V1.3-0-202[ACT4])"))
     = Some (true, str "(ACK:0:V1.3-0-202[ACT4])")
  /\ evaluateResponse (str "(ACK:0:V1.3-0-202[ACT4])") = Some (true, true)
  /\ @initialContact demo_dome
       (demo_connected_roof "(ACK:0:V1.3-0-202[ACT4])")
     = None.
Proof.
  split.
  - eexists. split; [vm_compute; reflexivity|]. split; reflexivity.
  - repeat split; vm_compute; reflexivity.
Qed.

(** ** The error count *)

Section Errors.

Context {dome_base : DomeBase} {header : Header}.

Lemma readIno_m_errors (s : RollOffIno) ok buf s' :
  readIno_m s = Some ((ok, buf), s') ->
  communicationErrors s'
  = (if ok then communicationErrors s
     else incr_errors (communicationErrors s)).
Proof.
  unfold readIno_m, readIno. intros H.
  destruct (readIno_loop _ _ _ _) as [[[[ok' b] l] e]|] eqn:E;
    [|discriminate].
  injection H as <- _ <-. apply readIno_loop_effect in E as (-> & _).
  reflexivity.
Qed.

Lemma writeIno_m_errors msg (s : RollOffIno) ok s' :
  writeIno_m msg s = Some (ok, s') ->
  communicationErrors s' = communicationErrors s.
Proof.
  unfold writeIno_m. destruct (writeIno msg (line s)) as [w l].
  intros H. injection H as _ <-. reflexivity.
Qed.

Ltac bind_inv H :=
  let a := fresh "a" in
  let s1 := fresh "s" in
  let H1 := fresh "H" in
  apply bind_Some in H; destruct H as (a & s1 & H1 & H).

(** A switch read that succeeds leaves the error count as it found it:
    nothing resets the count on a success. *)
Lemma readRoofSwitch_success_errors id r (s : RollOffIno) b s' :
  readRoofSwitch id r s = Some ((true, b), s') ->
  communicationErrors s' = communicationErrors s.
Proof.
  unfold readRoofSwitch. intros H.
  bind_inv H. injection H0 as <- <-.
  destruct (negb (contactEstablished s)); [discriminate H|].
  bind_inv H. apply of_option_Some in H0 as [_ ->].
  bind_inv H. apply writeIno_m_errors in H0.
  destruct (negb a0); [discriminate H|].
  bind_inv H. destruct a1 as [ok buf].
  apply readIno_m_errors in H1.
  destruct ok; cbn [negb] in H; [|discriminate H].
  apply of_option_Some in H as [_ ->]. congruence.
Qed.



Lemma readRoofSwitch_run id r v t x rest (s : RollOffIno) :
  contactEstablished s = true ->
  strlen id <= 15 ->
  wr (line s) = [] ->
  v <> [] -> t <> [] -> x <> [] ->
  forallb plain v = true -> forallb plain t = true ->
  forallb plain x = true ->
  (length v <= 8)%nat -> (length t <= 15)%nat ->
  (length v + length t <= 17)%nat ->
  (length (frame v t x) <= 126)%nat ->
  rx (line s) = bytes (frame v t x) ++ rest ->
  readRoofSwitch id r s
  = Some (evaluateFields v t x,
          set_communicationErrors (communicationErrors s)
            (set_line
               (mkSerial rest []
                  (tx (line s) ++ [str "(GET:" ++ id ++ str ":0)"])) s)).
Proof.
  intros Hc Lid Hw Nv Nt Nx Hv Ht Hx Lv Lt Lvt L Hrx.
  assert (Lmsg : strlen (str "(GET:" ++ id ++ str ":0)") <= 62).
  { unfold strlen in *. rewrite !length_app. simpl length. lia. }
  unfold readRoofSwitch. unfold bind at 1, get. rewrite Hc. cbn [negb].
  unfold strcpy.
  replace (strlen (str "(GET:" ++ id ++ str ":0)") <? MAXINOLINE) with true
    by (symmetry; apply Z.ltb_lt; unfold MAXINOLINE; lia).
  cbn [of_option]. unfold bind at 1, ret at 1.
  unfold bind at 1.
  rewrite writeIno_m_run; [|exact Lmsg|rewrite Hw; reflexivity].
  cbn [negb]. unfold bind at 1.
  rewrite (readIno_m_frame v t x rest); try assumption.
  cbn [negb]. unfold evaluateResponse.
  rewrite frame_fields_frame by (assumption || lia).
  cbn [of_option]. unfold ret. rewrite Hw. reflexivity.
Qed.

(** C6, amended: the frame "(NAK:SET_ROOF_OPEN:BUSY)" is read as a valid
    frame and evaluated as a negative acknowledgement, and the error count
    stays as it was; but the actuation call [pushRoofButton] returns the
    status of the read, which is success. *)
Theorem nak_is_not_an_error button t rest (s : RollOffIno) :
  contactEstablished s = true ->
  isSimulation (base s) = false ->
  strlen ROOF_LOCKED_SWITCH <= 15 ->
  strlen button <= 15 ->
  switch_target t ->
  wr (line s) = [] ->
  rx (line s)
  = bytes (frame (str "ACK") t (str "OFF"))
    ++ bytes (str "(NAK:SET_ROOF_OPEN:BUSY)") ++ rest ->
  evaluateResponse (str "(NAK:SET_ROOF_OPEN:BUSY)") = Some (false, false)
  /\ exists s',
       pushRoofButton button true false s = Some (true, s')
       /\ communicationErrors s' = communicationErrors s
       /\ rx (line s') = rest
       /\ tx (line s')
          = tx (line s)
            ++ [str "(GET:" ++ ROOF_LOCKED_SWITCH ++ str ":0)";
                str "(SET:" ++ button ++ str ":ON)"].
Proof.
  intros Hc Hsim Llock Lbtn (Nt & Pt & Lt & T0) Hw Hrx.
  split; [reflexivity|].
  assert (Lmsg : strlen (str "(SET:" ++ button ++ str ":ON)") <= 62).
  { unfold strlen in *. rewrite !length_app. simpl length. lia. }
  unfold pushRoofButton. unfold bind at 1, get. rewrite Hc. cbn [negb].
  unfold bind at 1. unfold getRoofLockedSwitch.
  unfold bind at 1, get. rewrite Hsim.
  unfold bind at 1.
  rewrite (readRoofSwitch_run ROOF_LOCKED_SWITCH false (str "ACK") t
             (str "OFF") (bytes (str "(NAK:SET_ROOF_OPEN:BUSY)") ++ rest));
    try assumption; try discriminate; try reflexivity;
    [|simpl; lia|lia|simpl; lia|rewrite frame_length; simpl; lia].
  replace (evaluateFields (str "ACK") t (str "OFF")) with (true, false).
  2:{ unfold evaluateFields, strcmp0, text_eqb.
      destruct (list_eq_dec ascii_dec t (str "0")); [contradiction|].
      reflexivity. }
  unfold bind at 1, modify at 1. unfold ret at 1.
  cbn [andb negb orb].
  unfold strcpy.
  replace (strlen (str "(SET:" ++ button ++ str ":ON)") <? MAXINOBUF)
    with true
    by (symmetry; apply Z.ltb_lt; unfold MAXINOBUF; lia).
  cbn [of_option]. unfold bind at 1, ret at 1.
  unfold bind at 1.
  rewrite writeIno_m_run; [|exact Lmsg|reflexivity].
  cbn [negb]. unfold bind at 1.
  rewrite (readIno_m_frame (str "NAK") (str "SET_ROOF_OPEN") (str "BUSY")
             rest); try reflexivity; [|simpl; lia..].
  unfold bind at 1. cbn [fst snd].
  change (evaluateResponse
            (frame (str "NAK") (str "SET_ROOF_OPEN") (str "BUSY")))
    with (Some (false, false)).
  cbn [of_option]. unfold ret.
  eexists. split; [reflexivity|].
  cbn. rewrite <- app_assoc. auto.
Qed.

End Errors.

(** C4, as the code has it: with three errors counted, a switch read that
    succeeds with a valid frame leaves the count at three.  Only [TimerHit]
    sets the count back to zero, once it has passed the threshold. *)
Theorem successful_read_keeps_error_count :
  communicationErrors demo_three_errors = 3
  /\ exists s',
       @readRoofSwitch demo_dome (@ROOF_OPENED_SWITCH demo_header) false
         demo_three_errors
       = Some ((true, true), s')
       /\ communicationErrors s' = 3.
Proof.
  split; [reflexivity|].
  eexists. split; [vm_compute; reflexivity | reflexivity].
Qed.





(** C6, the claim as stated fails: the actuation call that receives the
    negative acknowledgement returns true. *)
Lemma nak_actuation_returns_success :
  exists s',
    @pushRoofButton demo_dome demo_header (@ROOF_OPEN_CMD demo_header)
      true false demo_busy_roof
    = Some (true, s')
    /\ communicationErrors s' = communicationErrors demo_busy_roof.
Proof. eexists. split; [vm_compute; reflexivity | reflexivity]. Qed.

Lemma nak_is_not_an_error_witness :
  evaluateResponse (str "(NAK:SET_ROOF_OPEN:BUSY)") = Some (false, false)
  /\ exists s',
       @pushRoofButton demo_dome demo_header (str "OPEN") true false
         demo_busy_roof
       = Some (true, s')
       /\ communicationErrors s' = communicationErrors demo_busy_roof
       /\ rx (line s') = []
       /\ tx (line s')
          = tx (line demo_busy_roof)
            ++ [str "(GET:" ++ @ROOF_LOCKED_SWITCH demo_header ++ str ":0)";
                str "(SET:" ++ str "OPEN" ++ str ":ON)"].
Proof.
  apply (@nak_is_not_an_error demo_dome demo_header (str "OPEN")
           (str "LOCKED") [] demo_busy_roof).
  - reflexivity.
  - reflexivity.
  - vm_compute. discriminate.
  - vm_compute. discriminate.
  - unfold switch_target. repeat split; try discriminate; try reflexivity.
    simpl. lia.
  - reflexivity.
  - vm_compute. reflexivity.
Defined.

(** * Further properties of the protocol and of the motion logic *)

(** ** The frame reader stays inside its buffer *)

Lemma store_length i c :
  forall buf buf', store i c buf = Some buf' -> length buf' = length buf.
Proof.
  induction i as [|i IH]; intros [|b tl] buf' H; try discriminate H.
  - injection H as <-. reflexivity.
  - change (store (S i) c (b :: tl))
      with (match store i c tl with
            | Some tl' => Some (b :: tl')
            | None => None
            end) in H.
    destruct (store i c tl) as [tl'|] eqn:E; [|discriminate H].
    injection H as <-. simpl. f_equal. exact (IH _ _ E).
Qed.

Lemma store_defined i c :
  forall buf, (i < length buf)%nat -> exists buf', store i c buf = Some buf'.
Proof.
  induction i as [|i IH]; intros [|b tl] H; simpl in H; try lia.
  - eexists. reflexivity.
  - destruct (IH tl) as (tl' & E); [lia|].
    exists (b :: tl').
    change (store (S i) c (b :: tl))
      with (match store i c tl with
            | Some tl' => Some (b :: tl')
            | None => None
            end).
    rewrite E. reflexivity.
Qed.

Lemma cstr_store_nul i :
  forall buf buf',
    store i NUL buf = Some buf' -> (length (cstr buf') <= i)%nat.
Proof.
  induction i as [|i IH]; intros [|b tl] buf' H; try discriminate H.
  - injection H as <-. simpl. lia.
  - change (store (S i) NUL (b :: tl))
      with (match store i NUL tl with
            | Some tl' => Some (b :: tl')
            | None => None
            end) in H.
    destruct (store i NUL tl) as [tl'|] eqn:E; [|discriminate H].
    injection H as <-. simpl. destruct (Ascii.eqb b NUL); simpl; [lia|].
    specialize (IH _ _ E). lia.
Qed.

Lemma strcpy_over_length buf s buf' :
  strcpy_over buf s = Some buf' -> length buf' = length buf.
Proof.
  unfold strcpy_over. destruct (Nat.ltb_spec (length s) (length buf));
    [|discriminate].
  intros H'. injection H' as <-.
  destruct buf as [|b tl]; [simpl in *; lia|].
  rewrite length_app. cbn [length] in *. rewrite length_skipn. lia.
Qed.

(** What holds of the loop variables at the head of every round. *)
Definition loop_in_bounds (st : ReadLoop) : Prop :=
  length (retBuf st) = 255%nat
  /\ 0 <= totalCount st <= 126
  /\ 0 <= retCount st <= 1
  /\ (if startFound st
      then Z.of_nat (bufPtr st) + retCount st = totalCount st
      else bufPtr st = 0%nat /\ totalCount st = 0).

Lemma probe_total s e n d : probe s e n d = false -> n < 127.
Proof.
  unfold probe, MAXINOVAL. intros H.
  destruct (Z.geb_spec n 127) as [G|G]; [discriminate H | exact G].
Qed.

Lemma readIno_loop_in_bounds events :
  forall line st e,
    loop_in_bounds st ->
    exists ok buf line' e',
      readIno_loop events line st e = Some (ok, buf, line', e')
      /\ length buf = 255%nat
      /\ (ok = true -> (length (cstr buf) <= 126)%nat).
Proof.
  induction events as [|ev rest IH]; intros line st e (HL & HT & HR & HS).
  - simpl. do 4 eexists. split; [reflexivity|]. split; [exact HL|].
    discriminate.
  - set (at_ := if startFound st
                then (bufPtr st + Z.to_nat (retCount st))%nat
                else bufPtr st).
    assert (Hat : if startFound st
                  then Z.of_nat at_ = totalCount st
                  else at_ = 0%nat).
    { unfold at_. destruct (startFound st); [lia | tauto]. }
    assert (Hle : (at_ <= 126)%nat) by (destruct (startFound st); lia).
    destruct ev as [c| |err].
    + simpl. fold at_.
      destruct (store_defined at_ c (retBuf st)) as (b1 & E1); [lia|].
      rewrite E1. pose proof (store_length _ _ _ _ E1) as L1.
      destruct (store_defined (S at_) NUL b1) as (b2 & E2); [lia|].
      pose proof (store_length _ _ _ _ E2) as L2.
      destruct (probe _ _ _ _) eqn:P.
      * rewrite E2.
        destruct (strcpy_over_canned b2) as (b3 & E3 & C3); [lia|].
        rewrite E3. do 4 eexists. split; [reflexivity|].
        split; [rewrite (strcpy_over_length _ _ _ E3); lia | discriminate].
      * apply probe_total in P.
        assert (Hnext : Z.of_nat (S at_) <= 126).
        { destruct (startFound st); cbn [orb] in P; lia. }
        destruct (endFound st || _).
        -- rewrite E2. do 4 eexists. split; [reflexivity|].
           split; [lia|]. intros _.
           pose proof (cstr_store_nul _ _ _ E2). lia.
        -- apply IH. unfold loop_in_bounds.
           cbn [retBuf totalCount retCount startFound bufPtr].
           split; [lia|].
           destruct (startFound st); cbn [orb] in *.
           ++ repeat split; lia.
           ++ destruct (Ascii.eqb c "("%char); repeat split; lia.
    + simpl. fold at_. apply IH. unfold loop_in_bounds.
      cbn [retBuf totalCount retCount startFound bufPtr].
      destruct (startFound st); repeat split; lia.
    + simpl. do 4 eexists. split; [reflexivity|]. split; [exact HL|].
      discriminate.
Qed.

(** X1: whatever arrives on the line, [readIno] stays inside the 255 bytes
    its callers give it (no store outside the buffer, so the call is
    defined), and a string it returns with success has at most 126
    characters, which fits every buffer [evaluateResponse] copies it to. *)
Theorem readIno_stays_in_buffer line e :
  exists ok buf line' e',
    readIno (zeroed 255) line e = Some (ok, buf, line', e')
    /\ length buf = 255%nat
    /\ (ok = true -> (length (cstr buf) <= 126)%nat)
    /\ e' = (if ok then e else incr_errors e).
Proof.
  unfold readIno.
  destruct (readIno_loop_in_bounds (rx line) line
              (readIno_start (zeroed 255)) e)
    as (ok & buf & line' & e' & H & L & B).
  { unfold loop_in_bounds. cbn. repeat split; lia. }
  exists ok, buf, line', e'. repeat split; try assumption.
  apply readIno_loop_effect in H. tauto.
Qed.

(** ** Bytes around a frame *)

(** X2: any number of bytes other than the delimiters in front of a
    well-formed frame are discarded: the reader returns the frame alone, with
    success and without counting an error. *)
Theorem leading_bytes_are_discarded junk v t x rest w txs e :
  forallb plain junk = true ->
  forallb plain v = true -> forallb plain t = true ->
  forallb plain x = true ->
  (length v <= 8)%nat -> (length v + length t <= 17)%nat ->
  (length (frame v t x) <= 126)%nat ->
  readIno (zeroed 255)
    (mkSerial (bytes junk ++ bytes (frame v t x) ++ rest) w txs) e
  = Some (true, frame v t x ++ zeroed (255 - length (frame v t x)),
          mkSerial rest w txs, e).
Proof.
  intros Hj Hv Ht Hx Lv Lt L.
  rewrite <- (readIno_accepts v t x rest w txs e) by assumption.
  change (zeroed 255) with (NUL :: zeroed 254).
  unfold frame. rewrite bytes_cons.
  apply readIno_skips_leading. exact Hj.
Qed.

Lemma leading_bytes_are_discarded_witness :
  readIno (zeroed 255)
    (mkSerial (bytes (str "noise") ++ bytes (frame (str "ACK") (str "OPENED")
                                               (str "ON")) ++ []) [] []) 7
  = Some (true,
          frame (str "ACK") (str "OPENED") (str "ON")
            ++ zeroed (255 - length (frame (str "ACK") (str "OPENED")
                                       (str "ON"))),
          mkSerial [] [] [], 7).
Proof.
  apply (leading_bytes_are_discarded (str "noise") (str "ACK") (str "OPENED")
           (str "ON") [] [] [] 7); try reflexivity; vm_compute; lia.
Defined.

Lemma loop_colons_first rest line z0 z e :
  readIno_loop
    (RxByte ":"%char :: RxByte ":"%char :: RxByte "("%char :: rest) line
    (readIno_start (z0 :: z)) e
  = readIno_loop rest line (mid (str "(") 2 z) e.
Proof. reflexivity. Qed.

(** X3: the reader counts colons that arrive before the opening bracket.
    After two of them a bracketed text without any colon is returned with
    success, and [evaluateResponse] finds no second field in it: its second
    [strtok] returns the null pointer, which it copies from. *)
Theorem colons_before_the_bracket_count x rest w txs e :
  x <> [] -> forallb plain x = true -> (length x <= 100)%nat ->
  readIno (zeroed 255)
    (mkSerial (bytes (str "::" ++ "("%char :: x ++ [")"%char]) ++ rest)
       w txs) e
  = Some (true, ("("%char :: x ++ [")"%char]) ++ zeroed (253 - length x),
          mkSerial rest w txs, e)
  /\ evaluateResponse ("("%char :: x ++ [")"%char]) = None.
Proof.
  intros Nx Hx L. split.
  - unfold readIno. cbn [rx].
    replace 255%nat with (S (length x + S (S (252 - length x)))) by lia.
    rewrite zeroed_S.
    change (bytes (str "::" ++ "("%char :: x ++ [")"%char]) ++ rest)
      with (RxByte ":"%char :: RxByte ":"%char :: RxByte "("%char
              :: bytes (x ++ [")"%char]) ++ rest).
    rewrite loop_colons_first, bytes_app, <- app_assoc.
    rewrite loop_plain_run;
      [|discriminate|assumption|apply probe_false; simpl length; lia].
    rewrite !zeroed_S, bytes_cons.
    rewrite loop_close; [|discriminate].
    replace (probe true true _ _) with false
      by (symmetry; apply probe_false; rewrite length_app; simpl length;
          repeat split; intros; lia).
    cbn [wr tx]. do 4 f_equal.
    replace (253 - length x)%nat with (S (252 - length x)) by lia.
    rewrite zeroed_S.
    repeat (progress cbn [app str list_ascii_of_string]
            || rewrite <- app_assoc).
    reflexivity.
  - unfold evaluateResponse, frame_fields.
    destruct (strcpy MAXINOBUF _) as [work|] eqn:E; [|reflexivity].
    unfold strcpy in E.
    destruct (strlen ("("%char :: x ++ [")"%char]) <? MAXINOBUF);
      [|discriminate E].
    injection E as <-.
    assert (Hf : free_of (str "(:") (x ++ [")"%char])).
    { unfold free_of. rewrite forallb_app.
      assert (Hx' : free_of (str "(:") x)
        by (apply plain_free_of; [assumption | reflexivity]).
      unfold free_of in Hx'. rewrite Hx'. reflexivity. }
    replace (strtok ("("%char :: x ++ [")"%char]) (str "(:"))
      with (Some (x ++ [")"%char], @nil ascii)).
    2:{ symmetry. destruct x as [|c x]; [contradiction|].
        pose proof Hf as Hf'. apply free_of_cons in Hf' as [Hc _].
        unfold strtok. cbn [skip_delims app].
        change (is_delim (str "(:") "("%char) with true. cbv iota.
        rewrite Hc.
        change (c :: x ++ [")"%char]) with ((c :: x) ++ [")"%char]).
        rewrite split_token_all by assumption. reflexivity. }
    destruct (strcpy (MAXINOCMD + 1) _); reflexivity.
Qed.

Lemma colons_before_the_bracket_count_witness :
  readIno (zeroed 255)
    (mkSerial (bytes (str "::" ++ "("%char :: str "ACK" ++ [")"%char]) ++ [])
       [] []) 0
  = Some (true,
          ("("%char :: str "ACK" ++ [")"%char])
            ++ zeroed (253 - length (str "ACK")),
          mkSerial [] [] [], 0)
  /\ evaluateResponse ("("%char :: str "ACK" ++ [")"%char]) = None.
Proof.
  apply (colons_before_the_bracket_count (str "ACK") [] [] [] 0).
  - discriminate.
  - reflexivity.
  - vm_compute. lia.
Defined.

(** ** Reading and decoding *)

(** X4: round trip.  Take a verb, a target and a value, none of them empty
    and none holding a delimiter or NUL, the verb of at most 8 characters,
    the target of at most 15 as its buffer in the evaluator holds, verb and
    target of at most 17 together as the budget of the reader allows, and
    the frame built from them of at most 126 bytes.  That frame comes back
    from the line as sent, and cutting it gives the same three fields. *)
Theorem read_then_cut_gives_the_fields v t x rest w txs e :
  v <> [] -> t <> [] -> x <> [] ->
  forallb plain v = true -> forallb plain t = true ->
  forallb plain x = true ->
  (length v <= 8)%nat -> (length t <= 15)%nat ->
  (length v + length t <= 17)%nat ->
  (length (frame v t x) <= 126)%nat ->
  exists buf,
    readIno (zeroed 255) (mkSerial (bytes (frame v t x) ++ rest) w txs) e
    = Some (true, buf, mkSerial rest w txs, e)
    /\ cstr buf = frame v t x
    /\ frame_fields (cstr buf) = Some (v, t, x).
Proof.
  intros Nv Nt Nx Hv Ht Hx Lv Lt Lvt L.
  eexists. split; [apply readIno_accepts; assumption|].
  replace (255 - length (frame v t x))%nat
    with (S (254 - length (frame v t x))) by lia.
  rewrite cstr_terminated by (apply frame_plain; assumption).
  split; [reflexivity|]. apply frame_fields_frame; assumption || lia.
Qed.

Lemma read_then_cut_gives_the_fields_witness :
  exists buf,
    readIno (zeroed 255)
      (mkSerial (bytes (frame (str "ACK") (str "CLOSED") (str "OFF")) ++ [])
         [] []) 0
    = Some (true, buf, mkSerial [] [] [], 0)
    /\ cstr buf = frame (str "ACK") (str "CLOSED") (str "OFF")
    /\ frame_fields (cstr buf)
       = Some (str "ACK", str "CLOSED", str "OFF").
Proof.
  apply (read_then_cut_gives_the_fields (str "ACK") (str "CLOSED")
           (str "OFF") [] [] [] 0);
    try discriminate; try reflexivity; vm_compute; lia.
Defined.

(** X5: what the evaluator makes of a well-formed answer.  With the verb
    "ACK" and a target other than "0" it succeeds and reports the switch on
    exactly when the value is the text "ON"; with the verb "NAK" it fails
    and reports off, whatever target and value are. *)
Theorem evaluateResponse_of_answer v t x :
  v <> [] -> t <> [] -> x <> [] ->
  forallb plain v = true -> forallb plain t = true ->
  forallb plain x = true ->
  (length v <= 15)%nat -> (length t <= 15)%nat ->
  (length (frame v t x) <= 126)%nat ->
  (v = str "ACK" -> t <> str "0" ->
   evaluateResponse (frame v t x) = Some (true, strcmp0 x (str "ON")))
  /\ (v = str "NAK" ->
      evaluateResponse (frame v t x) = Some (false, false)).
Proof.
  intros Nv Nt Nx Hv Ht Hx Lv Lt L.
  unfold evaluateResponse.
  rewrite frame_fields_frame by assumption.
  split.
  - intros -> T0. unfold evaluateFields.
    change (strcmp0 (str "ACK") (str "NAK")) with false.
    change (strcmp0 (str "ACK") (str "ACK")) with true.
    replace (strcmp0 t (str "0")) with false; [reflexivity|].
    unfold strcmp0, text_eqb.
    destruct (list_eq_dec ascii_dec t (str "0")); [contradiction|reflexivity].
  - intros ->. reflexivity.
Qed.

Lemma evaluateResponse_of_answer_witness :
  (str "ACK" = str "ACK" -> str "LOCKED" <> str "0" ->
   evaluateResponse (frame (str "ACK") (str "LOCKED") (str "on"))
   = Some (true, strcmp0 (str "on") (str "ON")))
  /\ (str "ACK" = str "NAK" ->
      evaluateResponse (frame (str "ACK") (str "LOCKED") (str "on"))
      = Some (false, false)).
Proof.
  apply (evaluateResponse_of_answer (str "ACK") (str "LOCKED") (str "on"));
    try discriminate; try reflexivity; vm_compute; lia.
Defined.

(** ** What the member functions leave alone *)

Section Calm.

Context {dome_base : DomeBase} {header : Header}.

Definition calm (s s' : RollOffIno) : Prop :=
  contact_kept s s' /\ flags_only_cleared s s'.

Lemma contact_kept_refl s : contact_kept s s.
Proof. split; reflexivity. Qed.

Lemma contact_kept_trans a b c :
  contact_kept a b -> contact_kept b c -> contact_kept a c.
Proof. intros [A1 A2] [B1 B2]. split; congruence. Qed.

Lemma flags_only_cleared_refl s : flags_only_cleared s s.
Proof. split; auto. Qed.

Lemma flags_only_cleared_trans a b c :
  flags_only_cleared a b -> flags_only_cleared b c ->
  flags_only_cleared a c.
Proof. intros [A1 A2] [B1 B2]. split; auto. Qed.

Lemma calm_refl s : calm s s.
Proof. split; [apply contact_kept_refl | apply flags_only_cleared_refl]. Qed.

Lemma calm_trans a b c : calm a b -> calm b c -> calm a c.
Proof.
  intros [A1 A2] [B1 B2]. split;
    [eapply contact_kept_trans | eapply flags_only_cleared_trans];
    eassumption.
Qed.

Lemma respects_weaken {A : Type} (R R' : RollOffIno -> RollOffIno -> Prop)
  (m : M A) :
  (forall s s', R s s' -> R' s s') -> respects R m -> respects R' m.
Proof. intros HR Hm s a s' H. apply HR. exact (Hm s a s' H). Qed.

(** An assignment to fields other than the handshake state that sets no
    motion flag. *)
Lemma calm_modify (f : RollOffIno -> RollOffIno) :
  (forall s, contactEstablished (f s) = contactEstablished s
             /\ actionCount (f s) = actionCount s
             /\ (roofOpening (f s) = roofOpening s
                 \/ roofOpening (f s) = false)
             /\ (roofClosing (f s) = roofClosing s
                 \/ roofClosing (f s) = false)) ->
  respects calm (modify f).
Proof.
  intros Hf. apply respects_modify. intros s.
  destruct (Hf s) as (C & A & [O|O] & [K|K]);
    repeat split; try assumption; rewrite ?O, ?K; auto; discriminate.
Qed.

Create HintDb calm discriminated.

Ltac calm :=
  respects_split calm_refl calm_trans
    ltac:(first [ solve [auto with calm nocore]
                | apply calm_modify; intros; cbn; solve [auto 6] ]).

Lemma calm_on_base f : respects calm (on_base f).
Proof. unfold on_base. calm. Qed.

Lemma calm_count_error : respects calm count_error.
Proof. unfold count_error. calm. Qed.

Lemma calm_readIno_m : respects calm readIno_m.
Proof.
  intros s a s' H. unfold readIno_m in H.
  destruct (readIno _ _ _) as [[[[ok buf] l] e]|]; [|discriminate].
  injection H as _ <-.
  unfold calm, contact_kept, flags_only_cleared. cbn. auto.
Qed.

Lemma calm_writeIno_m msg : respects calm (writeIno_m msg).
Proof.
  intros s a s' H. unfold writeIno_m in H.
  destruct (writeIno msg (line s)) as [ok l].
  injection H as _ <-.
  unfold calm, contact_kept, flags_only_cleared. cbn. auto.
Qed.

#[local] Hint Resolve calm_on_base calm_count_error calm_readIno_m
  calm_writeIno_m : calm.

Lemma calm_readRoofSwitch id r : respects calm (readRoofSwitch id r).
Proof. unfold readRoofSwitch. calm. Qed.

#[local] Hint Resolve calm_readRoofSwitch : calm.

Lemma calm_getFullOpenedLimitSwitch r :
  respects calm (getFullOpenedLimitSwitch r).
Proof. unfold getFullOpenedLimitSwitch. calm. Qed.

Lemma calm_getFullClosedLimitSwitch r :
  respects calm (getFullClosedLimitSwitch r).
Proof. unfold getFullClosedLimitSwitch. calm. Qed.

Lemma calm_getRoofLockedSwitch r : respects calm (getRoofLockedSwitch r).
Proof. unfold getRoofLockedSwitch. calm. Qed.

Lemma calm_getRoofAuxSwitch r : respects calm (getRoofAuxSwitch r).
Proof. unfold getRoofAuxSwitch. calm. Qed.

Lemma calm_getActionSwitch action r :
  respects calm (getActionSwitch action r).
Proof. unfold getActionSwitch, actionSwitchUsed. calm. Qed.

#[local] Hint Resolve calm_getFullOpenedLimitSwitch
  calm_getFullClosedLimitSwitch calm_getRoofLockedSwitch
  calm_getRoofAuxSwitch calm_getActionSwitch : calm.

Lemma roof_lights_contact aux locked opened closed (s : RollOffIno) :
  contactEstablished (roof_lights aux locked opened closed s)
  = contactEstablished s
  /\ actionCount (roof_lights aux locked opened closed s) = actionCount s.
Proof.
  unfold roof_lights.
  destruct locked, opened, closed, (roofOpening s), (roofClosing s),
    (roofTimedOut s); cbn; auto.
Qed.

Lemma calm_updateRoofStatus : respects calm updateRoofStatus.
Proof.
  unfold updateRoofStatus. calm.
  apply calm_modify. intros s.
  destruct (roof_lights_contact (snd a2) (snd a1) (snd a) (snd a0) s)
    as [C A].
  destruct (roof_lights_flags (snd a2) (snd a1) (snd a) (snd a0) s)
    as [O K].
  auto.
Qed.

Lemma calm_action_reads n : forall i, respects calm (action_reads i n).
Proof. induction n as [|n IH]; intros i; cbn [action_reads]; calm. Qed.

Lemma action_lights_contact n :
  forall i (s : RollOffIno),
    contactEstablished (action_lights i n s) = contactEstablished s
    /\ actionCount (action_lights i n s) = actionCount s.
Proof.
  induction n as [|n IH]; intros i s; cbn [action_lights]; [auto|].
  destruct (IH (S i)
              (if nth i (actionState s) false
               then set_ActionStatusLP IPS_OK
                      (set_ActionStatusL
                         (set_nth i IPS_OK (ActionStatusL s)) s)
               else s)) as [H1 H2].
  rewrite H1, H2. destruct (nth i (actionState s) false); auto.
Qed.

#[local] Hint Resolve calm_updateRoofStatus calm_action_reads : calm.

Lemma calm_updateActionStatus : respects calm updateActionStatus.
Proof.
  unfold updateActionStatus. calm.
  apply calm_modify. intros s.
  destruct (action_lights_contact (Z.to_nat MAX_ACTIONS) 0 s) as [C A].
  destruct (action_lights_flags (Z.to_nat MAX_ACTIONS) 0 s) as [O K].
  auto.
Qed.

#[local] Hint Resolve calm_updateActionStatus : calm.

Lemma calm_checkConditions : respects calm checkConditions.
Proof. unfold checkConditions. calm. Qed.

Lemma calm_pushRoofButton button on ignoreLock :
  respects calm (pushRoofButton button on ignoreLock).
Proof. unfold pushRoofButton. calm. Qed.

#[local] Hint Resolve calm_checkConditions calm_pushRoofButton : calm.

Lemma calm_roofOpen : respects calm roofOpen.
Proof. unfold roofOpen. calm. Qed.

Lemma calm_roofClose : respects calm roofClose.
Proof. unfold roofClose. calm. Qed.

Lemma calm_roofAbort : respects calm roofAbort.
Proof. unfold roofAbort. calm. Qed.

Lemma calm_setRoofLock on : respects calm (setRoofLock on).
Proof. unfold setRoofLock. calm. Qed.

Lemma calm_setRoofAux on : respects calm (setRoofAux on).
Proof. unfold setRoofAux. calm. Qed.

Lemma calm_setAction action on : respects calm (setAction action on).
Proof. unfold setAction, actionCmdUsed. calm. Qed.

#[local] Hint Resolve calm_roofOpen calm_roofClose calm_roofAbort : calm.

Lemma calm_Abort : respects calm Abort.
Proof. unfold Abort. calm. Qed.

Lemma calm_initProperties : respects calm initProperties.
Proof. unfold initProperties. calm. Qed.

Lemma calm_TimerHit_moving timeleft :
  respects calm (TimerHit_moving timeleft).
Proof. unfold TimerHit_moving. calm. Qed.

#[local] Hint Resolve calm_initProperties calm_TimerHit_moving : calm.

Lemma calm_TimerHit now : respects calm (TimerHit now).
Proof. unfold TimerHit. calm. Qed.

Lemma calm_contact_kept {A : Type} (m : M A) :
  respects calm m -> respects contact_kept m.
Proof. apply respects_weaken. intros s s' [H _]. exact H. Qed.

Lemma calm_flags_only_cleared {A : Type} (m : M A) :
  respects calm m -> respects flags_only_cleared m.
Proof. apply respects_weaken. intros s s' [_ H]. exact H. Qed.

Ltac kept :=
  respects_split contact_kept_refl contact_kept_trans
    ltac:(first [ solve [apply calm_contact_kept; auto with calm nocore]
                | apply respects_modify; intros; split; reflexivity ]).

Lemma contact_kept_Move_direction dir :
  respects contact_kept (Move_direction dir).
Proof. unfold Move_direction. kept. Qed.

Lemma contact_kept_Move dir operation now :
  respects contact_kept (Move dir operation now).
Proof.
  unfold Move.
  respects_split contact_kept_refl contact_kept_trans
    ltac:(first [ solve [apply calm_contact_kept; auto with calm nocore]
                | apply contact_kept_Move_direction
                | apply respects_modify; intros; split; reflexivity ]).
Qed.

Ltac bind_inv H :=
  let a := fresh "a" in
  let s1 := fresh "s" in
  let H1 := fresh "H" in
  apply bind_Some in H; destruct H as (a & s1 & H1 & H).

Lemma contact_actions_range workBuffer n :
  contact_actions workBuffer = Some (Some n) -> 0 <= n <= MAX_ACTIONS.
Proof.
  unfold contact_actions, MAX_ACTIONS. intros H.
  repeat match type of H with
         | match ?x with _ => _ end = _ =>
             destruct x eqn:?; try discriminate H
         | (if ?b then _ else _) = _ => destruct b eqn:?; try discriminate H
         | (let (_, _) := ?p in _) = _ => destruct p
         end.
  - injection H as <-.
    match goal with
    | E : (_ >? 0) && (_ <=? 8) = true |- _ =>
        apply andb_true_iff in E as [E1 E2];
        apply Z.leb_le in E2; rewrite Z.gtb_ltb in E1;
        apply Z.ltb_lt in E1; lia
    end.
  - injection H as <-. lia.
Qed.

(** What a call of [initialContact] leaves behind, whatever the line does. *)
Lemma initialContact_result (s : RollOffIno) r s' :
  initialContact s = Some (r, s') ->
  contactEstablished s' = r
  /\ 0 <= actionCount s' <= MAX_ACTIONS
  /\ (r = false -> actionCount s' = 0)
  /\ roofOpening s' = roofOpening s /\ roofClosing s' = roofClosing s.
Proof.
  unfold initialContact. intros H.
  bind_inv H. injection H0 as _ <-.
  bind_inv H. injection H0 as _ <-.
  bind_inv H. unfold writeIno_m in H0.
  destruct (writeIno _ _) as [w l]. injection H0 as <- <-.
  destruct w.
  - bind_inv H. unfold readIno_m in H0.
    destruct (readIno _ _ _) as [[[[ok buf] l'] e]|]; [|discriminate].
    injection H0 as <- <-. cbn [fst snd] in H.
    destruct ok.
    + bind_inv H. apply of_option_Some in H0 as [_ ->].
      bind_inv H. apply of_option_Some in H0 as [_ ->].
      bind_inv H. injection H0 as _ <-.
      bind_inv H. injection H as <- <-.
      match type of H0 with
      | (if ?b then _ else _) _ = _ => destruct b eqn:F
      end.
      * bind_inv H0.
        match goal with
        | Hx : of_option (contact_actions _) _ = Some _ |- _ =>
            apply of_option_Some in Hx as [Hc ->]
        end.
        match type of H0 with
        | match ?x with _ => _ end _ = _ => destruct x as [n|]
        end.
        -- injection H0 as _ <-. apply contact_actions_range in Hc.
           cbn. repeat split; try lia; try reflexivity;
             try (intros; congruence).
        -- injection H0 as _ <-. unfold MAX_ACTIONS.
           cbn. repeat split; try lia; try reflexivity;
             try (intros; congruence).
      * injection H0 as _ <-. unfold MAX_ACTIONS.
        cbn. repeat split; try lia; try reflexivity;
      try (intros; congruence).
    + injection H as <- <-. unfold MAX_ACTIONS.
      cbn. repeat split; try lia; try reflexivity;
      try (intros; congruence).
  - injection H as <- <-. unfold MAX_ACTIONS.
    cbn. repeat split; try lia; try reflexivity;
      try (intros; congruence).
Qed.

Lemma Handshake_result (s : RollOffIno) r s' :
  Handshake s = Some (r, s') ->
  (0 <= actionCount s <= MAX_ACTIONS -> 0 <= actionCount s' <= MAX_ACTIONS)
  /\ roofOpening s' = roofOpening s /\ roofClosing s' = roofClosing s.
Proof.
  unfold Handshake. intros H.
  bind_inv H. injection H0 as <- <-.
  destruct (PortFD (base s) <=? 0).
  - injection H as _ <-. auto.
  - bind_inv H. apply initialContact_result in H0 as (_ & B & _ & O & K).
    destruct a.
    + injection H as _ <-. auto.
    + apply initialContact_result in H as (_ & B' & _ & O' & K').
      repeat split; try lia; congruence.
Qed.

(** X6: no member function other than [Move] sets a motion flag.  After
    [Abort], [TimerHit], the status updates, [checkConditions], the
    handshake or one of the lock, auxiliary and action commands, a flag that
    is set was set before the call: polling and aborting can end a motion,
    never start one. *)
Theorem only_Move_sets_a_motion_flag :
  respects flags_only_cleared Abort
  /\ (forall now, respects flags_only_cleared (TimerHit now))
  /\ respects flags_only_cleared updateRoofStatus
  /\ respects flags_only_cleared updateActionStatus
  /\ respects flags_only_cleared checkConditions
  /\ respects flags_only_cleared Handshake
  /\ (forall on, respects flags_only_cleared (setRoofLock on))
  /\ (forall on, respects flags_only_cleared (setRoofAux on))
  /\ (forall action on, respects flags_only_cleared (setAction action on)).
Proof.
  split; [apply calm_flags_only_cleared, calm_Abort|].
  split; [intros now; apply calm_flags_only_cleared, calm_TimerHit|].
  split; [apply calm_flags_only_cleared, calm_updateRoofStatus|].
  split; [apply calm_flags_only_cleared, calm_updateActionStatus|].
  split; [apply calm_flags_only_cleared, calm_checkConditions|].
  split.
  { intros s r s' H. apply Handshake_result in H as (_ & O & K).
    split; congruence. }
  split; [intros on; apply calm_flags_only_cleared, calm_setRoofLock|].
  split; [intros on; apply calm_flags_only_cleared, calm_setRoofAux|].
  intros action on. apply calm_flags_only_cleared, calm_setAction.
Qed.

(** X7: the handshake state is touched by the handshake alone.  [Move],
    [Abort], [TimerHit] (its reconnect included), the status updates,
    [checkConditions] and the lock, auxiliary and action commands leave
    [contactEstablished] and [actionCount] as they are. *)
Theorem contact_changes_in_the_handshake_only :
  (forall dir operation now,
      respects contact_kept (Move dir operation now))
  /\ respects contact_kept Abort
  /\ (forall now, respects contact_kept (TimerHit now))
  /\ respects contact_kept updateRoofStatus
  /\ respects contact_kept updateActionStatus
  /\ respects contact_kept checkConditions
  /\ (forall on, respects contact_kept (setRoofLock on))
  /\ (forall on, respects contact_kept (setRoofAux on))
  /\ (forall action on, respects contact_kept (setAction action on)).
Proof.
  split; [intros dir operation now; apply contact_kept_Move|].
  split; [apply calm_contact_kept, calm_Abort|].
  split; [intros now; apply calm_contact_kept, calm_TimerHit|].
  split; [apply calm_contact_kept, calm_updateRoofStatus|].
  split; [apply calm_contact_kept, calm_updateActionStatus|].
  split; [apply calm_contact_kept, calm_checkConditions|].
  split; [intros on; apply calm_contact_kept, calm_setRoofLock|].
  split; [intros on; apply calm_contact_kept, calm_setRoofAux|].
  intros action on. apply calm_contact_kept, calm_setAction.
Qed.

Lemma step_action_count (s s' : RollOffIno) :
  step s s' ->
  0 <= actionCount s <= MAX_ACTIONS -> 0 <= actionCount s' <= MAX_ACTIONS.
Proof.
  intros H B.
  assert (K : forall (A : Type) (m : M A) r,
             respects calm m -> m s = Some (r, s') ->
             0 <= actionCount s' <= MAX_ACTIONS).
  { intros A m r Hm E. destruct (Hm _ _ _ E) as [[_ Ea] _].
    rewrite Ea. exact B. }
  destruct H as [b l s | dir operation now s r s' H | s r s' H
                | now s r s' H | s r s' H | s r s' H | s r s' H
                | s r s' H | on s r s' H | on s r s' H
                | action on s r s' H].
  - exact B.
  - destruct (contact_kept_Move _ _ _ _ _ _ H) as [_ E]. rewrite E. exact B.
  - exact (K _ _ _ calm_Abort H).
  - exact (K _ _ _ (calm_TimerHit now) H).
  - exact (K _ _ _ calm_updateRoofStatus H).
  - exact (K _ _ _ calm_updateActionStatus H).
  - exact (K _ _ _ calm_checkConditions H).
  - apply Handshake_result in H as (HB & _). exact (HB B).
  - exact (K _ _ _ (calm_setRoofLock on) H).
  - exact (K _ _ _ (calm_setRoofAux on) H).
  - exact (K _ _ _ (calm_setAction action on) H).
Qed.

(** X8: in every state the driver object can reach, [actionCount] lies
    between 0 and [MAX_ACTIONS]: the loops of [actionSwitchUsed] and
    [actionCmdUsed] never index the action tables beyond their eight
    entries. *)
Theorem action_count_in_range (s : RollOffIno) :
  reachable s -> 0 <= actionCount s <= 8.
Proof.
  intros H. change 8 with MAX_ACTIONS.
  induction H as [b l|s s' _ IH Hstep].
  - cbn. unfold MAX_ACTIONS. lia.
  - exact (step_action_count s s' Hstep IH).
Qed.

End Calm.

Lemma action_count_in_range_witness :
  actionCount demo_handshaken = 4 /\ 0 <= actionCount demo_handshaken <= 8.
Proof.
  split; [reflexivity|].
  apply (@action_count_in_range demo_dome demo_header).
  apply (reachable_step
           (@initial demo_dome demo_idle
              (mkSerial (bytes (str "(ACK:0:V1.3-0[ACT4])")) [] []))).
  - apply reachable_initial.
  - apply (step_Handshake _ true). vm_compute. reflexivity.
Defined.

(** ** Requests to move, to abort, and the timer *)

(** One step back through a run that is known to have returned. *)
Ltac run_inv :=
  match goal with
  | H : bind _ _ _ = Some _ |- _ =>
      let a := fresh "a" in
      let s1 := fresh "s" in
      let H1 := fresh "H" in
      apply bind_Some in H; destruct H as (a & s1 & H1 & H)
  | H : ret _ _ = Some _ |- _ => unfold ret in H; inversion H; subst; clear H
  | H : get _ _ = Some _ |- _ => unfold get in H; inversion H; subst; clear H
  | H : modify _ _ = Some _ |- _ =>
      unfold modify in H; inversion H; subst; clear H
  | H : on_base _ _ = Some _ |- _ =>
      unfold on_base, modify in H; inversion H; subst; clear H
  | H : undefined _ = Some _ |- _ => discriminate H
  | H : (if ?b then _ else _) _ = Some _ |- _ => destruct b eqn:?
  end.

Lemma ISState_eqb_ON x :
  (ISState_eqb x ISS_ON = true -> x = ISS_ON)
  /\ (ISState_eqb x ISS_ON = false -> x = ISS_OFF).
Proof. destruct x; cbn; split; congruence. Qed.

Section Requests.

Context {dome_base : DomeBase} {header : Header}.

(** X9: a request to move while a motion is in progress.  When, after the
    status update, the lock is off and one of the motion flags is still set,
    [Move] returns [IPS_OK] and does nothing more: no command is sent and
    the deadline of the running motion is not moved. *)
Theorem Move_while_moving (s s1 : RollOffIno) :
  updateRoofStatus s = Some (tt, s1) ->
  roofLockedSwitch s1 = ISS_OFF ->
  roofOpening s1 = true \/ roofClosing s1 = true ->
  forall dir now, Move dir MOTION_START now s = Some (IPS_OK, s1).
Proof.
  intros Hu Hl Hm dir now. unfold Move. unfold bind at 1. rewrite Hu.
  unfold bind at 1, get. rewrite Hl. cbn [ISState_eqb].
  unfold bind at 1. destruct (roofOpening s1) eqn:O; [reflexivity|].
  unfold bind at 1. destruct Hm as [Hm|Hm]; [discriminate Hm|].
  rewrite Hm. reflexivity.
Qed.

(** X10: a request that has nothing to do.  With the lock off and no motion
    in progress, opening a roof whose opened switch is on, or closing one
    whose closed switch is on, is answered [IPS_ALERT] after the park status
    is set to match; closing while the mount is locking is answered
    [IPS_ALERT] too.  In none of these cases is a command sent. *)
Theorem Move_with_nothing_to_do (s s1 : RollOffIno) now :
  updateRoofStatus s = Some (tt, s1) ->
  roofLockedSwitch s1 = ISS_OFF ->
  roofOpening s1 = false -> roofClosing s1 = false ->
  (fullyOpenedLimitSwitch s1 = ISS_ON ->
   Move DOME_CW MOTION_START now s
   = Some (IPS_ALERT, set_base (SetParked false (base s1)) s1))
  /\ (fullyClosedLimitSwitch s1 = ISS_ON ->
      Move DOME_CCW MOTION_START now s
      = Some (IPS_ALERT, set_base (SetParked true (base s1)) s1))
  /\ (fullyClosedLimitSwitch s1 = ISS_OFF -> isLocked (base s1) = true ->
      Move DOME_CCW MOTION_START now s = Some (IPS_ALERT, s1)).
Proof.
  intros Hu Hl Ho Hc.
  assert (Hhead : forall dir,
             Move dir MOTION_START now s
             = bind (Move_direction dir)
                 (fun early =>
                    match early with
                    | Some r => ret r
                    | None =>
                        modify (set_roofTimedOut EXPIRED_CLEAR) ;;;
                        timeout <- get (fun s => RoofTimeoutN_value (base s)) ;;
                        modify (set_MotionRequest timeout) ;;;
                        modify (set_MotionStart now) ;;;
                        on_base (SetTimer 1000) ;;;
                        ret IPS_BUSY
                    end) s1).
  { intros dir. unfold Move. unfold bind at 1. rewrite Hu.
    unfold bind at 1, get. rewrite Hl. cbn [ISState_eqb].
    unfold bind at 1. rewrite Ho. unfold bind at 1. rewrite Hc.
    reflexivity. }
  split; [|split].
  - intros H. rewrite Hhead. unfold bind at 1. unfold Move_direction.
    unfold bind at 1, get. rewrite H. reflexivity.
  - intros H. rewrite Hhead. unfold bind at 1. unfold Move_direction.
    unfold bind at 1, get. rewrite H. reflexivity.
  - intros H L. rewrite Hhead. unfold bind at 1. unfold Move_direction.
    unfold bind at 1, get. rewrite H. cbn [ISState_eqb].
    unfold bind at 1. rewrite L. reflexivity.
Qed.

Lemma Move_direction_started dir (s s' : RollOffIno) :
  Move_direction dir s = Some (None, s') ->
  roofOpening s' = (match dir with DOME_CW => true | DOME_CCW => false end)
  /\ roofClosing s' = (match dir with DOME_CW => false | DOME_CCW => true end)
  /\ (dir = DOME_CW -> fullyOpenedLimitSwitch s = ISS_OFF)
  /\ (dir = DOME_CCW ->
      fullyClosedLimitSwitch s = ISS_OFF /\ isLocked (base s) = false).
Proof.
  unfold Move_direction. intros H.
  destruct dir; repeat run_inv; cbn;
    repeat split; intros; try reflexivity; try discriminate;
    try assumption; apply ISState_eqb_ON; assumption.
Qed.

(** X11: what [IPS_BUSY] means.  [Move] returns [IPS_BUSY] only for
    [MOTION_START]; then the flag of the requested direction is set and the
    other one clear, the timed-out tag is cleared and the motion starts at
    the clock reading of the call. *)
Theorem Move_busy dir operation now (s s' : RollOffIno) :
  Move dir operation now s = Some (IPS_BUSY, s') ->
  operation = MOTION_START
  /\ roofOpening s' = (match dir with DOME_CW => true | DOME_CCW => false end)
  /\ roofClosing s' = (match dir with DOME_CW => false | DOME_CCW => true end)
  /\ roofTimedOut s' = EXPIRED_CLEAR
  /\ MotionStart s' = now.
Proof.
  unfold Move. intros H. run_inv. destruct operation; [|discriminate H].
  repeat run_inv; try discriminate.
  match goal with
  | Hd : Move_direction dir _ = Some (?e, _) |- _ => destruct e as [r|]
  end.
  - run_inv. exfalso.
    match goal with
    | Hd : Move_direction dir _ = Some (Some IPS_BUSY, _) |- _ =>
        unfold Move_direction in Hd; destruct dir;
        repeat run_inv; discriminate
    end.
  - match goal with
    | Hd : Move_direction dir _ = Some (None, _) |- _ =>
        apply Move_direction_started in Hd as (O & C & _)
    end.
    repeat run_inv. cbn. auto.
Qed.

(** X12: [Abort] never reports a failure: whenever it returns, it returns
    true, also when the abort command could not be sent or was refused. *)
Theorem Abort_returns_true (s s' : RollOffIno) r :
  Abort s = Some (r, s') -> r = true.
Proof.
  unfold Abort. intros H. repeat run_inv; reflexivity.
Qed.

(** X13: the timer and the error count.  On a driver that is not connected
    [TimerHit] changes nothing, not even the timer; on a connected one it
    leaves at most [MAX_CNTRL_COM_ERR] errors counted, because a higher count
    is set back to zero by the reconnect. *)
Theorem TimerHit_bounds_the_error_count now (s s' : RollOffIno) r :
  TimerHit now s = Some (r, s') ->
  (isConnected (base s) = false -> s' = s)
  /\ (isConnected (base s) = true -> communicationErrors s' <= 10).
Proof.
  unfold TimerHit. intros H. run_inv. run_inv. run_inv. run_inv.
  match goal with
  | |- (isConnected (base ?x) = false -> _) /\ _ =>
      destruct (isConnected (base x)) eqn:C
  end; cbn [negb] in H.
  - split; [discriminate|]. intros _.
    repeat run_inv; cbn;
      repeat match goal with
             | E : too_many_errors _ = _ |- _ =>
                 unfold too_many_errors, MAX_CNTRL_COM_ERR in E;
                 rewrite Z.gtb_ltb in E;
                 first [apply Z.ltb_lt in E | apply Z.ltb_ge in E]
             end;
      lia.
  - run_inv. split; [reflexivity | discriminate].
Qed.

End Requests.

Lemma Move_while_moving_witness :
  roofOpening demo_opening_status = true
  /\ @Move demo_dome demo_header DOME_CCW MOTION_START 7000 demo_opening
     = Some (IPS_OK, demo_opening_status).
Proof.
  split; [reflexivity|].
  apply (@Move_while_moving demo_dome demo_header demo_opening
           demo_opening_status).
  - vm_compute. reflexivity.
  - reflexivity.
  - left. reflexivity.
Defined.

Lemma Move_with_nothing_to_do_witness :
  fullyOpenedLimitSwitch demo_open_status = ISS_ON
  /\ @Move demo_dome demo_header DOME_CW MOTION_START 0 demo_open_roof
     = Some (IPS_ALERT,
             set_base (SetParked false (base demo_open_status))
               demo_open_status).
Proof.
  split; [reflexivity|].
  apply (@Move_with_nothing_to_do demo_dome demo_header demo_open_roof
           demo_open_status 0).
  - vm_compute. reflexivity.
  - reflexivity.
  - reflexivity.
  - reflexivity.
  - reflexivity.
Defined.

Lemma Move_busy_witness :
  @Move demo_dome demo_header DOME_CW MOTION_START 0
    (@initial demo_dome demo_simulated (mkSerial [] [] []))
  = Some (IPS_BUSY, demo_opening)
  /\ MOTION_START = MOTION_START
  /\ roofOpening demo_opening = true
  /\ roofClosing demo_opening = false
  /\ roofTimedOut demo_opening = EXPIRED_CLEAR
  /\ MotionStart demo_opening = 0.
Proof.
  assert (H : @Move demo_dome demo_header DOME_CW MOTION_START 0
                (@initial demo_dome demo_simulated (mkSerial [] [] []))
              = Some (IPS_BUSY, demo_opening))
    by (vm_compute; reflexivity).
  split; [exact H|].
  exact (@Move_busy demo_dome demo_header DOME_CW MOTION_START 0 _ _ H).
Defined.

Lemma Abort_returns_true_witness :
  @Abort demo_dome demo_header demo_moving_silent = Some (true, demo_aborted).
Proof.
  assert (H : exists r, @Abort demo_dome demo_header demo_moving_silent
                        = Some (r, demo_aborted))
    by (eexists; vm_compute; reflexivity).
  destruct H as [r H].
  pose proof (@Abort_returns_true demo_dome demo_header _ _ _ H) as E.
  rewrite E in H. exact H.
Defined.

Lemma TimerHit_bounds_the_error_count_witness :
  @TimerHit demo_dome demo_header 0 (demo_after_failures 11)
  = Some (tt, demo_reconnected)
  /\ communicationErrors (demo_after_failures 11) = 11
  /\ communicationErrors demo_reconnected <= 10.
Proof.
  assert (H : @TimerHit demo_dome demo_header 0 (demo_after_failures 11)
              = Some (tt, demo_reconnected))
    by (vm_compute; reflexivity).
  split; [exact H|]. split; [reflexivity|].
  apply (@TimerHit_bounds_the_error_count demo_dome demo_header 0 _ _ _ H).
  reflexivity.
Defined.

(** ** What a call leaves as it is *)

(** One more step back through a run: a copy that succeeded, a pair that is
    taken apart. *)
Ltac step_inv :=
  first
    [ run_inv
    | match goal with
      | H : of_option _ _ = Some _ |- _ =>
          let E := fresh "E" in apply of_option_Some in H as [E ->]
      | H : (let (_, _) := ?p in _) _ = Some _ |- _ => destruct p
      end ].

Section Keeps.

Context {dome_base : DomeBase} {header : Header}.

(** The observation [f] of the object is the same after as before. *)
Definition keeps {A : Type} (f : RollOffIno -> A) (s s' : RollOffIno)
  : Prop :=
  f s' = f s.

Lemma keeps_refl {A : Type} (f : RollOffIno -> A) s : keeps f s s.
Proof. reflexivity. Qed.

Lemma keeps_trans {A : Type} (f : RollOffIno -> A) a b c :
  keeps f a b -> keeps f b c -> keeps f a c.
Proof. unfold keeps. congruence. Qed.

Lemma roof_lights_keeps {A : Type} (f : RollOffIno -> A) :
  (forall v s, f (set_RoofStatusL v s) = f s) ->
  (forall v s, f (set_RoofStatusLP v s) = f s) ->
  (forall v s, f (set_roofOpening v s) = f s) ->
  (forall v s, f (set_roofClosing v s) = f s) ->
  forall aux locked opened closed s,
    f (roof_lights aux locked opened closed s) = f s.
Proof.
  intros HL HP HO HC aux locked opened closed s. unfold roof_lights.
  destruct locked, opened, closed, (roofOpening s), (roofClosing s),
    (roofTimedOut s); cbn [orb andb negb];
    rewrite ?HP, ?HL, ?HO, ?HC; reflexivity.
Qed.

Lemma action_lights_keeps {A : Type} (f : RollOffIno -> A) :
  (forall v s, f (set_ActionStatusL v s) = f s) ->
  (forall v s, f (set_ActionStatusLP v s) = f s) ->
  forall n i s, f (action_lights i n s) = f s.
Proof.
  intros HL HP. induction n as [|n IH]; intros i s; cbn [action_lights];
    [reflexivity|].
  rewrite IH. destruct (nth i (actionState s) false); [|reflexivity].
  rewrite HP, HL. reflexivity.
Qed.

(** *** The calls that work on the line *)

Section Link.

Context {A : Type} (f : RollOffIno -> A).
Hypothesis f_line : forall l s, f (set_line l s) = f s.
Hypothesis f_errors : forall e s, f (set_communicationErrors e s) = f s.

Lemma keeps_readIno_m : respects (keeps f) readIno_m.
Proof.
  intros s a s' H. unfold readIno_m in H.
  destruct (readIno _ _ _) as [[[[ok buf] l] e]|]; [|discriminate].
  injection H as _ <-. unfold keeps. rewrite f_errors, f_line. reflexivity.
Qed.

Lemma keeps_writeIno_m msg : respects (keeps f) (writeIno_m msg).
Proof.
  intros s a s' H. unfold writeIno_m in H.
  destruct (writeIno msg (line s)) as [ok l].
  injection H as _ <-. apply f_line.
Qed.

Lemma keeps_count_error : respects (keeps f) count_error.
Proof. intros s a s' H. injection H as _ <-. apply f_errors. Qed.

Ltac link :=
  respects_split (keeps_refl f) (keeps_trans f)
    ltac:(idtac; match goal with
          | |- respects _ readIno_m => apply keeps_readIno_m
          | |- respects _ (writeIno_m _) => apply keeps_writeIno_m
          | |- respects _ count_error => apply keeps_count_error
          end).

Lemma keeps_readRoofSwitch id r : respects (keeps f) (readRoofSwitch id r).
Proof. unfold readRoofSwitch. link. Qed.

Lemma keeps_getActionSwitch action r :
  respects (keeps f) (getActionSwitch action r).
Proof.
  unfold getActionSwitch, actionSwitchUsed.
  respects_split (keeps_refl f) (keeps_trans f)
    ltac:(idtac; match goal with
          | |- respects _ (readRoofSwitch _ _) => apply keeps_readRoofSwitch
          | |- respects _ count_error => apply keeps_count_error
          end).
Qed.

(** *** The status of the actions *)

Section Actions.

Hypothesis f_ActionStatusL : forall v s, f (set_ActionStatusL v s) = f s.
Hypothesis f_ActionStatusLP : forall v s, f (set_ActionStatusLP v s) = f s.
Hypothesis f_actionState : forall v s, f (set_actionState v s) = f s.
Hypothesis f_actionStatusState :
  forall v s, f (set_actionStatusState v s) = f s.

Ltac actions known :=
  respects_split (keeps_refl f) (keeps_trans f)
    ltac:(first
            [ known
            | match goal with
              | |- respects _ (getActionSwitch _ _) =>
                  apply keeps_getActionSwitch
              | |- respects _ (modify _) =>
                  apply respects_modify; intros; unfold keeps;
                  first [ apply f_ActionStatusL | apply f_ActionStatusLP
                        | apply f_actionState | apply f_actionStatusState
                        | apply action_lights_keeps; assumption ]
              end ]).

Lemma keeps_action_reads n :
  forall i, respects (keeps f) (action_reads i n).
Proof.
  induction n as [|n IH]; intros i; cbn [action_reads];
    actions ltac:(apply IH).
Qed.

Lemma keeps_updateActionStatus : respects (keeps f) updateActionStatus.
Proof.
  unfold updateActionStatus. actions ltac:(apply keeps_action_reads).
Qed.

End Actions.

(** *** The status of the roof and the commands *)

Section Roof.

Hypothesis f_opened : forall v s, f (set_fullyOpenedLimitSwitch v s) = f s.
Hypothesis f_closed : forall v s, f (set_fullyClosedLimitSwitch v s) = f s.
Hypothesis f_locked : forall v s, f (set_roofLockedSwitch v s) = f s.
Hypothesis f_aux : forall v s, f (set_roofAuxiliarySwitch v s) = f s.

Ltac roof known :=
  respects_split (keeps_refl f) (keeps_trans f)
    ltac:(first
            [ known
            | match goal with
              | |- respects _ (readRoofSwitch _ _) =>
                  apply keeps_readRoofSwitch
              | |- respects _ readIno_m => apply keeps_readIno_m
              | |- respects _ (writeIno_m _) => apply keeps_writeIno_m
              | |- respects _ count_error => apply keeps_count_error
              | |- respects _ (modify _) =>
                  apply respects_modify; intros; unfold keeps;
                  first [ apply f_opened | apply f_closed
                        | apply f_locked | apply f_aux ]
              end ]).

Lemma keeps_getFullOpenedLimitSwitch r :
  respects (keeps f) (getFullOpenedLimitSwitch r).
Proof. unfold getFullOpenedLimitSwitch. roof fail. Qed.

Lemma keeps_getFullClosedLimitSwitch r :
  respects (keeps f) (getFullClosedLimitSwitch r).
Proof. unfold getFullClosedLimitSwitch. roof fail. Qed.

Lemma keeps_getRoofLockedSwitch r :
  respects (keeps f) (getRoofLockedSwitch r).
Proof. unfold getRoofLockedSwitch. roof fail. Qed.

Lemma keeps_getRoofAuxSwitch r : respects (keeps f) (getRoofAuxSwitch r).
Proof. unfold getRoofAuxSwitch. roof fail. Qed.

Lemma keeps_pushRoofButton button on ignoreLock :
  respects (keeps f) (pushRoofButton button on ignoreLock).
Proof.
  unfold pushRoofButton. roof ltac:(apply keeps_getRoofLockedSwitch).
Qed.

Lemma keeps_roofOpen : respects (keeps f) roofOpen.
Proof. unfold roofOpen. roof ltac:(apply keeps_pushRoofButton). Qed.

Lemma keeps_roofClose : respects (keeps f) roofClose.
Proof. unfold roofClose. roof ltac:(apply keeps_pushRoofButton). Qed.

Lemma keeps_roofAbort : respects (keeps f) roofAbort.
Proof. unfold roofAbort. roof ltac:(apply keeps_pushRoofButton). Qed.

Lemma keeps_updateRoofStatus :
  (forall aux locked opened closed s,
      f (roof_lights aux locked opened closed s) = f s) ->
  respects (keeps f) updateRoofStatus.
Proof.
  intros f_lights. unfold updateRoofStatus.
  roof ltac:(first [ apply keeps_getFullOpenedLimitSwitch
                   | apply keeps_getFullClosedLimitSwitch
                   | apply keeps_getRoofLockedSwitch
                   | apply keeps_getRoofAuxSwitch
                   | apply respects_modify; intros; apply f_lights ]).
Qed.

End Roof.

End Link.

End Keeps.

(** ** What a command puts on the line *)

Section Sent.

Context {dome_base : DomeBase} {header : Header}.

(** What polling and commanding never touch: the state of the base class,
    the outcome of the handshake, the deadline of a motion and the simulated
    roof. *)
Definition settled (s : RollOffIno) :=
  (base s, contactEstablished s, actionCount s, MotionRequest s,
   MotionStart s, roofTimedOut s, simRoofOpen s, simRoofClosed s).

Ltac settled_premises :=
  try (intros; reflexivity);
  try (intros; apply roof_lights_keeps; intros; reflexivity).

Lemma settled_updateRoofStatus : respects (keeps settled) updateRoofStatus.
Proof. apply keeps_updateRoofStatus; settled_premises. Qed.

Lemma settled_updateActionStatus :
  respects (keeps settled) updateActionStatus.
Proof. apply keeps_updateActionStatus; settled_premises. Qed.

Lemma settled_pushRoofButton button on ignoreLock :
  respects (keeps settled) (pushRoofButton button on ignoreLock).
Proof. apply keeps_pushRoofButton; settled_premises. Qed.

Lemma settled_roofOpen : respects (keeps settled) roofOpen.
Proof. apply keeps_roofOpen; settled_premises. Qed.

Lemma settled_roofClose : respects (keeps settled) roofClose.
Proof. apply keeps_roofClose; settled_premises. Qed.

Lemma settled_roofAbort : respects (keeps settled) roofAbort.
Proof. apply keeps_roofAbort; settled_premises. Qed.

Lemma settled_fields (s s' : RollOffIno) :
  keeps settled s s' ->
  base s' = base s /\ contactEstablished s' = contactEstablished s
  /\ MotionRequest s' = MotionRequest s.
Proof. unfold keeps, settled. intros H. injection H. auto. Qed.

Lemma readIno_m_outgoing (s : RollOffIno) r s' :
  readIno_m s = Some (r, s') -> tx (line s') = tx (line s).
Proof.
  unfold readIno_m, readIno. intros H.
  destruct (readIno_loop _ _ _ _) as [[[[ok b] l] e]|] eqn:E;
    [|discriminate].
  injection H as _ <-. apply readIno_loop_effect in E as (_ & _ & Ht).
  exact Ht.
Qed.

Lemma writeIno_m_outgoing msg (s : RollOffIno) s' :
  writeIno_m msg s = Some (true, s') ->
  tx (line s') = tx (line s) ++ [msg].
Proof.
  unfold writeIno_m, writeIno, tty_write_string.
  destruct (strlen msg >=? MAXINOLINE); [intros H; discriminate H|].
  destruct (wr (line s)) as [|[err|] rest]; intros H;
    try discriminate H; injection H as <-; reflexivity.
Qed.

(** A command that returns true was handed to the line, as the last frame
    written. *)
Lemma pushRoofButton_sent button on ignoreLock (s s' : RollOffIno) :
  pushRoofButton button on ignoreLock s = Some (true, s') ->
  contactEstablished s = true
  /\ exists sent,
       tx (line s')
       = sent ++ [str "(SET:" ++ button
                  ++ (if on then str ":ON)" else str ":OFF)")].
Proof.
  unfold pushRoofButton. intros H. run_inv. run_inv.
  match type of H with
  | (if negb (contactEstablished ?x) then _ else _) _ = _ =>
      destruct (contactEstablished x)
  end; [|discriminate H].
  split; [reflexivity|]. cbn [negb] in H.
  run_inv.
  match goal with
  | H : (let (_, _) := ?p in _) _ = _ |- _ => destruct p as [status state]
  end.
  destruct (status && negb state || ignoreLock); [|discriminate H].
  run_inv.
  match goal with
  | H : of_option (strcpy _ (Some ?m)) _ = Some _ |- _ =>
      apply of_option_Some in H as [E ->];
      unfold strcpy in E; destruct (strlen m <? MAXINOBUF);
      [injection E as <- | discriminate E]
  end.
  run_inv.
  match goal with
  | H : writeIno_m _ _ = Some (?w, _) |- _ =>
      destruct w; [apply writeIno_m_outgoing in H | discriminate]
  end.
  cbn [negb] in H. run_inv.
  match goal with
  | H : readIno_m _ = Some _ |- _ => apply readIno_m_outgoing in H
  end.
  run_inv.
  match goal with
  | H : of_option _ _ = Some _ |- _ => apply of_option_Some in H as [_ ->]
  end.
  match goal with
  | H : ret _ _ = Some _ |- _ => injection H as _ <-
  end.
  eexists. etransitivity; eassumption.
Qed.

(** X14: what [IPS_BUSY] means on the line.  When [Move] returns [IPS_BUSY]
    on a driver that is not simulated, contact with the controller was
    established and the last frame handed to the line is the command of the
    requested direction. *)
Theorem busy_means_the_command_was_sent dir operation now
  (s s' : RollOffIno) :
  Move dir operation now s = Some (IPS_BUSY, s') ->
  isSimulation (base s) = false ->
  contactEstablished s = true
  /\ exists sent,
       tx (line s')
       = sent ++ [str "(SET:"
                  ++ match dir with
                     | DOME_CW => ROOF_OPEN_CMD
                     | DOME_CCW => ROOF_CLOSE_CMD
                     end ++ str ":ON)"].
Proof.
  unfold Move. intros H Hsim. run_inv.
  match goal with
  | Hu : updateRoofStatus _ = Some _ |- _ =>
      apply settled_updateRoofStatus, settled_fields in Hu as (Hb & Hc & _)
  end.
  rewrite <- Hb in Hsim. rewrite <- Hc. clear Hb Hc.
  destruct operation; [|discriminate H].
  repeat run_inv; try discriminate.
  match goal with
  | Hd : Move_direction dir _ = Some (?e, _) |- _ => destruct e as [r|]
  end.
  - run_inv. exfalso.
    match goal with
    | Hd : Move_direction dir _ = Some (Some IPS_BUSY, _) |- _ =>
        unfold Move_direction in Hd; destruct dir;
        repeat run_inv; discriminate
    end.
  - repeat run_inv. cbn.
    match goal with
    | Hd : Move_direction dir _ = Some (None, _) |- _ =>
        unfold Move_direction, roofOpen, roofClose in Hd; destruct dir;
        repeat run_inv; try congruence; cbn;
        match goal with
        | Hp : pushRoofButton _ _ _ _ = Some (true, _) |- _ =>
            apply pushRoofButton_sent in Hp as [Hc Hs]
        end; auto
    end.
Qed.

End Sent.

(** ** Without contact *)

Section Offline.

Context {dome_base : DomeBase} {header : Header}.

Lemma offline_refl s : offline s s.
Proof. intros H. auto. Qed.

Lemma offline_trans a b c : offline a b -> offline b c -> offline a c.
Proof.
  intros Hab Hbc Ha. destruct (Hab Ha) as [L C].
  destruct (Hbc C) as [L' C']. split; congruence.
Qed.

Definition line_and_contact (s : RollOffIno) :=
  (line s, contactEstablished s).

Lemma offline_modify (f : RollOffIno -> RollOffIno) :
  (forall s, line_and_contact (f s) = line_and_contact s) ->
  respects offline (modify f).
Proof.
  intros Hf. apply respects_modify. intros s Hc.
  specialize (Hf s). unfold line_and_contact in Hf.
  injection Hf as L C. split; congruence.
Qed.

Lemma offline_readRoofSwitch id r : respects offline (readRoofSwitch id r).
Proof.
  intros s a s' H Hc. unfold readRoofSwitch in H.
  unfold bind at 1, get in H. rewrite Hc in H. injection H as _ <-. auto.
Qed.

Lemma offline_pushRoofButton button on ignoreLock :
  respects offline (pushRoofButton button on ignoreLock).
Proof.
  intros s a s' H Hc. unfold pushRoofButton in H.
  unfold bind at 1, get in H. rewrite Hc in H. injection H as _ <-. auto.
Qed.

Create HintDb offline discriminated.

Ltac offline :=
  respects_split offline_refl offline_trans
    ltac:(first
            [ solve [auto with offline nocore]
            | apply offline_modify; intros;
              first [ reflexivity
                    | apply (roof_lights_keeps line_and_contact);
                      intros; reflexivity
                    | apply (action_lights_keeps line_and_contact);
                      intros; reflexivity ] ]).

Lemma offline_on_base f : respects offline (on_base f).
Proof. unfold on_base. offline. Qed.

Lemma offline_count_error : respects offline count_error.
Proof. unfold count_error. offline. Qed.

#[local] Hint Resolve offline_readRoofSwitch offline_pushRoofButton
  offline_on_base offline_count_error : offline.

Lemma offline_getFullOpenedLimitSwitch r :
  respects offline (getFullOpenedLimitSwitch r).
Proof. unfold getFullOpenedLimitSwitch. offline. Qed.

Lemma offline_getFullClosedLimitSwitch r :
  respects offline (getFullClosedLimitSwitch r).
Proof. unfold getFullClosedLimitSwitch. offline. Qed.

Lemma offline_getRoofLockedSwitch r :
  respects offline (getRoofLockedSwitch r).
Proof. unfold getRoofLockedSwitch. offline. Qed.

Lemma offline_getRoofAuxSwitch r : respects offline (getRoofAuxSwitch r).
Proof. unfold getRoofAuxSwitch. offline. Qed.

Lemma offline_getActionSwitch action r :
  respects offline (getActionSwitch action r).
Proof. unfold getActionSwitch, actionSwitchUsed. offline. Qed.

#[local] Hint Resolve offline_getFullOpenedLimitSwitch
  offline_getFullClosedLimitSwitch offline_getRoofLockedSwitch
  offline_getRoofAuxSwitch offline_getActionSwitch : offline.

Lemma offline_updateRoofStatus : respects offline updateRoofStatus.
Proof. unfold updateRoofStatus. offline. Qed.

Lemma offline_action_reads n :
  forall i, respects offline (action_reads i n).
Proof. induction n as [|n IH]; intros i; cbn [action_reads]; offline. Qed.

#[local] Hint Resolve offline_updateRoofStatus offline_action_reads
  : offline.

Lemma offline_updateActionStatus : respects offline updateActionStatus.
Proof. unfold updateActionStatus. offline. Qed.

#[local] Hint Resolve offline_updateActionStatus : offline.

Lemma offline_checkConditions : respects offline checkConditions.
Proof. unfold checkConditions. offline. Qed.

Lemma offline_roofOpen : respects offline roofOpen.
Proof. unfold roofOpen. offline. Qed.

Lemma offline_roofClose : respects offline roofClose.
Proof. unfold roofClose. offline. Qed.

Lemma offline_roofAbort : respects offline roofAbort.
Proof. unfold roofAbort. offline. Qed.

Lemma offline_setRoofLock on : respects offline (setRoofLock on).
Proof. unfold setRoofLock. offline. Qed.

Lemma offline_setRoofAux on : respects offline (setRoofAux on).
Proof. unfold setRoofAux. offline. Qed.

Lemma offline_setAction action on : respects offline (setAction action on).
Proof. unfold setAction, actionCmdUsed. offline. Qed.

#[local] Hint Resolve offline_checkConditions offline_roofOpen
  offline_roofClose offline_roofAbort : offline.

Lemma offline_Move_direction dir : respects offline (Move_direction dir).
Proof. unfold Move_direction. offline. Qed.

#[local] Hint Resolve offline_Move_direction : offline.

Lemma offline_Move dir operation now :
  respects offline (Move dir operation now).
Proof. unfold Move. offline. Qed.

Lemma offline_Abort : respects offline Abort.
Proof. unfold Abort. offline. Qed.

Lemma offline_initProperties : respects offline initProperties.
Proof. unfold initProperties. offline. Qed.

Lemma offline_TimerHit_moving timeleft :
  respects offline (TimerHit_moving timeleft).
Proof. unfold TimerHit_moving. offline. Qed.

#[local] Hint Resolve offline_initProperties offline_TimerHit_moving
  : offline.

Lemma offline_TimerHit now : respects offline (TimerHit now).
Proof. unfold TimerHit. offline. Qed.

(** X15: without contact nothing goes over the line.  While
    [contactEstablished] is false, [Move], [Abort], [TimerHit], the status
    updates, [checkConditions] and the lock, auxiliary and action commands
    neither write to the serial line nor read from it, and contact stays
    unestablished: only the handshake can end that state. *)
Theorem no_contact_no_traffic :
  (forall dir operation now, respects offline (Move dir operation now))
  /\ respects offline Abort
  /\ (forall now, respects offline (TimerHit now))
  /\ respects offline updateRoofStatus
  /\ respects offline updateActionStatus
  /\ respects offline checkConditions
  /\ (forall on, respects offline (setRoofLock on))
  /\ (forall on, respects offline (setRoofAux on))
  /\ (forall action on, respects offline (setAction action on)).
Proof.
  split; [exact offline_Move|].
  split; [exact offline_Abort|].
  split; [exact offline_TimerHit|].
  split; [exact offline_updateRoofStatus|].
  split; [exact offline_updateActionStatus|].
  split; [exact offline_checkConditions|].
  split; [exact offline_setRoofLock|].
  split; [exact offline_setRoofAux|].
  exact offline_setAction.
Qed.

End Offline.

(** ** In simulation *)

Section Simulation.

Context {dome_base : DomeBase} {header : Header}.

(** On a simulated dome the line, the error count and the base class are as
    they were. *)
Definition quiet (s s' : RollOffIno) : Prop :=
  isSimulation (base s) = true ->
  line s' = line s /\ communicationErrors s' = communicationErrors s
  /\ base s' = base s.

Lemma quiet_refl s : quiet s s.
Proof. intros H. auto. Qed.

Lemma quiet_trans a b c : quiet a b -> quiet b c -> quiet a c.
Proof.
  intros Hab Hbc Ha. destruct (Hab Ha) as (L & E & B).
  rewrite <- B in Ha. destruct (Hbc Ha) as (L' & E' & B').
  repeat split; congruence.
Qed.

Definition link_and_base (s : RollOffIno) :=
  (line s, communicationErrors s, base s).

Lemma quiet_modify (f : RollOffIno -> RollOffIno) :
  (forall s, link_and_base (f s) = link_and_base s) ->
  respects quiet (modify f).
Proof.
  intros Hf. apply respects_modify. intros s _.
  specialize (Hf s). unfold link_and_base in Hf.
  injection Hf as L E B. auto.
Qed.

(** A member function that asks [isSimulation] first. *)
Lemma quiet_if_simulated {A : Type} (m1 m2 : M A) :
  respects quiet m1 ->
  respects quiet
    (sim <- get (fun s => isSimulation (base s)) ;; if sim then m1 else m2).
Proof.
  intros H1 s a s' H Hs. unfold bind at 1, get in H. rewrite Hs in H.
  exact (H1 s a s' H Hs).
Qed.

Create HintDb quiet discriminated.

Ltac quiet :=
  respects_split quiet_refl quiet_trans
    ltac:(first
            [ solve [auto with quiet nocore]
            | apply quiet_modify; intros;
              first [ reflexivity
                    | apply (roof_lights_keeps link_and_base);
                      intros; reflexivity
                    | apply (action_lights_keeps link_and_base);
                      intros; reflexivity ] ]).

Lemma quiet_getFullOpenedLimitSwitch r :
  respects quiet (getFullOpenedLimitSwitch r).
Proof.
  unfold getFullOpenedLimitSwitch. apply quiet_if_simulated. quiet.
Qed.

Lemma quiet_getFullClosedLimitSwitch r :
  respects quiet (getFullClosedLimitSwitch r).
Proof.
  unfold getFullClosedLimitSwitch. apply quiet_if_simulated. quiet.
Qed.

Lemma quiet_getRoofLockedSwitch r : respects quiet (getRoofLockedSwitch r).
Proof. unfold getRoofLockedSwitch. apply quiet_if_simulated. quiet. Qed.

Lemma quiet_getRoofAuxSwitch r : respects quiet (getRoofAuxSwitch r).
Proof. unfold getRoofAuxSwitch. apply quiet_if_simulated. quiet. Qed.

Lemma quiet_getActionSwitch action r :
  respects quiet (getActionSwitch action r).
Proof. unfold getActionSwitch. apply quiet_if_simulated. quiet. Qed.

#[local] Hint Resolve quiet_getFullOpenedLimitSwitch
  quiet_getFullClosedLimitSwitch quiet_getRoofLockedSwitch
  quiet_getRoofAuxSwitch quiet_getActionSwitch : quiet.

Lemma quiet_updateRoofStatus : respects quiet updateRoofStatus.
Proof. unfold updateRoofStatus. quiet. Qed.

Lemma quiet_action_reads n : forall i, respects quiet (action_reads i n).
Proof. induction n as [|n IH]; intros i; cbn [action_reads]; quiet. Qed.

#[local] Hint Resolve quiet_action_reads : quiet.

Lemma quiet_updateActionStatus : respects quiet updateActionStatus.
Proof. unfold updateActionStatus. quiet. Qed.

Lemma quiet_roofOpen : respects quiet roofOpen.
Proof. unfold roofOpen. apply quiet_if_simulated. quiet. Qed.

Lemma quiet_roofClose : respects quiet roofClose.
Proof. unfold roofClose. apply quiet_if_simulated. quiet. Qed.

Lemma quiet_roofAbort : respects quiet roofAbort.
Proof. unfold roofAbort. apply quiet_if_simulated. quiet. Qed.

(** The calls that change the base class, after which [isSimulation] is
    not read again: the line and the error count are as they were. *)
Definition hush (s s' : RollOffIno) : Prop :=
  isSimulation (base s) = true ->
  line s' = line s /\ communicationErrors s' = communicationErrors s.

(** Takes the calls of a run that was taken apart one after the other, each
    on a state that is known to be simulated. *)
Ltac simulated_calls :=
  repeat match goal with
         | H : ?m ?x = Some (_, ?y) |- _ =>
             let Hx := fresh "Hx" in
             assert (Hx : isSimulation (base x) = true)
               by (cbn; congruence);
             let L := fresh "L" in
             let E := fresh "E" in
             let B := fresh "B" in
             first
               [ destruct (quiet_updateRoofStatus _ _ _ H Hx) as (L & E & B)
               | destruct (quiet_updateActionStatus _ _ _ H Hx)
                   as (L & E & B)
               | destruct (quiet_roofOpen _ _ _ H Hx) as (L & E & B)
               | destruct (quiet_roofClose _ _ _ H Hx) as (L & E & B)
               | destruct (quiet_roofAbort _ _ _ H Hx) as (L & E & B) ];
             clear H; cbn in L, E, B
         end.

Lemma hush_Move_direction dir (s s' : RollOffIno) e :
  Move_direction dir s = Some (e, s') -> hush s s'.
Proof.
  unfold Move_direction. intros H Hs.
  destruct dir; repeat run_inv; simulated_calls; cbn; split; congruence.
Qed.

Lemma hush_Move dir operation now (s s' : RollOffIno) r :
  Move dir operation now s = Some (r, s') -> hush s s'.
Proof.
  unfold Move. intros H Hs.
  destruct operation; repeat run_inv; simulated_calls;
    try match goal with
      | H : Move_direction _ ?x = Some _ |- _ =>
          apply hush_Move_direction in H;
          destruct H as (L' & E'); [cbn; congruence|]; cbn in L', E'
      end;
    try match goal with
      | H : (match ?e with Some _ => _ | None => _ end) _ = Some _ |- _ =>
          destruct e
      end;
    repeat run_inv; cbn; split; congruence.
Qed.

Lemma hush_Abort (s s' : RollOffIno) r : Abort s = Some (r, s') -> hush s s'.
Proof.
  unfold Abort. intros H Hs.
  repeat run_inv; simulated_calls; cbn in *; simulated_calls; cbn;
    split; congruence.
Qed.

Lemma hush_checkConditions (s s' : RollOffIno) r :
  checkConditions s = Some (r, s') -> hush s s'.
Proof.
  unfold checkConditions. intros H Hs.
  repeat run_inv; simulated_calls; cbn; split; congruence.
Qed.

Lemma TimerHit_moving_link timeleft (s s' : RollOffIno) r :
  TimerHit_moving timeleft s = Some (r, s') ->
  line s' = line s /\ communicationErrors s' = communicationErrors s.
Proof.
  unfold TimerHit_moving. intros H. repeat run_inv; cbn; auto.
Qed.

Lemma initProperties_link (s s' : RollOffIno) r :
  initProperties s = Some (r, s') ->
  line s' = line s /\ communicationErrors s' = communicationErrors s.
Proof.
  unfold initProperties. intros H. repeat run_inv; cbn; auto.
Qed.

Lemma TimerHit_line now (s s' : RollOffIno) r :
  TimerHit now s = Some (r, s') ->
  isSimulation (base s) = true -> line s' = line s.
Proof.
  unfold TimerHit. intros H Hs.
  repeat run_inv; simulated_calls;
    repeat match goal with
      | H : checkConditions ?x = Some _ |- _ =>
          apply hush_checkConditions in H;
          destruct H as (L' & E'); [cbn; congruence|]; cbn in L', E'
      | H : TimerHit_moving _ _ = Some _ |- _ =>
          apply TimerHit_moving_link in H as (L' & E'); cbn in L', E'
      | H : initProperties _ = Some _ |- _ =>
          apply initProperties_link in H as (L'' & E''); cbn in L'', E''
      end;
    cbn; congruence.
Qed.

(** X16: a simulated dome is silent.  While the base class reports
    simulation, [Move], [Abort], the status updates and [checkConditions]
    neither write to the serial line nor read from it and count no error,
    [TimerHit] leaves the line alone, and the lock, auxiliary and action
    commands do nothing and return false. *)
Theorem simulation_is_silent (s : RollOffIno) :
  isSimulation (base s) = true ->
  (forall dir operation now r s',
      Move dir operation now s = Some (r, s') ->
      line s' = line s /\ communicationErrors s' = communicationErrors s)
  /\ (forall r s',
         Abort s = Some (r, s') ->
         line s' = line s /\ communicationErrors s' = communicationErrors s)
  /\ (forall r s',
         updateRoofStatus s = Some (r, s') ->
         line s' = line s /\ communicationErrors s' = communicationErrors s)
  /\ (forall r s',
         updateActionStatus s = Some (r, s') ->
         line s' = line s /\ communicationErrors s' = communicationErrors s)
  /\ (forall r s',
         checkConditions s = Some (r, s') ->
         line s' = line s /\ communicationErrors s' = communicationErrors s)
  /\ (forall now r s', TimerHit now s = Some (r, s') -> line s' = line s)
  /\ (forall on, setRoofLock on s = Some (false, s))
  /\ (forall on, setRoofAux on s = Some (false, s))
  /\ (forall action on, setAction action on s = Some (false, s)).
Proof.
  intros Hs.
  split; [intros dir operation now r s' H; exact (hush_Move _ _ _ _ _ _ H Hs)|].
  split; [intros r s' H; exact (hush_Abort _ _ _ H Hs)|].
  split.
  { intros r s' H. destruct (quiet_updateRoofStatus _ _ _ H Hs) as (L & E & _).
    auto. }
  split.
  { intros r s' H.
    destruct (quiet_updateActionStatus _ _ _ H Hs) as (L & E & _). auto. }
  split; [intros r s' H; exact (hush_checkConditions _ _ _ H Hs)|].
  split; [intros now r s' H; exact (TimerHit_line _ _ _ _ H Hs)|].
  split; [|split]; intros;
    unfold setRoofLock, setRoofAux, setAction; unfold bind at 1, get;
    rewrite Hs; reflexivity.
Qed.

End Simulation.

(** ** The cached switches *)

Section Cache.

Context {dome_base : DomeBase} {header : Header}.

Definition switches (s : RollOffIno) :=
  (fullyOpenedLimitSwitch s, fullyClosedLimitSwitch s, roofLockedSwitch s,
   roofAuxiliarySwitch s).

Lemma readRoofSwitch_switches id r (s s' : RollOffIno) a :
  readRoofSwitch id r s = Some (a, s') ->
  fullyOpenedLimitSwitch s' = fullyOpenedLimitSwitch s
  /\ fullyClosedLimitSwitch s' = fullyClosedLimitSwitch s
  /\ roofLockedSwitch s' = roofLockedSwitch s
  /\ roofAuxiliarySwitch s' = roofAuxiliarySwitch s.
Proof.
  intros H.
  apply (keeps_readRoofSwitch switches) in H; [|intros; reflexivity ..].
  unfold keeps, switches in H. injection H. auto.
Qed.

Ltac getter_inv :=
  repeat step_inv;
  try match goal with
    | Hr : readRoofSwitch _ _ _ = Some _ |- _ =>
        apply readRoofSwitch_switches in Hr as (O & C & L & X)
    end;
  cbn; auto.

(** X17: a switch getter and the cached switches.  Each of the four getters
    assigns its own cached switch exactly when it returns true, to the state
    it reports, and never touches the other three: after a query that
    failed the driver goes on with the state it read last. *)
Theorem getters_and_the_cached_switches :
  (forall v (s s' : RollOffIno) ok st,
      getFullOpenedLimitSwitch v s = Some ((ok, st), s') ->
      fullyOpenedLimitSwitch s'
      = (if ok then ISS_of_bool st else fullyOpenedLimitSwitch s)
      /\ fullyClosedLimitSwitch s' = fullyClosedLimitSwitch s
      /\ roofLockedSwitch s' = roofLockedSwitch s
      /\ roofAuxiliarySwitch s' = roofAuxiliarySwitch s)
  /\ (forall v (s s' : RollOffIno) ok st,
         getFullClosedLimitSwitch v s = Some ((ok, st), s') ->
         fullyOpenedLimitSwitch s' = fullyOpenedLimitSwitch s
         /\ fullyClosedLimitSwitch s'
            = (if ok then ISS_of_bool st else fullyClosedLimitSwitch s)
         /\ roofLockedSwitch s' = roofLockedSwitch s
         /\ roofAuxiliarySwitch s' = roofAuxiliarySwitch s)
  /\ (forall v (s s' : RollOffIno) ok st,
         getRoofLockedSwitch v s = Some ((ok, st), s') ->
         fullyOpenedLimitSwitch s' = fullyOpenedLimitSwitch s
         /\ fullyClosedLimitSwitch s' = fullyClosedLimitSwitch s
         /\ roofLockedSwitch s'
            = (if ok then ISS_of_bool st else roofLockedSwitch s)
         /\ roofAuxiliarySwitch s' = roofAuxiliarySwitch s)
  /\ (forall v (s s' : RollOffIno) ok st,
         getRoofAuxSwitch v s = Some ((ok, st), s') ->
         fullyOpenedLimitSwitch s' = fullyOpenedLimitSwitch s
         /\ fullyClosedLimitSwitch s' = fullyClosedLimitSwitch s
         /\ roofLockedSwitch s' = roofLockedSwitch s
         /\ roofAuxiliarySwitch s'
            = (if ok then ISS_of_bool st else roofAuxiliarySwitch s)).
Proof.
  split; [|split; [|split]]; intros v s s' ok st H.
  - unfold getFullOpenedLimitSwitch, count_error in H. getter_inv.
  - unfold getFullClosedLimitSwitch, count_error in H. getter_inv.
  - unfold getRoofLockedSwitch, count_error in H. getter_inv.
  - unfold getRoofAuxSwitch, count_error in H. getter_inv.
Qed.

End Cache.

(** ** The handshake on the line *)

Section Probe.

Context {dome_base : DomeBase} {header : Header}.




End Probe.

(** ** Actions the controller did not declare *)

Section Undeclared.

Context {dome_base : DomeBase} {header : Header}.

Lemma strcmp0_true a b : strcmp0 a b = true <-> a = b.
Proof.
  unfold strcmp0, text_eqb.
  destruct (list_eq_dec ascii_dec a b); split; congruence.
Qed.

(** The loop over the table finds an identifier exactly when one of the
    entries it visits is that identifier. *)
Lemma action_listed_true table action n :
  forall i,
    action_listed table action i n = true
    <-> exists j, (i <= j < i + n)%nat /\ table j = action.
Proof.
  induction n as [|n IH]; intros i; cbn [action_listed].
  - split; [discriminate | intros (j & Hj & _); lia].
  - destruct (strcmp0 action (table i)) eqn:E.
    + apply strcmp0_true in E. split; [|reflexivity].
      intros _. exists i. split; [lia | congruence].
    + rewrite IH. split; intros (j & Hj & Ej).
      * exists j. split; [lia | exact Ej].
      * exists j. split; [|exact Ej].
        destruct (Nat.eq_dec j i) as [->|]; [|lia].
        rewrite Ej in E.
        assert (T : strcmp0 action action = true)
          by (apply strcmp0_true; reflexivity).
        congruence.
Qed.

Lemma action_listed_false table action n :
  (forall j, (j < n)%nat -> table j <> action) ->
  action_listed table action 0 n = false.
Proof.
  intros H. destruct (action_listed table action 0 n) eqn:E; [|reflexivity].
  apply action_listed_true in E as (j & Hj & Ej).
  exfalso. apply (H j); [lia | exact Ej].
Qed.

(** X19: an action the controller did not declare.  A command for an
    identifier that is none of the first [actionCount] action commands is
    not sent: [setAction] returns false and leaves the object and the line
    as they are; so it is for every identifier while [actionCount] is
    zero. *)
Theorem undeclared_action_is_not_sent action on (s : RollOffIno) :
  (forall j, (j < Z.to_nat (actionCount s))%nat ->
             act_cmd_used j <> action) ->
  setAction action on s = Some (false, s).
Proof.
  intros H. unfold setAction. unfold bind at 1, get.
  destruct (isSimulation (base s)); [reflexivity|].
  unfold actionCmdUsed. unfold bind at 1. unfold bind at 1, get.
  destruct (actionCount s >? 0); [|reflexivity].
  unfold ret at 1. rewrite (action_listed_false _ _ _ H). reflexivity.
Qed.

(** X20: the state of an action the controller did not declare is not
    asked for.  Off simulation, [getActionSwitch] for an identifier that is
    none of the first [actionCount] action states returns false, reports
    the state its caller passed, and leaves the object and the line as they
    are. *)
Theorem undeclared_action_is_not_queried action v (s : RollOffIno) :
  isSimulation (base s) = false ->
  (forall j, (j < Z.to_nat (actionCount s))%nat ->
             action_state_used j <> action) ->
  getActionSwitch action v s = Some ((false, v), s).
Proof.
  intros Hs H. unfold getActionSwitch. unfold bind at 1, get. rewrite Hs.
  unfold actionSwitchUsed. unfold bind at 1. unfold bind at 1, get.
  destruct (actionCount s >? 0); [|reflexivity].
  unfold ret at 1. rewrite (action_listed_false _ _ _ H). reflexivity.
Qed.

End Undeclared.

(** ** The end of a motion *)

Section Ending.

Context {dome_base : DomeBase} {header : Header}.

Definition motion (s : RollOffIno) :=
  (roofOpening s, roofClosing s, MotionRequest s).

Lemma bind_get {St A B : Type} (f : St -> A) (k : A -> Run St B) s :
  bind (get f) k s = k (f s) s.
Proof. reflexivity. Qed.

Lemma bind_run {St A B : Type} (m : Run St A) (k : A -> Run St B) s a s1 :
  m s = Some (a, s1) -> bind m k s = k a s1.
Proof. intros H. unfold bind. rewrite H. reflexivity. Qed.

Lemma roofAbort_motion (s s' : RollOffIno) r :
  roofAbort s = Some (r, s') ->
  roofOpening s' = roofOpening s /\ roofClosing s' = roofClosing s
  /\ MotionRequest s' = MotionRequest s.
Proof.
  intros H.
  apply (keeps_roofAbort motion) in H; [|intros; reflexivity ..].
  unfold keeps, motion in H. injection H. auto.
Qed.

(** X21: an abort ends the motion for the driver.  When, after the status
    update, the lock and both limit switches are off and the motion
    property is busy, [Abort] leaves both motion flags clear and
    [MotionRequest] negative, whether or not the abort command got through
    to the controller; the timer that follows makes the dome idle. *)
Theorem Abort_ends_the_motion (s s1 s' : RollOffIno) r :
  updateRoofStatus s = Some (tt, s1) ->
  roofLockedSwitch s1 = ISS_OFF ->
  fullyOpenedLimitSwitch s1 = ISS_OFF ->
  fullyClosedLimitSwitch s1 = ISS_OFF ->
  DomeMotionSP_getState (base s1) = IPS_BUSY ->
  Abort s = Some (r, s') ->
  roofOpening s' = false /\ roofClosing s' = false
  /\ MotionRequest s' = -1
  /\ forall timeleft,
       TimerHit_moving timeleft s'
       = Some (1000 * INACTIVE_STATUS,
               set_base (setDomeState DOME_IDLE (base s')) s').
Proof.
  intros Hu Hl Ho Hc Hm H. unfold Abort in H.
  rewrite (bind_run _ _ _ _ _ Hu) in H. rewrite !bind_get in H.
  rewrite Hl, Ho, Hc in H. cbn [ISState_eqb] in H.
  rewrite bind_get, Hm in H. cbn [IPState_eqb negb] in H.
  assert (K : roofOpening s' = false /\ roofClosing s' = false
              /\ MotionRequest s' = -1).
  { repeat run_inv;
      match goal with
      | Ha : roofAbort _ = Some _ |- _ =>
          apply roofAbort_motion in Ha as (O & C & R); cbn in O, C, R
      end; cbn; auto. }
  destruct K as (O & C & R). repeat split; try assumption.
  intros timeleft. unfold TimerHit_moving. unfold bind at 1, get.
  rewrite R. reflexivity.
Qed.

End Ending.

(** ** The park status after a poll *)

Section Parking.

Context {dome_base : DomeBase} {header : Header}.

Definition base_and_limits (s : RollOffIno) :=
  (base s, fullyOpenedLimitSwitch s, fullyClosedLimitSwitch s).

Lemma updateActionStatus_limits (s s' : RollOffIno) r :
  updateActionStatus s = Some (r, s') ->
  base s' = base s
  /\ fullyOpenedLimitSwitch s' = fullyOpenedLimitSwitch s
  /\ fullyClosedLimitSwitch s' = fullyClosedLimitSwitch s.
Proof.
  intros H.
  apply (keeps_updateActionStatus base_and_limits) in H;
    [|intros; reflexivity ..].
  unfold keeps, base_and_limits in H. injection H. auto.
Qed.

(** X22: [checkConditions] brings the park status in line with the limit
    switches.  It always returns true.  With the switches as the status
    update leaves them: a parked dome whose opened switch is on is set
    unparked, an unparked dome whose closed switch is on is set parked, and
    with both switches off the base class is left as it is.  A parked dome
    that is closed, and an unparked one that is open, get the matching dome
    state unless they have it. *)
Theorem checkConditions_reconciles_parking (s s' : RollOffIno) r :
  checkConditions s = Some (r, s') ->
  r = true
  /\ (isParked (base s) = true -> fullyOpenedLimitSwitch s' = ISS_ON ->
      base s' = SetParked false (base s))
  /\ (isParked (base s) = false -> fullyClosedLimitSwitch s' = ISS_ON ->
      base s' = SetParked true (base s))
  /\ (fullyOpenedLimitSwitch s' = ISS_OFF ->
      fullyClosedLimitSwitch s' = ISS_OFF -> base s' = base s)
  /\ (isParked (base s) = true -> fullyOpenedLimitSwitch s' = ISS_OFF ->
      fullyClosedLimitSwitch s' = ISS_ON ->
      base s' = (if DomeState_eqb (getDomeState (base s)) DOME_PARKED
                 then base s
                 else setDomeState DOME_PARKED (base s)))
  /\ (isParked (base s) = false -> fullyClosedLimitSwitch s' = ISS_OFF ->
      fullyOpenedLimitSwitch s' = ISS_ON ->
      base s' = (if DomeState_eqb (getDomeState (base s)) DOME_UNPARKED
                 then base s
                 else setDomeState DOME_UNPARKED (base s))).
Proof.
  unfold checkConditions. intros H. run_inv. run_inv.
  repeat match goal with
         | Hu : updateRoofStatus _ = Some _ |- _ =>
             apply settled_updateRoofStatus, settled_fields in Hu
               as (B1 & _ & _)
         | Ha : updateActionStatus _ = Some _ |- _ =>
             apply updateActionStatus_limits in Ha as (B2 & O2 & C2)
         end.
  rewrite <- B1, <- B2.
  repeat run_inv; cbn;
    repeat match goal with
           | E : ISState_eqb _ ISS_ON = true |- _ =>
               apply ISState_eqb_ON in E
           | E : ISState_eqb _ ISS_ON = false |- _ =>
               apply ISState_eqb_ON in E
           | E : ISState_eqb ?x ISS_OFF = _ |- _ =>
               destruct x; cbn in E; try discriminate E; clear E
           | E : negb ?b = _ |- _ =>
               destruct b; cbn in E; try discriminate E; clear E
           end;
    repeat split; intros; try reflexivity; congruence.
Qed.

End Parking.

(** ** Polling without contact *)

Section Unanswered.

Context {dome_base : DomeBase} {header : Header}.

Lemma readRoofSwitch_without_contact id v (s : RollOffIno) :
  contactEstablished s = false ->
  readRoofSwitch id v s = Some ((false, v), s).
Proof.
  intros Hc. unfold readRoofSwitch. rewrite bind_get, Hc. reflexivity.
Qed.

Ltac without_contact Hc Hs :=
  rewrite bind_get, Hs;
  rewrite (bind_run _ _ _ _ _ (readRoofSwitch_without_contact _ _ _ Hc));
  reflexivity.

Lemma getFullOpenedLimitSwitch_without_contact v (s : RollOffIno) :
  contactEstablished s = false -> isSimulation (base s) = false ->
  getFullOpenedLimitSwitch v s
  = Some ((false, v),
          set_communicationErrors (incr_errors (communicationErrors s)) s).
Proof.
  intros Hc Hs. unfold getFullOpenedLimitSwitch. without_contact Hc Hs.
Qed.

Lemma getFullClosedLimitSwitch_without_contact v (s : RollOffIno) :
  contactEstablished s = false -> isSimulation (base s) = false ->
  getFullClosedLimitSwitch v s
  = Some ((false, v),
          set_communicationErrors (incr_errors (communicationErrors s)) s).
Proof.
  intros Hc Hs. unfold getFullClosedLimitSwitch. without_contact Hc Hs.
Qed.

Lemma getRoofLockedSwitch_without_contact v (s : RollOffIno) :
  contactEstablished s = false -> isSimulation (base s) = false ->
  getRoofLockedSwitch v s
  = Some ((false, v),
          set_communicationErrors (incr_errors (communicationErrors s)) s).
Proof.
  intros Hc Hs. unfold getRoofLockedSwitch. without_contact Hc Hs.
Qed.

Lemma getRoofAuxSwitch_without_contact v (s : RollOffIno) :
  contactEstablished s = false -> isSimulation (base s) = false ->
  getRoofAuxSwitch v s
  = Some ((false, v),
          set_communicationErrors (incr_errors (communicationErrors s)) s).
Proof.
  intros Hc Hs. unfold getRoofAuxSwitch. without_contact Hc Hs.
Qed.

(** X23: a poll without contact.  Off simulation and while no contact is
    established, [updateRoofStatus] asks nothing of the controller, counts
    one error for each of its four switches, leaves the cached switches as
    they are and sets the status lights as for four switches that are off. *)
Theorem poll_without_contact (s : RollOffIno) :
  contactEstablished s = false ->
  isSimulation (base s) = false ->
  updateRoofStatus s
  = Some (tt,
          roof_lights false false false false
            (set_communicationErrors
               (incr_errors
                  (incr_errors
                     (incr_errors
                        (incr_errors (communicationErrors s))))) s)).
Proof.
  intros Hc Hs. unfold updateRoofStatus.
  rewrite (bind_run _ _ _ _ _
             (getFullOpenedLimitSwitch_without_contact false s Hc Hs)).
  rewrite (bind_run _ _ _ _ _
             (getFullClosedLimitSwitch_without_contact false
                (set_communicationErrors _ s) Hc Hs)).
  rewrite (bind_run _ _ _ _ _
             (getRoofLockedSwitch_without_contact false
                (set_communicationErrors _ (set_communicationErrors _ s))
                Hc Hs)).
  rewrite (bind_run _ _ _ _ _
             (getRoofAuxSwitch_without_contact false
                (set_communicationErrors _
                   (set_communicationErrors _
                      (set_communicationErrors _ s)))
                Hc Hs)).
  reflexivity.
Qed.

End Unanswered.

(** ** The lock and the commands *)

Section Guard.

Context {dome_base : DomeBase} {header : Header}.


End Guard.

(** ** The later properties on the demonstration objects *)

Lemma busy_means_the_command_was_sent_witness :
  @Move demo_dome demo_header DOME_CW MOTION_START 0 demo_closed_roof
  = Some (IPS_BUSY, demo_open_sent)
  /\ contactEstablished demo_closed_roof = true
  /\ exists sent,
       tx (line demo_open_sent)
       = sent ++ [str "(SET:" ++ @ROOF_OPEN_CMD demo_header ++ str ":ON)"].
Proof.
  assert (H : @Move demo_dome demo_header DOME_CW MOTION_START 0
                demo_closed_roof
              = Some (IPS_BUSY, demo_open_sent))
    by (vm_compute; reflexivity).
  split; [exact H|].
  exact (@busy_means_the_command_was_sent demo_dome demo_header DOME_CW
           MOTION_START 0 demo_closed_roof demo_open_sent H eq_refl).
Defined.

Lemma no_contact_no_traffic_witness :
  contactEstablished demo_no_contact = false
  /\ rx (line demo_no_contact) = bytes (str "(ACK:OPENED:ON)")
  /\ line demo_no_contact_moved = line demo_no_contact
  /\ contactEstablished demo_no_contact_moved = false.
Proof.
  split; [reflexivity|]. split; [reflexivity|].
  apply (proj1 (@no_contact_no_traffic demo_dome demo_header)
           DOME_CW MOTION_START 0 demo_no_contact IPS_ALERT
           demo_no_contact_moved).
  - vm_compute. reflexivity.
  - reflexivity.
Defined.

Lemma simulation_is_silent_witness :
  isSimulation (base demo_simulated_roof) = true
  /\ @Move demo_dome demo_header DOME_CW MOTION_START 0 demo_simulated_roof
     = Some (IPS_BUSY, demo_simulated_moved)
  /\ line demo_simulated_moved = line demo_simulated_roof
  /\ communicationErrors demo_simulated_moved
     = communicationErrors demo_simulated_roof.
Proof.
  assert (H : @Move demo_dome demo_header DOME_CW MOTION_START 0
                demo_simulated_roof
              = Some (IPS_BUSY, demo_simulated_moved))
    by (vm_compute; reflexivity).
  split; [reflexivity|]. split; [exact H|].
  exact (proj1 (@simulation_is_silent demo_dome demo_header
                  demo_simulated_roof eq_refl)
           DOME_CW MOTION_START 0 IPS_BUSY demo_simulated_moved H).
Defined.

Lemma getters_and_the_cached_switches_witness :
  @getFullOpenedLimitSwitch demo_dome demo_header false demo_silent
  = Some ((false, false), demo_silent_asked)
  /\ fullyOpenedLimitSwitch demo_silent_asked
     = fullyOpenedLimitSwitch demo_silent
  /\ fullyClosedLimitSwitch demo_silent_asked
     = fullyClosedLimitSwitch demo_silent
  /\ roofLockedSwitch demo_silent_asked = roofLockedSwitch demo_silent
  /\ roofAuxiliarySwitch demo_silent_asked = roofAuxiliarySwitch demo_silent.
Proof.
  assert (H : @getFullOpenedLimitSwitch demo_dome demo_header false
                demo_silent
              = Some ((false, false), demo_silent_asked))
    by (vm_compute; reflexivity).
  split; [exact H|].
  exact (proj1 (@getters_and_the_cached_switches demo_dome demo_header)
           false demo_silent demo_silent_asked false false H).
Defined.


Lemma undeclared_action_is_not_sent_witness :
  actionCount demo_handshaken = 4
  /\ @setAction demo_dome demo_header (str "ACT5SET") true demo_handshaken
     = Some (false, demo_handshaken).
Proof.
  split; [reflexivity|].
  apply (@undeclared_action_is_not_sent demo_dome demo_header).
  intros j Hj. change (Z.to_nat (actionCount demo_handshaken)) with 4%nat in Hj.
  destruct j as [|[|[|[|j]]]]; [discriminate .. | lia].
Defined.

Lemma undeclared_action_is_not_queried_witness :
  actionCount demo_handshaken = 4
  /\ @getActionSwitch demo_dome demo_header (str "ACT5STATE") true
       demo_handshaken
     = Some ((false, true), demo_handshaken).
Proof.
  split; [reflexivity|].
  apply (@undeclared_action_is_not_queried demo_dome demo_header).
  - reflexivity.
  - intros j Hj.
    change (Z.to_nat (actionCount demo_handshaken)) with 4%nat in Hj.
    destruct j as [|[|[|[|j]]]]; [discriminate .. | lia].
Defined.

Lemma Abort_ends_the_motion_witness :
  roofOpening demo_moving_open = true
  /\ roofOpening demo_moving_aborted = false
  /\ roofClosing demo_moving_aborted = false
  /\ MotionRequest demo_moving_aborted = -1
  /\ forall timeleft,
       @TimerHit_moving demo_dome timeleft demo_moving_aborted
       = Some (1000 * INACTIVE_STATUS,
               set_base (setDomeState DOME_IDLE (base demo_moving_aborted))
                 demo_moving_aborted).
Proof.
  split; [reflexivity|].
  apply (@Abort_ends_the_motion demo_dome demo_header demo_moving_open
           demo_moving_status demo_moving_aborted true).
  - vm_compute. reflexivity.
  - reflexivity.
  - reflexivity.
  - reflexivity.
  - reflexivity.
  - vm_compute. reflexivity.
Defined.

Lemma checkConditions_reconciles_parking_witness :
  isParked (base demo_closed_roof) = false
  /\ fullyClosedLimitSwitch demo_closed_checked = ISS_ON
  /\ base demo_closed_checked = SetParked true (base demo_closed_roof).
Proof.
  assert (H : @checkConditions demo_dome demo_header demo_closed_roof
              = Some (true, demo_closed_checked))
    by (vm_compute; reflexivity).
  split; [reflexivity|]. split; [reflexivity|].
  exact (proj1 (proj2 (proj2 (@checkConditions_reconciles_parking demo_dome
                                demo_header _ _ _ H)))
           eq_refl eq_refl).
Defined.

Lemma poll_without_contact_witness :
  exists s',
    @updateRoofStatus demo_dome demo_header demo_no_contact = Some (tt, s')
    /\ communicationErrors s' = 4
    /\ line s' = line demo_no_contact.
Proof.
  eexists. split.
  - apply (@poll_without_contact demo_dome demo_header demo_no_contact);
      reflexivity.
  - split; reflexivity.
Defined.


(** ** What the status lights tell *)

Section Lights.

Context {dome_base : DomeBase} {header : Header}.

(** X25: the roof status lights after a status update that read the
    auxiliary switch, the lock and the two limit switches.  The lock light
    is red exactly when the lock reads on and the auxiliary light green
    exactly when that switch reads on.  The summary light is green when
    exactly one limit switch reads on, and with the lock on also when both
    do.  The moving light is lit only while a motion flag is set and both
    limit switches read off.  A motion flag is cleared exactly when its
    limit switch reads on, the other one off, and the lock off. *)
Theorem roof_lights_tell aux locked opened closed (s : RollOffIno) :
  let s' := roof_lights aux locked opened closed s in
  ROOF_STATUS_LOCKED (RoofStatusL s')
  = (if locked then IPS_ALERT else IPS_IDLE)
  /\ ROOF_STATUS_AUXSTATE (RoofStatusL s')
     = (if aux then IPS_OK else IPS_IDLE)
  /\ (RoofStatusLP s' = IPS_OK
      <-> (if locked then opened || closed else xorb opened closed) = true)
  /\ (ROOF_STATUS_MOVING (RoofStatusL s') <> IPS_IDLE ->
      opened = false /\ closed = false
      /\ roofOpening s || roofClosing s = true)
  /\ roofOpening s'
     = roofOpening s && negb (negb locked && opened && negb closed)
  /\ roofClosing s'
     = roofClosing s && negb (negb locked && closed && negb opened).
Proof.
  unfold roof_lights.
  destruct aux, locked, opened, closed, (roofOpening s) eqn:O,
    (roofClosing s) eqn:C, (roofTimedOut s);
    cbn; rewrite ?O, ?C;
    repeat split; intros; try reflexivity; try discriminate;
    try congruence.
Qed.

Lemma modify_Some {St : Type} (f : St -> St) s a s' :
  modify f s = Some (a, s') -> s' = f s.
Proof. intros H. injection H as _ <-. reflexivity. Qed.

Lemma action_lights_summary n :
  forall i (s : RollOffIno),
    actionState (action_lights i n s) = actionState s
    /\ ActionStatusLP (action_lights i n s)
       = (if existsb (fun j => nth j (actionState s) false) (seq i n)
          then IPS_OK
          else ActionStatusLP s).
Proof.
  induction n as [|n IH]; intros i s; cbn [action_lights seq existsb].
  - split; reflexivity.
  - destruct (IH (S i)
                (if nth i (actionState s) false
                 then set_ActionStatusLP IPS_OK
                        (set_ActionStatusL
                           (set_nth i IPS_OK (ActionStatusL s)) s)
                 else s)) as [A P].
    rewrite A, P. destruct (nth i (actionState s) false); cbn.
    + split; [reflexivity|].
      destruct (existsb _ _); reflexivity.
    + split; reflexivity.
Qed.

(** X26: the summary light of the actions.  After [updateActionStatus] the
    summary light is green exactly when one of the eight action states it
    has just read is on, and idle otherwise. *)
Theorem action_summary_light (s s' : RollOffIno) r :
  updateActionStatus s = Some (r, s') ->
  ActionStatusLP s'
  = (if existsb (fun j => nth j (actionState s') false) (seq 0 8)
     then IPS_OK
     else IPS_IDLE).
Proof.
  unfold updateActionStatus. intros H.
  apply bind_Some in H as (a & s1 & _ & H).
  apply bind_Some in H as (b & s2 & H2 & H).
  apply modify_Some in H2. apply modify_Some in H. subst s2 s'.
  destruct (action_lights_summary (Z.to_nat MAX_ACTIONS) 0
              (set_ActionStatusLP IPS_IDLE s1)) as [A P].
  rewrite A, P. reflexivity.
Qed.

End Lights.

Lemma action_summary_light_witness :
  @updateActionStatus demo_dome demo_header demo_action_on
  = Some (tt, demo_action_status)
  /\ nth 0 (actionState demo_action_status) false = true
  /\ ActionStatusLP demo_action_status = IPS_OK.
Proof.
  assert (H : @updateActionStatus demo_dome demo_header demo_action_on
              = Some (tt, demo_action_status))
    by (vm_compute; reflexivity).
  split; [exact H|]. split; [reflexivity|].
  rewrite (@action_summary_light demo_dome demo_header _ _ _ H).
  reflexivity.
Defined.


(** ** A version text that is too long *)

Lemma contact_actions_long x :
  forallb plain x = true -> (16 <= length x)%nat ->
  contact_actions (frame (str "ACK") (str "0") x) = None.
Proof.
  intros Hx L.
  assert (Nx : x <> []) by (destruct x; [simpl in L; lia | discriminate]).
  unfold contact_actions.
  rewrite strtok_frame; [|discriminate|reflexivity].
  change (strcpy (MAXINOVAL + 1) (Some (str "ACK"))) with (Some (str "ACK")).
  cbv iota beta.
  rewrite (strtok_app (str ":") (str "0"));
    [|discriminate|reflexivity|reflexivity].
  change (strcpy (MAXINOVAL + 1) (Some (str "0"))) with (Some (str "0")).
  cbv iota beta.
  rewrite strtok_app;
    [|assumption|apply plain_free_of; [assumption | reflexivity]
     |reflexivity].
  unfold strcpy, strlen.
  replace (Z.of_nat (length x) <? MAXINOTARGET + 1) with false
    by (symmetry; apply Z.ltb_ge; unfold MAXINOTARGET; lia).
  reflexivity.
Qed.

Section LongValue.

Context {dome_base : DomeBase} {header : Header}.

(** X27: a handshake answer with a long value.  An answer "(ACK:0:<value>)"
    whose value has 16 to 118 characters without delimiters is a frame the
    reader returns with success and [evaluateResponse] takes for a
    successful contact; [initialContact] then copies the value into its
    buffer [target] of 16 bytes, which it does not fit: the copy runs over
    the end of the buffer and the call has no defined result. *)
Theorem initialContact_overflows_on_a_long_value x rest (s : RollOffIno) :
  forallb plain x = true -> (16 <= length x <= 118)%nat ->
  hd None (wr (line s)) = None ->
  rx (line s) = bytes (frame (str "ACK") (str "0") x) ++ rest ->
  (exists s1,
      readIno_m s = Some ((true, frame (str "ACK") (str "0") x), s1))
  /\ evaluateResponse (frame (str "ACK") (str "0") x) = Some (true, true)
  /\ initialContact s = None.
Proof.
  intros Hx L W Hrx.
  assert (Nx : x <> []) by (destruct x; [simpl in L; lia | discriminate]).
  assert (LF : (length (frame (str "ACK") (str "0") x) <= 126)%nat).
  { rewrite frame_length. simpl. lia. }
  assert (Ev : evaluateResponse (frame (str "ACK") (str "0") x)
               = Some (true, true)).
  { unfold evaluateResponse.
    rewrite frame_fields_frame;
      [|discriminate|discriminate|assumption|reflexivity|reflexivity
       |assumption|simpl; lia|simpl; lia|assumption].
    reflexivity. }
  split; [|split; [exact Ev|]].
  - eexists.
    apply (readIno_m_frame (str "ACK") (str "0") x rest);
      [reflexivity|reflexivity|exact Hx|simpl; lia|simpl; lia|exact LF
      |exact Hrx].
  - unfold initialContact.
    unfold bind at 1. unfold modify at 1.
    unfold bind at 1. unfold modify at 1.
    unfold bind at 1.
    rewrite writeIno_m_run; [|vm_compute; discriminate|exact W].
    cbv iota beta.
    unfold bind at 1.
    rewrite (readIno_m_frame (str "ACK") (str "0") x rest);
      [|reflexivity|reflexivity|exact Hx|simpl; lia|simpl; lia|exact LF
       |exact Hrx].
    cbn [fst snd]. cbv iota.
    unfold bind at 1. unfold strcpy, strlen.
    replace (Z.of_nat (length (frame (str "ACK") (str "0") x)) <? MAXINOBUF)
      with true
      by (symmetry; apply Z.ltb_lt; unfold MAXINOBUF; lia).
    cbn [of_option]. unfold ret at 1. cbv iota beta.
    unfold bind at 1. rewrite Ev.
    cbn [of_option fst snd]. unfold ret at 1. cbv iota beta.
    unfold bind at 1. unfold modify at 1. cbv iota beta.
    unfold bind at 1. unfold bind at 1.
    rewrite contact_actions_long by (assumption || lia).
    reflexivity.
Qed.

End LongValue.

Lemma initialContact_overflows_on_a_long_value_witness :
  (16 <= length (str "V1.3-0-202[ACT4]") <= 118)%nat
  /\ evaluateResponse (str "(ACK:0:V1.3-0-202[ACT4])") = Some (true, true)
  /\ @initialContact demo_dome
       (demo_connected_roof "(ACK:0:V1.3-0-202[ACT4])")
     = None.
Proof.
  split; [simpl; lia|].
  apply (@initialContact_overflows_on_a_long_value demo_dome
           (str "V1.3-0-202[ACT4]") []
           (demo_connected_roof "(ACK:0:V1.3-0-202[ACT4])")).
  - reflexivity.
  - simpl. lia.
  - reflexivity.
  - vm_compute. reflexivity.
Defined.
